(** * boxtree: the level loop kernels of the tree builder

    A shallow embedding of the OpenCL kernels that
    [boxtree/tree_build_kernels.py] generates (the Morton bin count scan, the
    split box id scan, the split-and-sort pass, the empty box pruner and the
    source counter) and of the two reordering helpers of
    [boxtree/pyfmmlib_integration.py], with the properties the specification
    states about them.

    Device arrays are lists read with a default and written in range;
    machine integers are [Z] with the wrap-around of their width written
    out; the templates' compile-time switches ([dimensions],
    [srcntgts_have_extent], [adaptive]) are ordinary arguments. *)

From Stdlib Require Import ZArith List Bool Lia Permutation QArith.
Import ListNotations.

#[local] Open Scope Z_scope.

(** ** Machine integers *)

(** Two's complement value of width [w] that is congruent to [z]. *)
Definition wrap (w : positive) (z : Z) : Z :=
  (z + 2 ^ (Z.pos w - 1)) mod 2 ^ Z.pos w - 2 ^ (Z.pos w - 1).

Definition max_int (w : positive) : Z := 2 ^ (Z.pos w - 1) - 1.
Definition min_int (w : positive) : Z := - 2 ^ (Z.pos w - 1).

Definition in_range (w : positive) (z : Z) : Prop :=
  min_int w <= z <= max_int w.

Definition INT_MAX : Z := max_int 32.
Definition INT_MIN : Z := min_int 32.

(** [inline int my_add_sat(int a, int b)]:
    [long result = (long) a + b; return (result > INT_MAX) ? INT_MAX : result;] *)
Definition my_add_sat (a b : Z) : Z :=
  let result := wrap 64 (a + b) in
  if result >? INT_MAX then INT_MAX else wrap 32 result.

(** OpenCL's built-in [add_sat] on [int]: the sum clamped to the type. *)
Definition add_sat (a b : Z) : Z :=
  Z.max INT_MIN (Z.min INT_MAX (a + b)).

(** ** Arrays *)

(** Read of a device array; the index is a machine integer. *)
Definition rd {A : Type} (dflt : A) (l : list A) (i : Z) : A :=
  if i <? 0 then dflt else nth (Z.to_nat i) l dflt.

Fixpoint upd_nat {A : Type} (l : list A) (n : nat) (v : A) : list A :=
  match l, n with
  | [], _ => []
  | _ :: t, O => v :: t
  | h :: t, S k => h :: upd_nat t k v
  end.

(** Write into a device array; a write outside of the allocation is dropped. *)
Definition wr {A : Type} (l : list A) (i : Z) (v : A) : list A :=
  if i <? 0 then l else upd_nat l (Z.to_nat i) v.

Definition len {A : Type} (l : list A) : Z := Z.of_nat (length l).

(** The indices [0, 1, ..., n-1] of an array as machine integers. *)
Definition iota (n : nat) : list Z := map Z.of_nat (seq 0 n).

(** ** The Morton bin count record *)

(** [make_morton_bin_count_type]: [nonchild_srcntgts] (only with extents),
    then [pcnt<bits>] and [pwt<bits>] for [mnr in range(2**dimensions)].
    The fields [pcnt<bits>] are kept as a list, the field of [mnr] at index
    [mnr]; without extents [nonchild_srcntgts] does not exist and is kept
    at 0. *)
Record morton_counts_t : Type := mk_counts {
  nonchild_srcntgts : Z;
  pcnt : list Z;
  pwt : list Z
}.

Definition scan_t : Type := morton_counts_t.

(** [range(2**dimensions)] *)
Definition mnrs (dimensions : nat) : list nat := seq 0 (2 ^ dimensions).

Definition fld (l : list Z) (mnr : nat) : Z := nth mnr l 0.

Section ScanPrimitives.

(** Width of [particle_id_t], the template switch [srcntgts_have_extent]
    and [dimensions]. *)
Variable particle_id_bits : positive.
Variable srcntgts_have_extent : bool.
Variable dimensions : nat.

Definition scan_t_neutral : scan_t :=
  {| nonchild_srcntgts := 0;
     pcnt := map (fun _ => 0) (mnrs dimensions);
     pwt := map (fun _ => 0) (mnrs dimensions) |}.

(** [scan_t scan_t_add(scan_t a, scan_t b, bool across_seg_boundary)] *)
Definition scan_t_add (a b : scan_t) (across_seg_boundary : bool) : scan_t :=
  if negb across_seg_boundary then
    {| nonchild_srcntgts :=
         if srcntgts_have_extent
         then wrap particle_id_bits (nonchild_srcntgts b + nonchild_srcntgts a)
         else 0;
       pcnt := map (fun mnr => wrap particle_id_bits (fld (pcnt a) mnr + fld (pcnt b) mnr))
                   (mnrs dimensions);
       pwt := map (fun mnr => my_add_sat (fld (pwt a) mnr) (fld (pwt b) mnr))
                  (mnrs dimensions) |}
  else b.

(** The record that [scan_t_from_particle] builds from the particle's
    [level_morton_number] and [refine_weights[user_srcntgt_id]]. *)
Definition scan_t_of_morton_nr (level_morton_number weight : Z) : scan_t :=
  {| nonchild_srcntgts :=
       if srcntgts_have_extent
       then (if level_morton_number =? -1 then 1 else 0)
       else 0;
     pcnt := map (fun mnr => if level_morton_number =? Z.of_nat mnr then 1 else 0)
                 (mnrs dimensions);
     pwt := map (fun mnr => if level_morton_number =? Z.of_nat mnr then weight else 0)
                (mnrs dimensions) |}.

End ScanPrimitives.

(** ** Split-and-sort: the generated count lookup *)

(** The C expression that [get_count_for_branch] prints: a field
    [counts.pcnt<known_bits>] or [((morton_nr < boundary) ? e0 : e1)]. *)
Inductive count_expr : Type :=
| Pcnt (known_bits : list bool)
| Branch (boundary_morton_nr : Z) (below above : count_expr).

(** [int(bits, 2)], most significant digit first. *)
Definition int2 (bits : list bool) : Z :=
  fold_left (fun acc (b : bool) => 2 * acc + (if b then 1 else 0)) bits 0.

(** [get_count_for_branch(known_bits)]; [rest] is
    [dimensions - len(known_bits)], on which the template recurses. *)
Fixpoint get_count_for_branch (rest : nat) (known_bits : list bool) : count_expr :=
  match rest with
  | O => Pcnt known_bits
  | S rest' =>
      Branch (int2 (known_bits ++ [true] ++ repeat false rest'))
             (get_count_for_branch rest' (known_bits ++ [false]))
             (get_count_for_branch rest' (known_bits ++ [true]))
  end.

(** Value of the printed expression; the field [pcnt<bits>] is the one of
    the Morton number whose [dimensions]-digit numeral is [bits]. *)
Fixpoint eval_count_expr (e : count_expr) (counts : morton_counts_t) (morton_nr : Z) : Z :=
  match e with
  | Pcnt known_bits => fld (pcnt counts) (Z.to_nat (int2 known_bits))
  | Branch boundary below above =>
      if morton_nr <? boundary
      then eval_count_expr below counts morton_nr
      else eval_count_expr above counts morton_nr
  end.

(** [particle_id_t get_count(morton_counts_t counts, int morton_nr)] *)
Definition get_count (srcntgts_have_extent : bool) (dimensions : nat)
    (counts : morton_counts_t) (morton_nr : Z) : Z :=
  if srcntgts_have_extent && (morton_nr =? -1)
  then nonchild_srcntgts counts
  else eval_count_expr (get_count_for_branch dimensions []) counts morton_nr.

(** ** The scan and elementwise primitives of the substrate *)

Section GenericScan.

Context {T : Type}.
(** [scan_expr] with its arguments [a], [b] and [across_seg_boundary]. *)
Variable scan_expr : T -> T -> bool -> T.
Variable neutral : T.

Fixpoint scan_from (prev : T) (inputs : list (bool * T)) : list T :=
  match inputs with
  | [] => []
  | (is_segment_start, x) :: rest =>
      let item := scan_expr prev x is_segment_start in
      item :: scan_from item rest
  end.

(** The values [item] that the output statement of a [GenericScanKernel]
    sees: the inclusive scan of the inputs, each paired with its
    [is_segment_start_expr]. *)
Definition scan_items (inputs : list (bool * T)) : list T :=
  match inputs with
  | [] => []
  | (_, x) :: rest => x :: scan_from x rest
  end.

(** The values [prev_item] of an unsegmented scan: the scan result before
    [i], the neutral element at [i = 0]. *)
Definition prev_items (items : list T) : list T :=
  firstn (length items) (neutral :: items).

End GenericScan.

(** An elementwise pass or an output statement stores [v] at index [k] for
    each pair [(k, v)], lane after lane. *)
Definition apply_writes {A : Type} (arr : list A) (ws : list (Z * A)) : list A :=
  fold_left (fun a w => wr a (fst w) (snd w)) ws arr.

(** [scan_expr="a+b"] on a scan type of width [w]. *)
Definition add_expr (w : positive) (a b : Z) (_ : bool) : Z := wrap w (a + b).

Definition unsegmented (inputs : list Z) : list (bool * Z) :=
  map (fun x => (false, x)) inputs.

(** ** The empty box pruner *)

Section FindPruneIndices.

Variable box_id_bits : positive.
Variable box_srcntgt_counts_cumul : list Z.

(** [input_expr="box_srcntgt_counts_cumul[i] == 0 ? 1 : 0"] *)
Definition prune_input (i : Z) : Z :=
  if rd 0 box_srcntgt_counts_cumul i =? 0 then 1 else 0.

Definition prune_N : nat := length box_srcntgt_counts_cumul.

Definition prune_items : list Z :=
  scan_items (add_expr box_id_bits) (unsegmented (map prune_input (iota prune_N))).

Definition prune_prev_item (i : Z) : Z := rd 0 (prev_items 0 prune_items) i.
Definition prune_item (i : Z) : Z := rd 0 prune_items i.

(** [to_box_id[i] = i-prev_item;] *)
Definition to_box_id_writes : list (Z * Z) :=
  map (fun i => (i, wrap box_id_bits (i - prune_prev_item i))) (iota prune_N).

(** [if (box_srcntgt_counts_cumul[i]) from_box_id[i-prev_item] = i;] *)
Definition from_box_id_writes : list (Z * Z) :=
  map (fun i => (wrap box_id_bits (i - prune_prev_item i), i))
      (filter (fun i => negb (rd 0 box_srcntgt_counts_cumul i =? 0)) (iota prune_N)).

(** [if (i+1 == N) *nboxes_post_prune = N-item;] *)
Definition nboxes_post_prune_writes : list (Z * Z) :=
  map (fun i => (0, wrap box_id_bits (Z.of_nat prune_N - prune_item i)))
      (filter (fun i => i + 1 =? Z.of_nat prune_N) (iota prune_N)).

(** The three output arrays after the scan, from their contents before. *)
Definition find_prune_indices (to_box_id from_box_id nboxes_post_prune : list Z)
    : list Z * list Z * list Z :=
  (apply_writes to_box_id to_box_id_writes,
   apply_writes from_box_id from_box_id_writes,
   apply_writes nboxes_post_prune nboxes_post_prune_writes).

End FindPruneIndices.

(** Number of boxes without particles. *)
Definition count_empty (box_srcntgt_counts_cumul : list Z) : Z :=
  len (filter (fun c => c =? 0) box_srcntgt_counts_cumul).

(** ** The source counter *)

Section SourceCounter.

Variable box_id_bits particle_id_bits : positive.
Variable user_srcntgt_ids : list Z.
Variable nsources : Z.

(** [bool is_source = user_srcntgt_id < nsources;] *)
Definition is_source (user_srcntgt_id : Z) : bool := user_srcntgt_id <? nsources.

(** [input_expr="(user_srcntgt_ids[i] < nsources) ? 1 : 0"] *)
Definition source_counter_input (user_srcntgt_id : Z) : Z :=
  if is_source user_srcntgt_id then 1 else 0.

Definition source_counter_items : list Z :=
  scan_items (add_expr box_id_bits) (unsegmented (map source_counter_input user_srcntgt_ids)).

(** [output_statement="source_numbers[i] = prev_item;"] *)
Definition source_counter (source_numbers : list Z) : list Z :=
  apply_writes source_numbers
    (map (fun i => (i, wrap particle_id_bits (rd 0 (prev_items 0 source_counter_items) i)))
         (iota (length user_srcntgt_ids))).

(** Sources among the first [k] particles in tree order. *)
Definition sources_among_first (k : nat) : Z :=
  len (filter is_source (firstn k user_srcntgt_ids)).

(** The specification's source rank: sources at or before position [i]. *)
Definition sources_at_or_before (i : nat) : Z := sources_among_first (S i).

(** Sources strictly before position [i]. *)
Definition sources_before (i : nat) : Z := sources_among_first i.

End SourceCounter.

(** ** Reordering between user order and tree order *)

(** numpy's [a[idx]] for an integer index array: entry [k] is [a[idx[k]]],
    a negative index counts from the end, an index out of bounds raises
    [IndexError]. *)
Definition np_index {A : Type} (a : list A) (k : Z) : option A :=
  if (0 <=? k) && (k <? len a) then nth_error a (Z.to_nat k)
  else if (- len a <=? k) && (k <? 0) then nth_error a (Z.to_nat (len a + k))
  else None.

Fixpoint np_take {A : Type} (a : list A) (idx : list Z) : option (list A) :=
  match idx with
  | [] => Some []
  | k :: rest =>
      match np_index a k, np_take a rest with
      | Some v, Some vs => Some (v :: vs)
      | _, _ => None
      end
  end.

Record Tree : Type := mk_tree {
  user_source_ids : list Z;
  sorted_target_ids : list Z
}.

(** [def reorder_sources(self, source_array)] *)
Definition reorder_sources {A : Type} (tree : Tree) (source_array : list A) : option (list A) :=
  np_take source_array (user_source_ids tree).

(** [def reorder_potentials(self, potentials)] *)
Definition reorder_potentials {A : Type} (tree : Tree) (potentials : list A) : option (list A) :=
  np_take potentials (sorted_target_ids tree).

(** Modelled from the spec: the tree builder's driver, which fills
    [user_source_ids] and [sorted_target_ids] when sources and targets
    coincide, is not part of the sources at hand. The user-id permutation
    maps tree order to user order and is a permutation of [0, N);
    [user_source_ids] is that permutation and [sorted_target_ids] converts
    back to input order: it holds, at each user id, the tree position of
    that particle (as [sorted_target_ids[user_target_id] = target_nr] in the
    source and target index finder). *)
Definition tree_of_coinciding (user_srcntgt_ids : list Z) : Tree :=
  {| user_source_ids := user_srcntgt_ids;
     sorted_target_ids :=
       apply_writes (map (fun _ => 0) user_srcntgt_ids)
         (map (fun i => (rd 0 user_srcntgt_ids i, i)) (iota (length user_srcntgt_ids))) |}.

(** Records on which the merge is compared under two parenthesizations. *)
Definition sat_a : morton_counts_t := mk_counts 0 [0; 0] [INT_MAX; 0].
Definition sat_b : morton_counts_t := mk_counts 0 [0; 0] [1; 0].
Definition sat_c : morton_counts_t := mk_counts 0 [0; 0] [-1; 0].

(** Weight fields as refine weights give them: non-negative [int]s. *)
Definition weights_nonneg (a : morton_counts_t) : Prop :=
  Forall (fun w => 0 <= w <= INT_MAX) (pwt a).

(** Sum of the first [k] inputs of a scan. *)
Definition psum (inputs : list Z) (k : nat) : Z :=
  fold_right Z.add 0 (firstn k inputs).

Definition indicator (p : Z -> bool) (x : Z) : Z := if p x then 1 else 0.

(** Boxes with particles among the first [k] boxes. *)
Definition survivors_before (box_srcntgt_counts_cumul : list Z) (k : nat) : Z :=
  len (filter (fun c => negb (c =? 0)) (firstn k box_srcntgt_counts_cumul)).

(** Particle counts of five boxes, two of them empty. *)
Definition prune_sample : list Z := [5; 0; 2; 0; 3].

(** ** The Morton number of a particle *)

(** The arithmetic of [coord_t] that [scan_t_from_particle] uses: the
    four operations, the conversions from and to [unsigned], and the two
    comparisons. The kernel is generated for whatever floating point type
    [coord_dtype] names; nothing below depends on its rounding. *)
Class Coord (coord_t : Type) : Type := {
  c_add : coord_t -> coord_t -> coord_t;
  c_sub : coord_t -> coord_t -> coord_t;
  c_mul : coord_t -> coord_t -> coord_t;
  c_div : coord_t -> coord_t -> coord_t;
  c_of_int : Z -> coord_t;
  c_to_unsigned : coord_t -> Z;
  c_ge : coord_t -> coord_t -> bool;
  c_lt : coord_t -> coord_t -> bool
}.

(** One axis of the particle: [bbox->min_x], [bbox->max_x] and [x[user_srcntgt_id]]. *)
Record axis_t (coord_t : Type) : Type := mk_axis {
  bbox_min : coord_t;
  bbox_max : coord_t;
  srcntgt_coord : coord_t
}.
Arguments mk_axis {coord_t}.
Arguments bbox_min {coord_t}.
Arguments bbox_max {coord_t}.
Arguments srcntgt_coord {coord_t}.

Section MortonNumber.

Context {coord_t : Type} `{Coord coord_t}.

(** [STICK_OUT_FACTOR], [srcntgts_have_extent], [level], [srcntgt_radius]. *)
Variable STICK_OUT_FACTOR : coord_t.
Variable srcntgts_have_extent : bool.
Variable level : Z.
Variable srcntgt_radius : coord_t.

(** [1U << level] *)
Definition one_shl_level : Z := (Z.shiftl 1 level) mod 2 ^ 32.

Definition next_level_box_size_factor : coord_t :=
  c_div (c_of_int 1) (c_of_int one_shl_level).

Definition one_half : coord_t := c_div (c_of_int 1) (c_of_int 2).

Definition box_radius_factor : coord_t :=
  c_mul (c_add (c_of_int 1) STICK_OUT_FACTOR) one_half.

Definition global_extent (ax : axis_t coord_t) : coord_t :=
  c_sub (bbox_max ax) (bbox_min ax).

(** [unsigned x_bits = (unsigned) (((srcntgt_x - global_min_x) / global_extent_x) * (1U << level));] *)
Definition axis_bits (ax : axis_t coord_t) : Z :=
  c_to_unsigned
    (c_mul (c_div (c_sub (srcntgt_coord ax) (bbox_min ax)) (global_extent ax))
           (c_of_int one_shl_level)).

Definition next_level_box_center (ax : axis_t coord_t) : coord_t :=
  c_add (bbox_min ax)
        (c_mul (c_mul (global_extent ax) (c_add (c_of_int (axis_bits ax)) one_half))
               next_level_box_size_factor).

Definition next_level_box_stick_out_radius (ax : axis_t coord_t) : coord_t :=
  c_mul (c_mul box_radius_factor (global_extent ax)) next_level_box_size_factor.

(** The two updates of [stop_srcntgt_descent] for one axis. *)
Definition stop_update (stop : bool) (ax : axis_t coord_t) : bool :=
  let stop1 :=
    stop || c_ge (c_add (srcntgt_coord ax) srcntgt_radius)
                 (c_add (next_level_box_center ax) (next_level_box_stick_out_radius ax)) in
  stop1 || c_lt (c_sub (srcntgt_coord ax) srcntgt_radius)
                (c_sub (next_level_box_center ax) (next_level_box_stick_out_radius ax)).

Definition stop_srcntgt_descent (axes : list (axis_t coord_t)) : bool :=
  fold_left stop_update axes false.

(** [0 | (x_bits & 1U) << (dimensions-1-iax) | ...]; [dimensions] is at
    most 3, so the shifts stay inside the 32 bits of [unsigned]. *)
Fixpoint morton_bits (dimensions : nat) (iax : nat) (axes : list (axis_t coord_t)) (acc : Z) : Z :=
  match axes with
  | [] => acc
  | ax :: rest =>
      morton_bits dimensions (S iax) rest
        (Z.lor acc (Z.shiftl (Z.land (axis_bits ax) 1) (Z.of_nat (dimensions - 1 - iax))))
  end.

(** The value that [scan_t_from_particle] stores in [morton_nrs[i]]. *)
Definition level_morton_number (axes : list (axis_t coord_t)) : Z :=
  let level_morton_number := morton_bits (length axes) 0 axes 0 in
  if srcntgts_have_extent && stop_srcntgt_descent axes then -1 else level_morton_number.


(** The reading of the specification: the particle's radius, inflated
    by [(1 + stick_out_factor)/2], reaches over a face of the next level
    child box [center -/+ size/2] on this axis. *)
Definition next_level_box_half_size (ax : axis_t coord_t) : coord_t :=
  c_mul (c_mul one_half (global_extent ax)) next_level_box_size_factor.

Definition inflated_extent_crosses (ax : axis_t coord_t) : bool :=
  let inflated := c_mul srcntgt_radius box_radius_factor in
  c_ge (c_add (srcntgt_coord ax) inflated)
       (c_add (next_level_box_center ax) (next_level_box_half_size ax))
  || c_lt (c_sub (srcntgt_coord ax) inflated)
          (c_sub (next_level_box_center ax) (next_level_box_half_size ax)).

End MortonNumber.

(** Exact arithmetic on rationals as coordinates; the conversion to
    [unsigned] truncates. *)
#[export] Instance Coord_Q : Coord Q := {|
  c_add := Qplus;
  c_sub := Qminus;
  c_mul := Qmult;
  c_div := Qdiv;
  c_of_int := inject_Z;
  c_to_unsigned := fun q => (Z.quot (Qnum q) (Z.pos (Qden q))) mod 2 ^ 32;
  c_ge := fun a b => Qle_bool b a;
  c_lt := fun a b => negb (Qle_bool b a)
|}.

(** A particle at 1/4 with radius 3/8 in the unit interval, level 1,
    stick-out factor 0: all values are binary fractions. *)
Definition quarter_axis : axis_t Q := mk_axis (0 # 1)%Q (1 # 1)%Q (1 # 4)%Q.

(** ** One level of the level loop *)

(** The arguments of the three kernels of a level, as the driver passes
    them to the Morton bin count scan. [morton_nrs] is what
    [scan_t_from_particle] has stored; [nboxes] is the content of the one
    element array of that name. *)
Record level_args : Type := mk_level_args {
  srcntgt_box_ids : list Z;
  morton_nrs : list Z;
  box_start_flags : list Z;
  user_srcntgt_ids : list Z;
  refine_weights : list Z;
  box_srcntgt_starts : list Z;
  box_srcntgt_counts_cumul : list Z;
  box_levels : list Z;
  box_has_children : list Z;
  box_morton_bin_counts : list morton_counts_t;
  nboxes : Z;
  level : Z;
  max_leaf_refine_weight : Z
}.

(** What a lane of split-and-sort stores for a new child box:
    [box_srcntgt_starts], [box_parent_ids], [box_morton_nrs],
    [box_srcntgt_counts_cumul] and [box_levels] at [new_box_id], and
    whether it raises [have_oversize_split_box]. *)
Record child_box_t : Type := mk_child_box {
  new_box_id : Z;
  new_box_start : Z;
  new_box_parent_id : Z;
  new_box_morton_nr : Z;
  new_count : Z;
  new_box_level : Z;
  oversize : bool
}.

(** The stores of one lane of split-and-sort:
    [new_user_srcntgt_ids[tgt_particle_idx]],
    [new_srcntgt_box_ids[tgt_particle_idx]] and the child box record, if
    the lane writes one. *)
Record lane_t : Type := mk_lane {
  tgt_particle_idx : Z;
  new_user_srcntgt_id : Z;
  new_srcntgt_box_id : Z;
  child_box : option child_box_t
}.

Section LevelLoopKernels.

Variables particle_id_bits box_id_bits : positive.
Variables srcntgts_have_extent adaptive : bool.
Variable dimensions : nat.
Variable st : level_args.

Definition nsrcntgts : nat := length (srcntgt_box_ids st).

(** *** The Morton bin count scan *)

(** [input_expr] and [is_segment_start_expr="box_start_flags[i]"] *)
Definition morton_scan_input (i : Z) : bool * scan_t :=
  (negb (rd 0 (box_start_flags st) i =? 0),
   scan_t_of_morton_nr srcntgts_have_extent dimensions
     (rd 0 (morton_nrs st) i)
     (rd 0 (refine_weights st) (rd 0 (user_srcntgt_ids st) i))).

(** [morton_bin_counts[i] = item;] *)
Definition morton_bin_counts : list scan_t :=
  scan_items (scan_t_add particle_id_bits srcntgts_have_extent dimensions)
             (map morton_scan_input (iota nsrcntgts)).

Definition morton_item (i : Z) : scan_t :=
  rd (scan_t_neutral dimensions) morton_bin_counts i.

(** [particle_id_t my_id_in_my_box = -1 + item.nonchild_srcntgts + item.pcnt00 + ...] *)
Definition my_id_in_my_box (item : scan_t) : Z :=
  fold_left (fun acc mnr => wrap particle_id_bits (acc + fld (pcnt item) mnr))
            (mnrs dimensions)
            (if srcntgts_have_extent
             then wrap particle_id_bits (-1 + nonchild_srcntgts item)
             else -1).

(** [if (my_id_in_my_box+1 == box_srcntgt_count) box_morton_bin_counts[current_box_id] = item;] *)
Definition is_last_in_box (i : Z) : bool :=
  wrap particle_id_bits (my_id_in_my_box (morton_item i) + 1)
    =? rd 0 (box_srcntgt_counts_cumul st) (rd 0 (srcntgt_box_ids st) i).

Definition box_morton_bin_counts_writes : list (Z * scan_t) :=
  map (fun i => (rd 0 (srcntgt_box_ids st) i, morton_item i))
      (filter is_last_in_box (iota nsrcntgts)).

Definition box_morton_bin_counts_out : list scan_t :=
  apply_writes (box_morton_bin_counts st) box_morton_bin_counts_writes.

Definition box_counts (box_id : Z) : scan_t :=
  rd (scan_t_neutral dimensions) box_morton_bin_counts_out box_id.

(** *** The split box id scan *)

(** [box_refine_weight = add_sat(box_refine_weight, box_morton_bin_counts[box_id].pwt...)] *)
Definition box_refine_weight (box_id : Z) : Z :=
  fold_left (fun acc mnr => add_sat acc (fld (pwt (box_counts box_id)) mnr))
            (mnrs dimensions) 0.

Definition nonchild_srcntgts_in_box (box_id : Z) : Z :=
  if srcntgts_have_extent then nonchild_srcntgts (box_counts box_id) else 0.

(** The condition under which [count_new_boxes_needed] asks for new boxes. *)
Definition split_test (i box_id : Z) : bool :=
  (i =? rd 0 (box_srcntgt_starts st) box_id)
  && (if srcntgts_have_extent
      then rd 0 (box_levels st) box_id + 1 =? level st
      else true)
  && (if adaptive
      then box_refine_weight box_id >? max_leaf_refine_weight st
      else wrap particle_id_bits
             (rd 0 (box_srcntgt_counts_cumul st) box_id - nonchild_srcntgts_in_box box_id)
           >? 0).

(** [scan_t count_new_boxes_needed(i, box_id, ...)]: the result and the
    store [box_has_children[box_id] = 1], if it happens. *)
Definition count_new_boxes_needed (i box_id : Z) : Z * option (Z * Z) :=
  let result := 0 in
  let result := if i =? 0 then wrap box_id_bits (result + nboxes st) else result in
  if split_test i box_id
  then (wrap box_id_bits (result + 2 ^ Z.of_nat dimensions), Some (box_id, 1))
  else (result, None).

Definition split_scan_input (i : Z) : Z * option (Z * Z) :=
  count_new_boxes_needed i (rd 0 (srcntgt_box_ids st) i).

Definition split_scan_inputs : list Z :=
  map (fun i => fst (split_scan_input i)) (iota nsrcntgts).

(** [split_box_ids[i] = item;] *)
Definition split_box_ids : list Z :=
  scan_items (add_expr box_id_bits) (unsegmented split_scan_inputs).

Definition box_has_children_writes : list (Z * Z) :=
  flat_map (fun i => match snd (split_scan_input i) with
                     | Some w => [w]
                     | None => []
                     end) (iota nsrcntgts).

Definition box_has_children_out : list Z :=
  apply_writes (box_has_children st) box_has_children_writes.

(** [if (i+1 == N) *nboxes = item;] *)
Definition nboxes_out : Z :=
  match nsrcntgts with
  | O => nboxes st
  | S n => rd 0 split_box_ids (Z.of_nat n)
  end.

(** *** Split-and-sort *)

Definition do_split_box (ibox : Z) : bool :=
  negb (rd 0 box_has_children_out ibox =? 0)
  && (if srcntgts_have_extent
      then rd 0 (box_levels st) ibox + 1 =? level st
      else true).

(** The new index of a particle of a box that splits. *)
Definition new_particle_idx (i : Z) : Z :=
  let ibox := rd 0 (srcntgt_box_ids st) i in
  let my_morton_nr := rd 0 (morton_nrs st) i in
  let my_box_morton_bin_counts := box_counts ibox in
  let my_count :=
    get_count srcntgts_have_extent dimensions (morton_item i) my_morton_nr in
  let my_box_start := rd 0 (box_srcntgt_starts st) ibox in
  let tgt_particle_idx :=
    wrap particle_id_bits (wrap particle_id_bits (my_box_start + my_count) - 1) in
  let tgt_particle_idx :=
    if srcntgts_have_extent
    then wrap particle_id_bits
           (tgt_particle_idx
            + (if my_morton_nr >=? 0
               then nonchild_srcntgts my_box_morton_bin_counts else 0))
    else tgt_particle_idx in
  fold_left
    (fun idx mnr =>
       wrap particle_id_bits
         (idx + (if my_morton_nr >? Z.of_nat mnr
                 then fld (pcnt my_box_morton_bin_counts) mnr else 0)))
    (mnrs dimensions) tgt_particle_idx.

(** The new box id of a particle of a box that splits. *)
Definition new_box_id_of (i : Z) : Z :=
  let ibox := rd 0 (srcntgt_box_ids st) i in
  let my_morton_nr := rd 0 (morton_nrs st) i in
  let new_box_id :=
    wrap box_id_bits
      (wrap box_id_bits (rd 0 split_box_ids i - 2 ^ Z.of_nat dimensions) + my_morton_nr) in
  if srcntgts_have_extent && (my_morton_nr =? -1) then ibox else new_box_id.

(** The chain [if (mnr == my_morton_nr && counts.pcnt<mnr> == my_count) ... else if ...]. *)
Definition child_box_of (i : Z) : option child_box_t :=
  let ibox := rd 0 (srcntgt_box_ids st) i in
  let my_morton_nr := rd 0 (morton_nrs st) i in
  let my_box_morton_bin_counts := box_counts ibox in
  let my_count :=
    get_count srcntgts_have_extent dimensions (morton_item i) my_morton_nr in
  let my_box_start := rd 0 (box_srcntgt_starts st) ibox in
  match find (fun mnr => (Z.of_nat mnr =? my_morton_nr)
                         && (fld (pcnt my_box_morton_bin_counts) mnr =? my_count))
             (mnrs dimensions) with
  | Some mnr =>
      Some {| new_box_id := new_box_id_of i;
              new_box_start :=
                fold_left
                  (fun start sub_mnr =>
                     wrap particle_id_bits (start + fld (pcnt my_box_morton_bin_counts) sub_mnr))
                  (seq 0 mnr)
                  (if srcntgts_have_extent
                   then wrap particle_id_bits
                          (my_box_start + nonchild_srcntgts my_box_morton_bin_counts)
                   else my_box_start);
              new_box_parent_id := ibox;
              new_box_morton_nr := my_morton_nr;
              new_count := fld (pcnt my_box_morton_bin_counts) mnr;
              new_box_level := level st;
              oversize := fld (pwt my_box_morton_bin_counts) mnr >? max_leaf_refine_weight st |}
  | None => None
  end.

(** The body of [SPLIT_AND_SORT_KERNEL_TPL] for lane [i]. *)
Definition split_and_sort (i : Z) : lane_t :=
  let ibox := rd 0 (srcntgt_box_ids st) i in
  if do_split_box ibox then
    {| tgt_particle_idx := new_particle_idx i;
       new_user_srcntgt_id := rd 0 (user_srcntgt_ids st) i;
       new_srcntgt_box_id := new_box_id_of i;
       child_box := child_box_of i |}
  else
    {| tgt_particle_idx := i;
       new_user_srcntgt_id := rd 0 (user_srcntgt_ids st) i;
       new_srcntgt_box_id := ibox;
       child_box := None |}.

Definition split_and_sort_lanes : list lane_t :=
  map split_and_sort (iota nsrcntgts).

(** The two particle arrays after the pass. *)
Definition new_user_srcntgt_ids (before : list Z) : list Z :=
  apply_writes before
    (map (fun l => (tgt_particle_idx l, new_user_srcntgt_id l)) split_and_sort_lanes).

Definition new_srcntgt_box_ids (before : list Z) : list Z :=
  apply_writes before
    (map (fun l => (tgt_particle_idx l, new_srcntgt_box_id l)) split_and_sort_lanes).

End LevelLoopKernels.

(** ** Counting particles in an index range *)

(** Number of indices [j] with [a <= j < a + k] and [p j]. *)
Fixpoint count_in (p : Z -> bool) (a : Z) (k : nat) : Z :=
  match k with
  | O => 0
  | S k' => count_in p a k' + (if p (a + Z.of_nat k') then 1 else 0)
  end.

Definition sum_terms (t : nat -> Z) (l : list nat) : Z :=
  fold_right (fun mnr acc => t mnr + acc) 0 l.

(** The order that split-and-sort realizes inside a box: by Morton number
    (-1, the non-child particles, first), then by the old index. *)
Definition sorts_before (key : Z -> Z) (j i : Z) : bool :=
  (key j <? key i) || ((key j =? key i) && (j <? i)).

(** Number of particles of the box [[s, s + n)] that sort before [i]. *)
Definition rank_in_box (key : Z -> Z) (s : Z) (n : nat) (i : Z) : Z :=
  count_in (fun j => sorts_before key j i) s n.

(** ** The state in which the driver starts a level *)

Section WellFormedLevel.

Variables particle_id_bits box_id_bits : positive.
Variable srcntgts_have_extent : bool.
Variable dimensions : nat.
Variable st : level_args.

(** A Morton number is an octant index, or -1 if particles have extent. *)
Definition morton_nr_ok (morton_nr : Z) : bool :=
  ((if srcntgts_have_extent then -1 else 0) <=? morton_nr)
  && (morton_nr <? 2 ^ Z.of_nat dimensions).

(** The boxes that may split on this level: with extents, those of the
    level before. *)
Definition box_is_current (box_id : Z) : bool :=
  if srcntgts_have_extent
  then rd 0 (box_levels st) box_id + 1 =? level st
  else true.

Definition box_range (box_id : Z) : list Z :=
  map (fun k => rd 0 (box_srcntgt_starts st) box_id + Z.of_nat k)
      (seq 0 (Z.to_nat (rd 0 (box_srcntgt_counts_cumul st) box_id))).

(** Particle [i] lies in the range of its box [box_id]; the range holds
    the particles of that box only and is one segment of the scan; the
    box has not split before and its records are allocated. *)
Definition box_ok (box_id i : Z) : bool :=
  let s := rd 0 (box_srcntgt_starts st) box_id in
  let n := rd 0 (box_srcntgt_counts_cumul st) box_id in
  (0 <=? box_id)
  && (box_id <? len (box_morton_bin_counts st))
  && (box_id <? len (box_has_children st))
  && (rd 0 (box_has_children st) box_id =? 0)
  && (0 <=? s) && (s <=? i) && (i <? s + n)
  && (s + n <=? Z.of_nat (nsrcntgts st))
  && forallb (fun j => (rd 0 (srcntgt_box_ids st) j =? box_id)
                       && Bool.eqb (negb (rd 0 (box_start_flags st) j =? 0)) (j =? s))
             (box_range box_id).

Definition particle_ok (i : Z) : bool :=
  morton_nr_ok (rd 0 (morton_nrs st) i)
  && (if box_is_current (rd 0 (srcntgt_box_ids st) i)
      then box_ok (rd 0 (srcntgt_box_ids st) i) i
      else true).

(** The particle count and the box count after the level fit their
    types, the particle arrays have one entry per particle, and every
    particle is as [particle_ok] says. *)
Definition wf_level : bool :=
  (Z.of_nat (nsrcntgts st) <=? max_int particle_id_bits)
  && (0 <=? nboxes st)
  && (nboxes st + 2 ^ Z.of_nat dimensions * Z.of_nat (nsrcntgts st) <=? max_int box_id_bits)
  && (length (morton_nrs st) =? nsrcntgts st)%nat
  && (length (box_start_flags st) =? nsrcntgts st)%nat
  && (length (user_srcntgt_ids st) =? nsrcntgts st)%nat
  && forallb particle_ok (iota (nsrcntgts st)).

End WellFormedLevel.

(** A level to run the kernels on: five particles in the root box, one
    dimension, extents, level 1; three box records are allocated. *)
Definition sample_level : level_args :=
  {| srcntgt_box_ids := [0; 0; 0; 0; 0];
     morton_nrs := [1; 0; -1; 1; 0];
     box_start_flags := [1; 0; 0; 0; 0];
     user_srcntgt_ids := [0; 1; 2; 3; 4];
     refine_weights := [1; 1; 1; 1; 1];
     box_srcntgt_starts := [0; 0; 0];
     box_srcntgt_counts_cumul := [5; 0; 0];
     box_levels := [0; 0; 0];
     box_has_children := [0; 0; 0];
     box_morton_bin_counts := [scan_t_neutral 1; scan_t_neutral 1; scan_t_neutral 1];
     nboxes := 1;
     level := 1;
     max_leaf_refine_weight := 1 |}.


(** The specification's reading of [split_box_ids]: the sum of the
    contributions of the particles before [i]. *)
Definition exclusive_prefix_sum (contributions : list Z) (i : Z) : Z :=
  psum contributions (Z.to_nat i).

(** The level after [sample_level]: the root box keeps its non-child
    particle, its two children hold two particles each and are the
    current boxes of level 2; seven box records are allocated. *)
Definition sample_level_2 : level_args :=
  {| srcntgt_box_ids := [0; 1; 1; 2; 2];
     morton_nrs := [-1; 0; 1; 1; 1];
     box_start_flags := [1; 1; 0; 1; 0];
     user_srcntgt_ids := [2; 1; 4; 0; 3];
     refine_weights := [1; 1; 1; 1; 1];
     box_srcntgt_starts := [0; 1; 3; 0; 0; 0; 0];
     box_srcntgt_counts_cumul := [5; 2; 2; 0; 0; 0; 0];
     box_levels := [0; 1; 1; 0; 0; 0; 0];
     box_has_children := [1; 0; 0; 0; 0; 0; 0];
     box_morton_bin_counts :=
       mk_counts 1 [2; 2] [2; 2] :: repeat (scan_t_neutral 1) 6;
     nboxes := 3;
     level := 2;
     max_leaf_refine_weight := 1 |}.

(** ** Records of the right shape *)

(** A value of [morton_counts_t]: [2^d] count fields of [particle_id_t],
    [2^d] weight fields of [int], and the non-child count if particles
    have extents. *)
Definition scan_t_ok (particle_id_bits : positive) (srcntgts_have_extent : bool)
    (dimensions : nat) (a : scan_t) : Prop :=
  length (pcnt a) = (2 ^ dimensions)%nat
  /\ length (pwt a) = (2 ^ dimensions)%nat
  /\ Forall (in_range particle_id_bits) (pcnt a)
  /\ Forall (in_range 32) (pwt a)
  /\ (if srcntgts_have_extent
      then in_range particle_id_bits (nonchild_srcntgts a)
      else nonchild_srcntgts a = 0).

(** ** Target filtering *)

Section TargetFilterScan.

(** Width of the scan type and of [particle_id_t]. *)
Variables scan_bits particle_id_bits : positive.
Variable tree_order_flags : list Z.

(** [input_expr="tree_order_flags[i] ? 1 : 0"] *)
Definition target_filter_input (i : Z) : Z :=
  if rd 0 tree_order_flags i =? 0 then 0 else 1.

Definition target_filter_N : nat := length tree_order_flags.

Definition target_filter_items : list Z :=
  scan_items (add_expr scan_bits)
    (unsegmented (map target_filter_input (iota target_filter_N))).

Definition target_filter_prev_item (i : Z) : Z := rd 0 (prev_items 0 target_filter_items) i.
Definition target_filter_item (i : Z) : Z := rd 0 target_filter_items i.

(** [filtered_from_unfiltered_target_index[i] = prev_item;] *)
Definition filtered_from_unfiltered_writes : list (Z * Z) :=
  map (fun i => (i, wrap particle_id_bits (target_filter_prev_item i)))
      (iota target_filter_N).

(** [if (item != prev_item) unfiltered_from_filtered_target_index[prev_item] = i;] *)
Definition unfiltered_from_filtered_writes : list (Z * Z) :=
  map (fun i => (target_filter_prev_item i, wrap particle_id_bits i))
      (filter (fun i => negb (target_filter_item i =? target_filter_prev_item i))
              (iota target_filter_N)).

(** [if (i+1 == N) *nfiltered_targets = item;] *)
Definition nfiltered_targets_writes : list (Z * Z) :=
  map (fun i => (0, wrap particle_id_bits (target_filter_item i)))
      (filter (fun i => i + 1 =? Z.of_nat target_filter_N) (iota target_filter_N)).

(** The three output arrays after the scan, from their contents before. *)
Definition tree_order_target_filter_scan
    (filtered_from_unfiltered_target_index unfiltered_from_filtered_target_index
       nfiltered_targets : list Z) : list Z * list Z * list Z :=
  (apply_writes filtered_from_unfiltered_target_index filtered_from_unfiltered_writes,
   apply_writes unfiltered_from_filtered_target_index unfiltered_from_filtered_writes,
   apply_writes nfiltered_targets nfiltered_targets_writes).

End TargetFilterScan.

(** A target that the filter keeps. *)
Definition flagged (tree_order_flags : list Z) (j : Z) : bool :=
  negb (rd 0 tree_order_flags j =? 0).

Section TargetFilterIndex.

Variable particle_id_bits : positive.
Variables box_target_starts box_target_counts_nonchild : list Z.
Variable filtered_from_unfiltered_target_index : list Z.
Variables ntargets nfiltered_targets : Z.

(** [box_target_starts_filtered[i] = filtered_start;] *)
Definition filtered_start_of (i : Z) : Z :=
  let unfiltered_start := rd 0 box_target_starts i in
  rd 0 filtered_from_unfiltered_target_index unfiltered_start.

(** The value stored to [box_target_counts_nonchild_filtered[i]]. *)
Definition filtered_count_of (i : Z) : Z :=
  let unfiltered_start := rd 0 box_target_starts i in
  let unfiltered_count := rd 0 box_target_counts_nonchild i in
  let filtered_start := rd 0 filtered_from_unfiltered_target_index unfiltered_start in
  if unfiltered_count >? 0
  then
    let unfiltered_post_last := wrap particle_id_bits (unfiltered_start + unfiltered_count) in
    let filtered_post_last :=
      if unfiltered_post_last <? ntargets
      then rd 0 filtered_from_unfiltered_target_index unfiltered_post_last
      else nfiltered_targets in
    wrap particle_id_bits (filtered_post_last - filtered_start)
  else 0.

(** One lane per box. *)
Definition tree_order_target_filter_index
    (box_target_starts_filtered box_target_counts_nonchild_filtered : list Z)
    : list Z * list Z :=
  (apply_writes box_target_starts_filtered
     (map (fun i => (i, filtered_start_of i)) (iota (length box_target_starts))),
   apply_writes box_target_counts_nonchild_filtered
     (map (fun i => (i, filtered_count_of i)) (iota (length box_target_starts)))).

End TargetFilterIndex.

(** Flags of six targets in tree order and two boxes over them. *)
Definition filter_sample : list Z := [1; 0; 0; 1; 1; 0].

(** ** Point source linking *)

(** The sum [a[s] + a[s+1] + ... + a[s+c-1]]. *)
Definition range_sum (a : list Z) (s : Z) (c : nat) : Z :=
  sum_terms (fun k => rd 0 a (s + Z.of_nat k)) (seq 0 c).

Section PointSourceLinkingSourceScan.

(** Width of the scan type and of [particle_id_t]. *)
Variables scan_bits particle_id_bits : positive.
Variables point_source_starts user_source_ids : list Z.
(** The size of the scan: the number of sources. *)
Variable nsources : nat.

(** [point_source_starts[user_source_ids[i]+1] - point_source_starts[user_source_ids[i]]] *)
Definition point_source_scan_input (i : Z) : Z :=
  let user_source_id := rd 0 user_source_ids i in
  wrap scan_bits
    (wrap particle_id_bits
       (rd 0 point_source_starts (wrap particle_id_bits (user_source_id + 1))
        - rd 0 point_source_starts user_source_id)).

Definition point_source_scan_items : list Z :=
  scan_items (add_expr scan_bits)
    (unsegmented (map point_source_scan_input (iota nsources))).

Definition point_source_prev_item (i : Z) : Z :=
  rd 0 (prev_items 0 point_source_scan_items) i.
Definition point_source_item (i : Z) : Z := rd 0 point_source_scan_items i.

(** [tree_order_point_source_starts[i] = prev_item;] *)
Definition tree_order_point_source_starts_writes : list (Z * Z) :=
  map (fun i => (i, wrap particle_id_bits (point_source_prev_item i))) (iota nsources).

(** [tree_order_point_source_counts[i] = item - prev_item;] *)
Definition tree_order_point_source_counts_writes : list (Z * Z) :=
  map (fun i => (i, wrap particle_id_bits
                      (wrap scan_bits (point_source_item i - point_source_prev_item i))))
      (iota nsources).

(** [if (i+1 == N) *npoint_sources = item;] *)
Definition npoint_sources_writes : list (Z * Z) :=
  map (fun i => (0, wrap particle_id_bits (point_source_item i)))
      (filter (fun i => i + 1 =? Z.of_nat nsources) (iota nsources)).

Definition point_source_linking_source_scan
    (tree_order_point_source_starts tree_order_point_source_counts npoint_sources : list Z)
    : list Z * list Z * list Z :=
  (apply_writes tree_order_point_source_starts tree_order_point_source_starts_writes,
   apply_writes tree_order_point_source_counts tree_order_point_source_counts_writes,
   apply_writes npoint_sources npoint_sources_writes).

End PointSourceLinkingSourceScan.

Section PointSourceLinkingUserIdScan.

Variables scan_bits particle_id_bits : positive.
Variables source_boundaries user_point_source_ids : list Z.

(** [scan_expr="across_seg_boundary ? b : a + b"] *)
Definition restart_add_expr (a b : Z) (across_seg_boundary : bool) : Z :=
  if across_seg_boundary then b else wrap scan_bits (a + b).

(** [input_expr="user_point_source_ids[i]"] with
    [is_segment_start_expr="source_boundaries[i]"]. *)
Definition user_point_source_id_inputs : list (bool * Z) :=
  map (fun i => (negb (rd 0 source_boundaries i =? 0),
                 wrap scan_bits (rd 0 user_point_source_ids i)))
      (iota (length source_boundaries)).

Definition user_point_source_id_items : list Z :=
  scan_items restart_add_expr user_point_source_id_inputs.

(** [output_statement="user_point_source_ids[i] = item;"]: the scan
    overwrites its own input. *)
Definition user_point_source_id_scan : list Z :=
  apply_writes user_point_source_ids
    (map (fun i => (i, wrap particle_id_bits (rd 0 user_point_source_id_items i)))
         (iota (length source_boundaries))).

End PointSourceLinkingUserIdScan.

Section PointSourceLinkingBoxPointSources.

Variable particle_id_bits : positive.
Variable box_source_starts : list Z.
Variables tree_order_point_source_starts tree_order_point_source_counts : list Z.

(** [box_point_source_starts[ibox] = ps_start;] *)
Definition box_point_source_start_of (ibox : Z) : Z :=
  let s_start := rd 0 box_source_starts ibox in
  rd 0 tree_order_point_source_starts s_start.

(** The body of the loop over [count_type], for one of the two count
    arrays. *)
Definition box_point_source_count_of (box_source_counts : list Z) (ibox : Z) : Z :=
  let s_start := rd 0 box_source_starts ibox in
  let ps_start := rd 0 tree_order_point_source_starts s_start in
  let s_count := rd 0 box_source_counts ibox in
  if s_count =? 0
  then 0
  else
    let last_s_in_box := wrap particle_id_bits (s_start + s_count - 1) in
    let beyond_last_ps_in_box :=
      wrap particle_id_bits
        (rd 0 tree_order_point_source_starts last_s_in_box
         + rd 0 tree_order_point_source_counts last_s_in_box) in
    wrap particle_id_bits (beyond_last_ps_in_box - ps_start).

(** One lane per box, [nboxes] of them. *)
Definition box_point_sources (nboxes : nat)
    (box_source_counts_nonchild box_source_counts_cumul : list Z)
    (box_point_source_starts box_point_source_counts_nonchild
       box_point_source_counts_cumul : list Z) : list Z * list Z * list Z :=
  (apply_writes box_point_source_starts
     (map (fun i => (i, box_point_source_start_of i)) (iota nboxes)),
   apply_writes box_point_source_counts_nonchild
     (map (fun i => (i, box_point_source_count_of box_source_counts_nonchild i))
          (iota nboxes)),
   apply_writes box_point_source_counts_cumul
     (map (fun i => (i, box_point_source_count_of box_source_counts_cumul i))
          (iota nboxes))).

End PointSourceLinkingBoxPointSources.

(** ** Source and target index finding: the id arrays *)

Section SourceAndTargetIndexFinder.

Variable particle_id_bits : positive.
Variables user_srcntgt_ids source_numbers : list Z.
Variable nsources : Z.

(** [particle_id_t target_nr = i - source_nr;] *)
Definition target_nr_of (i : Z) : Z := wrap particle_id_bits (i - rd 0 source_numbers i).

(** [bool is_source = user_srcntgt_id < nsources;] in lane [i]. *)
Definition lane_is_source (i : Z) : bool := is_source nsources (rd 0 user_srcntgt_ids i).

(** [user_source_ids[source_nr] = user_srcntgt_id;] *)
Definition user_source_ids_writes : list (Z * Z) :=
  map (fun i => (rd 0 source_numbers i, rd 0 user_srcntgt_ids i))
      (filter lane_is_source (iota (length user_srcntgt_ids))).

(** [srcntgt_target_ids[target_nr] = user_srcntgt_id;] *)
Definition srcntgt_target_ids_writes : list (Z * Z) :=
  map (fun i => (target_nr_of i, rd 0 user_srcntgt_ids i))
      (filter (fun i => negb (lane_is_source i)) (iota (length user_srcntgt_ids))).

(** [sorted_target_ids[user_target_id] = target_nr;] with
    [user_target_id = user_srcntgt_id - nsources]. *)
Definition sorted_target_ids_writes : list (Z * Z) :=
  map (fun i => (wrap particle_id_bits (rd 0 user_srcntgt_ids i - nsources), target_nr_of i))
      (filter (fun i => negb (lane_is_source i)) (iota (length user_srcntgt_ids))).

(** The three id arrays of [find_source_and_target_indices] after the
    kernel, from their contents before. The walks that fill the per-box
    starts and counts do not touch them. *)
Definition find_source_and_target_ids
    (user_source_ids0 srcntgt_target_ids0 sorted_target_ids0 : list Z)
    : list Z * list Z * list Z :=
  (apply_writes user_source_ids0 user_source_ids_writes,
   apply_writes srcntgt_target_ids0 srcntgt_target_ids_writes,
   apply_writes sorted_target_ids0 sorted_target_ids_writes).

End SourceAndTargetIndexFinder.

(** ** The particle permuter *)

(** [sorted_${ax}[i] = ${ax}[from_ids[i]];] for one axis. *)
Definition permute_srcntgt {A : Type} (d : A) (from_ids : list Z) (ax sorted_ax : list A)
    : list A :=
  apply_writes sorted_ax
    (map (fun i => (i, rd d ax (rd 0 from_ids i))) (iota (length from_ids))).

(** ** Refine weights of a box *)

(** [refine_weights[user_srcntgt_id]] of the particle in lane [i]. *)
Definition refine_weight_of (st : level_args) (i : Z) : Z :=
  rd 0 (refine_weights st) (rd 0 (user_srcntgt_ids st) i).

(** Sum of [w j] over the particles [j] of [[a, a + k)] with [p j]. *)
Fixpoint weight_in (w : Z -> Z) (p : Z -> bool) (a : Z) (k : nat) : Z :=
  match k with
  | O => 0
  | S k' => weight_in w p a k' + (if p (a + Z.of_nat k') then w (a + Z.of_nat k') else 0)
  end.

(** ** Non-child particle counts of the boxes *)

(** [extract_nonchild_srcntgt_count], built only when particles have
    extents; one lane per box record. *)
Definition extract_nonchild_srcntgt_count
    (box_morton_bin_counts : list morton_counts_t) (box_srcntgt_counts_cumul : list Z)
    (highest_possibly_split_box_nr : Z) (box_srcntgt_counts_nonchild : list Z) : list Z :=
  apply_writes box_srcntgt_counts_nonchild
    (map (fun i =>
            (i,
             if i >=? highest_possibly_split_box_nr then 0
             else if rd 0 box_srcntgt_counts_cumul i =? 0 then 0
             else nonchild_srcntgts (rd (scan_t_neutral 0) box_morton_bin_counts i)))
         (iota (length box_morton_bin_counts))).

(** ** Split-and-sort: the box arrays *)

Section SplitAndSortBoxArrays.

Variables particle_id_bits box_id_bits : positive.
Variables srcntgts_have_extent adaptive : bool.
Variable dimensions : nat.
Variable st : level_args.

(** The child box records that the lanes write, in lane order. *)
Definition child_boxes : list child_box_t :=
  flat_map (fun l => match child_box l with
                     | Some cb => [cb]
                     | None => []
                     end)
           (split_and_sort_lanes particle_id_bits box_id_bits srcntgts_have_extent
              adaptive dimensions st).

(** [box_start_flags[new_box_start] = 1;] *)
Definition box_start_flags_out : list Z :=
  apply_writes (box_start_flags st) (map (fun cb => (new_box_start cb, 1)) child_boxes).

(** [box_srcntgt_starts[new_box_id] = new_box_start;] *)
Definition box_srcntgt_starts_out : list Z :=
  apply_writes (box_srcntgt_starts st)
    (map (fun cb => (new_box_id cb, new_box_start cb)) child_boxes).

(** [box_parent_ids[new_box_id] = ibox;] *)
Definition box_parent_ids_out (box_parent_ids : list Z) : list Z :=
  apply_writes box_parent_ids
    (map (fun cb => (new_box_id cb, new_box_parent_id cb)) child_boxes).

(** [box_morton_nrs[new_box_id] = my_morton_nr;] *)
Definition box_morton_nrs_out (box_morton_nrs : list Z) : list Z :=
  apply_writes box_morton_nrs
    (map (fun cb => (new_box_id cb, new_box_morton_nr cb)) child_boxes).

(** [box_srcntgt_counts_cumul[new_box_id] = new_count;] *)
Definition box_srcntgt_counts_cumul_out : list Z :=
  apply_writes (box_srcntgt_counts_cumul st)
    (map (fun cb => (new_box_id cb, new_count cb)) child_boxes).

(** [box_levels[new_box_id] = level;] *)
Definition box_levels_out : list Z :=
  apply_writes (box_levels st)
    (map (fun cb => (new_box_id cb, new_box_level cb)) child_boxes).

(** [if (new_weight > max_leaf_refine_weight) *have_oversize_split_box = 1;] *)
Definition have_oversize_split_box_out (have_oversize_split_box : list Z) : list Z :=
  apply_writes have_oversize_split_box
    (map (fun _ => (0, 1)) (filter oversize child_boxes)).

End SplitAndSortBoxArrays.

(* ================================================================== *)
(** * Properties *)
(* ================================================================== *)

(** ** Machine integers *)

Lemma pow2_pos (n : Z) : 0 <= n -> 0 < 2 ^ n.
Proof. intros; apply Z.pow_pos_nonneg; lia. Qed.

Lemma pow2_split (w : positive) : 2 ^ Z.pos w = 2 * 2 ^ (Z.pos w - 1).
Proof.
  replace (Z.pos w) with (Z.succ (Z.pos w - 1)) at 1 by lia.
  rewrite Z.pow_succ_r by lia. reflexivity.
Qed.

Lemma wrap_small (w : positive) (z : Z) : in_range w z -> wrap w z = z.
Proof.
  unfold in_range, wrap, min_int, max_int. intros H.
  pose proof (pow2_split w). pose proof (pow2_pos (Z.pos w - 1)).
  rewrite Z.mod_small by lia. lia.
Qed.

Lemma wrap_range (w : positive) (z : Z) : in_range w (wrap w z).
Proof.
  unfold in_range, wrap, min_int, max_int.
  pose proof (pow2_split w). pose proof (pow2_pos (Z.pos w - 1)).
  pose proof (Z.mod_pos_bound (z + 2 ^ (Z.pos w - 1)) (2 ^ Z.pos w)). lia.
Qed.

Lemma wrap_add_l (w : positive) (x y : Z) : wrap w (wrap w x + y) = wrap w (x + y).
Proof.
  unfold wrap. f_equal.
  replace ((x + 2 ^ (Z.pos w - 1)) mod 2 ^ Z.pos w - 2 ^ (Z.pos w - 1) + y + 2 ^ (Z.pos w - 1))
    with ((x + 2 ^ (Z.pos w - 1)) mod 2 ^ Z.pos w + y) by lia.
  rewrite Z.add_mod_idemp_l by (pose proof (pow2_pos (Z.pos w)); lia).
  f_equal. lia.
Qed.

Lemma wrap_add_r (w : positive) (x y : Z) : wrap w (x + wrap w y) = wrap w (x + y).
Proof. rewrite (Z.add_comm x), wrap_add_l. f_equal. lia. Qed.

Lemma my_add_sat_nonneg (a b : Z) :
  0 <= a <= INT_MAX -> 0 <= b <= INT_MAX -> my_add_sat a b = Z.min INT_MAX (a + b).
Proof.
  unfold my_add_sat, INT_MAX, max_int. change (2 ^ (32 - 1)) with 2147483648. intros Ha Hb.
  rewrite (wrap_small 64)
    by (unfold in_range, min_int, max_int; change (2 ^ (64 - 1)) with 9223372036854775808; lia).
  rewrite Z.gtb_ltb. destruct (Z.ltb_spec (2147483648 - 1) (a + b)).
  - lia.
  - rewrite wrap_small
      by (unfold in_range, min_int, max_int; change (2 ^ (32 - 1)) with 2147483648; lia).
    lia.
Qed.

Lemma my_add_sat_comm (a b : Z) : my_add_sat a b = my_add_sat b a.
Proof. unfold my_add_sat. rewrite (Z.add_comm a b). reflexivity. Qed.

Lemma my_add_sat_bounds (a b : Z) :
  0 <= a <= INT_MAX -> 0 <= b <= INT_MAX -> 0 <= my_add_sat a b <= INT_MAX.
Proof. intros Ha Hb. rewrite my_add_sat_nonneg by assumption. lia. Qed.

Lemma my_add_sat_assoc (a b c : Z) :
  0 <= a <= INT_MAX -> 0 <= b <= INT_MAX -> 0 <= c <= INT_MAX ->
  my_add_sat (my_add_sat a b) c = my_add_sat a (my_add_sat b c).
Proof.
  intros Ha Hb Hc.
  pose proof (my_add_sat_bounds a b Ha Hb). pose proof (my_add_sat_bounds b c Hb Hc).
  rewrite (my_add_sat_nonneg (my_add_sat a b) c), (my_add_sat_nonneg a (my_add_sat b c))
    by assumption.
  rewrite !my_add_sat_nonneg by assumption. lia.
Qed.

(** ** The scan merge *)

Lemma fld_map_mnrs (f : nat -> Z) (d mnr : nat) :
  In mnr (mnrs d) -> fld (map f (mnrs d)) mnr = f mnr.
Proof.
  unfold mnrs, fld. rewrite in_seq. intros H.
  rewrite (nth_indep _ 0 (f O)) by (rewrite length_map, length_seq; lia).
  rewrite map_nth, seq_nth by lia. reflexivity.
Qed.

Lemma fld_nonneg (l : list Z) (mnr : nat) :
  Forall (fun w => 0 <= w <= INT_MAX) l -> 0 <= fld l mnr <= INT_MAX.
Proof.
  intros H. unfold fld. destruct (Nat.lt_ge_cases mnr (length l)) as [Hlt | Hge].
  - rewrite Forall_forall in H. apply H, nth_In, Hlt.
  - rewrite nth_overflow by assumption. unfold INT_MAX, max_int. simpl. lia.
Qed.

(** C6 (as amended). On records whose weight fields are non-negative,
    which is what refine weights give, the merge of [scan_t_add] away from
    a segment boundary is associative and commutative in every field. *)
Theorem scan_t_add_assoc_comm (w : positive) (ext : bool) (d : nat) (a b c : scan_t) :
  weights_nonneg a -> weights_nonneg b -> weights_nonneg c ->
  scan_t_add w ext d (scan_t_add w ext d a b false) c false
    = scan_t_add w ext d a (scan_t_add w ext d b c false) false
  /\ scan_t_add w ext d a b false = scan_t_add w ext d b a false.
Proof.
  intros Ha Hb Hc. unfold weights_nonneg in *. unfold scan_t_add. simpl. split.
  - f_equal.
    + destruct ext; [| reflexivity].
      rewrite wrap_add_l, wrap_add_r. f_equal. lia.
    + apply map_ext_in. intros mnr Hin. rewrite !fld_map_mnrs by assumption.
      rewrite wrap_add_l, wrap_add_r. f_equal. lia.
    + apply map_ext_in. intros mnr Hin. rewrite !fld_map_mnrs by assumption.
      apply my_add_sat_assoc; apply fld_nonneg; assumption.
  - f_equal.
    + destruct ext; [| reflexivity]. f_equal. lia.
    + apply map_ext. intros mnr. f_equal. lia.
    + apply map_ext. intros mnr. apply my_add_sat_comm.
Qed.

Lemma scan_t_add_assoc_comm_witness :
  scan_t_add 32 true 1 (scan_t_add 32 true 1 sat_a sat_b false) sat_b false
    = scan_t_add 32 true 1 sat_a (scan_t_add 32 true 1 sat_b sat_b false) false
  /\ scan_t_add 32 true 1 sat_a sat_b false = scan_t_add 32 true 1 sat_b sat_a false.
Proof.
  apply (scan_t_add_assoc_comm 32 true 1 sat_a sat_b sat_b);
    unfold weights_nonneg; simpl; repeat constructor; vm_compute; congruence.
Defined.

(** C6 (as stated) fails: a weight that was clipped at [INT_MAX] forgets
    what a later negative weight would take back. *)
Lemma scan_t_add_not_assoc :
  scan_t_add 32 false 1 (scan_t_add 32 false 1 sat_a sat_b false) sat_c false
    <> scan_t_add 32 false 1 sat_a (scan_t_add 32 false 1 sat_b sat_c false) false.
Proof. vm_compute. discriminate. Qed.

(** ** The generated count lookup *)

Lemma int2_app (l : list bool) (b : bool) :
  int2 (l ++ [b]) = 2 * int2 l + (if b then 1 else 0).
Proof. unfold int2. rewrite fold_left_app. reflexivity. Qed.

Lemma int2_app_zeros (l : list bool) (r : nat) :
  int2 (l ++ repeat false r) = int2 l * 2 ^ Z.of_nat r.
Proof.
  revert l. induction r as [| r IH]; intros l.
  - simpl. rewrite app_nil_r. lia.
  - change (repeat false (S r)) with ([false] ++ repeat false r).
    rewrite app_assoc, IH, int2_app, Nat2Z.inj_succ, Z.pow_succ_r by lia. lia.
Qed.

Lemma get_count_for_branch_selects (rest : nat) :
  forall (known_bits : list bool) (counts : morton_counts_t) (morton_nr : Z),
    int2 known_bits * 2 ^ Z.of_nat rest <= morton_nr
      < (int2 known_bits + 1) * 2 ^ Z.of_nat rest ->
    eval_count_expr (get_count_for_branch rest known_bits) counts morton_nr
      = fld (pcnt counts) (Z.to_nat morton_nr).
Proof.
  induction rest as [| rest IH]; intros known_bits counts morton_nr H.
  - simpl in *. replace morton_nr with (int2 known_bits) by lia. reflexivity.
  - cbn [get_count_for_branch eval_count_expr].
    rewrite Nat2Z.inj_succ, Z.pow_succ_r in H by lia.
    rewrite app_assoc, int2_app_zeros, int2_app.
    destruct (Z.ltb_spec morton_nr ((2 * int2 known_bits + 1) * 2 ^ Z.of_nat rest)).
    + apply IH. rewrite int2_app. lia.
    + apply IH. rewrite int2_app. lia.
Qed.

(** C10. The nested conditionals of [get_count] select the field of the
    Morton number they are given, and, with extents, the non-child count
    for Morton number -1. *)
Theorem get_count_is_field_selection (ext : bool) (d : nat) (c : morton_counts_t) :
  (forall m : Z, 0 <= m < 2 ^ Z.of_nat d ->
     get_count ext d c m = fld (pcnt c) (Z.to_nat m))
  /\ get_count true d c (-1) = nonchild_srcntgts c.
Proof.
  split.
  - intros m Hm. unfold get_count.
    replace (ext && (m =? -1)) with false
      by (destruct ext; simpl; [symmetry; apply Z.eqb_neq; lia | reflexivity]).
    apply get_count_for_branch_selects. change (int2 []) with 0. lia.
  - reflexivity.
Qed.

Lemma get_count_is_field_selection_witness :
  get_count true 2 (mk_counts 9 [5; 6; 7; 8] [0; 0; 0; 0]) 2 = 7
  /\ get_count true 2 (mk_counts 9 [5; 6; 7; 8] [0; 0; 0; 0]) (-1) = 9.
Proof.
  destruct (get_count_is_field_selection true 2 (mk_counts 9 [5; 6; 7; 8] [0; 0; 0; 0]))
    as [Hsel Hnon].
  split; [rewrite Hsel by (simpl; lia); reflexivity | exact Hnon].
Defined.

(** ** Arrays *)

Lemma length_upd_nat {A : Type} (l : list A) (n : nat) (v : A) :
  length (upd_nat l n v) = length l.
Proof.
  revert n. induction l as [| h t IH]; intros [| k]; simpl; auto.
Qed.

Lemma nth_upd_nat_same {A : Type} (d : A) (l : list A) (n : nat) (v : A) :
  (n < length l)%nat -> nth n (upd_nat l n v) d = v.
Proof.
  revert n. induction l as [| h t IH]; intros [| k] H; simpl in *; try lia; auto.
  apply IH. lia.
Qed.

Lemma nth_upd_nat_other {A : Type} (d : A) (l : list A) (n m : nat) (v : A) :
  n <> m -> nth m (upd_nat l n v) d = nth m l d.
Proof.
  revert n m. induction l as [| h t IH]; intros [| k] [| m] H; simpl; auto; try lia.
Qed.

Lemma length_wr {A : Type} (l : list A) (i : Z) (v : A) : length (wr l i v) = length l.
Proof. unfold wr. destruct (i <? 0); [reflexivity | apply length_upd_nat]. Qed.

Lemma rd_wr_same {A : Type} (d : A) (l : list A) (i : Z) (v : A) :
  0 <= i < len l -> rd d (wr l i v) i = v.
Proof.
  unfold rd, wr, len. intros H. destruct (Z.ltb_spec i 0); [lia |].
  apply nth_upd_nat_same. lia.
Qed.

Lemma rd_wr_other {A : Type} (d : A) (l : list A) (i j : Z) (v : A) :
  i <> j -> rd d (wr l i v) j = rd d l j.
Proof.
  unfold rd, wr. intros H.
  destruct (Z.ltb_spec j 0); [reflexivity |].
  destruct (Z.ltb_spec i 0); [reflexivity |].
  apply nth_upd_nat_other. lia.
Qed.

Lemma length_apply_writes {A : Type} (ws : list (Z * A)) (arr : list A) :
  length (apply_writes arr ws) = length arr.
Proof.
  unfold apply_writes. revert arr. induction ws as [| w ws IH]; intros arr; simpl.
  - reflexivity.
  - rewrite IH. apply length_wr.
Qed.

Lemma apply_writes_app {A : Type} (arr : list A) (ws1 ws2 : list (Z * A)) :
  apply_writes arr (ws1 ++ ws2) = apply_writes (apply_writes arr ws1) ws2.
Proof. unfold apply_writes. apply fold_left_app. Qed.

(** A slot that no lane writes keeps its content. *)
Lemma apply_writes_untouched {A : Type} (d : A) (ws : list (Z * A)) (arr : list A) (k : Z) :
  ~ In k (map fst ws) -> rd d (apply_writes arr ws) k = rd d arr k.
Proof.
  unfold apply_writes. revert arr. induction ws as [| w ws IH]; intros arr H; simpl in *.
  - reflexivity.
  - rewrite IH by tauto. apply rd_wr_other. intros E. apply H. left. exact E.
Qed.

(** A slot that exactly one lane writes holds what that lane stored. *)
Lemma apply_writes_written {A : Type} (d : A) (ws : list (Z * A)) (arr : list A) (k : Z) (v : A) :
  NoDup (map fst ws) -> In (k, v) ws -> 0 <= k < len arr ->
  rd d (apply_writes arr ws) k = v.
Proof.
  revert arr. induction ws as [| w ws IH]; intros arr Hnd Hin Hk; simpl in *.
  - contradiction.
  - inversion Hnd as [| ? ? Hnotin Hnd']; subst.
    destruct Hin as [-> | Hin].
    + change (rd d (apply_writes (wr arr (fst (k, v)) (snd (k, v))) ws) k = v).
      rewrite apply_writes_untouched by exact Hnotin.
      apply rd_wr_same. exact Hk.
    + change (rd d (apply_writes (wr arr (fst w) (snd w)) ws) k = v).
      apply IH; try assumption. unfold len in *. rewrite length_wr. exact Hk.
Qed.

Lemma length_iota (n : nat) : length (iota n) = n.
Proof. unfold iota. rewrite length_map, length_seq. reflexivity. Qed.

Lemma iota_S (n : nat) : iota (S n) = iota n ++ [Z.of_nat n].
Proof. unfold iota. rewrite seq_S, map_app. reflexivity. Qed.

Lemma in_iota (n : nat) (i : Z) : In i (iota n) <-> 0 <= i < Z.of_nat n.
Proof.
  unfold iota. rewrite in_map_iff. split.
  - intros [k [<- Hk]]. apply in_seq in Hk. lia.
  - intros H. exists (Z.to_nat i). split; [lia | apply in_seq; lia].
Qed.

Lemma NoDup_iota (n : nat) : NoDup (iota n).
Proof.
  unfold iota. apply Finite.Injective_map_NoDup; [| apply seq_NoDup].
  intros x y. apply Nat2Z.inj.
Qed.

Lemma rd_nat {A : Type} (d : A) (l : list A) (k : nat) : rd d l (Z.of_nat k) = nth k l d.
Proof.
  unfold rd. destruct (Z.ltb_spec (Z.of_nat k) 0); [lia |].
  rewrite Nat2Z.id. reflexivity.
Qed.

Lemma rd_map_seq {A : Type} (d : A) (f : nat -> A) (n k : nat) :
  (k < n)%nat -> rd d (map f (seq 0 n)) (Z.of_nat k) = f k.
Proof.
  intros H. rewrite rd_nat.
  rewrite (nth_indep _ d (f O)) by (rewrite length_map, length_seq; lia).
  rewrite map_nth, seq_nth by lia. reflexivity.
Qed.

Lemma map_rd_iota {A : Type} (d : A) (l : list A) : map (rd d l) (iota (length l)) = l.
Proof.
  unfold iota. rewrite map_map.
  apply nth_ext with (d := rd d l (Z.of_nat 0)) (d' := d).
  - rewrite length_map, length_seq. reflexivity.
  - intros n Hn. rewrite length_map, length_seq in Hn.
    rewrite (map_nth (fun x => rd d l (Z.of_nat x))), seq_nth by lia.
    apply rd_nat.
Qed.

(** ** Unsegmented sums *)

Lemma psum_S (x : Z) (xs : list Z) (k : nat) : psum (x :: xs) (S k) = x + psum xs k.
Proof. reflexivity. Qed.

Lemma scan_from_add (w : positive) (xs : list Z) :
  forall prev : Z,
    (forall k, (k <= length xs)%nat -> in_range w (prev + psum xs k)) ->
    scan_from (add_expr w) prev (unsegmented xs)
      = map (fun k => prev + psum xs (S k)) (seq 0 (length xs)).
Proof.
  induction xs as [| x xs IH]; intros prev H.
  - reflexivity.
  - cbn [unsegmented map scan_from length seq].
    change (add_expr w prev x false) with (wrap w (prev + x)).
    assert (Hx : in_range w (prev + x)).
    { specialize (H 1%nat). rewrite psum_S in H. unfold psum in H. simpl in H.
      replace (prev + x) with (prev + (x + 0)) by lia. apply H. simpl. lia. }
    rewrite !wrap_small by exact Hx. f_equal.
    + rewrite psum_S. unfold psum. simpl. lia.
    + fold (unsegmented xs). rewrite IH.
      * rewrite <- seq_shift, map_map. apply map_ext. intros k.
        rewrite (psum_S x xs (S k)). lia.
      * intros k Hk. specialize (H (S k)). rewrite psum_S in H.
        replace (prev + x + psum xs k) with (prev + (x + psum xs k)) by lia.
        apply H. simpl. lia.
Qed.

(** Without overflow the items of a sum scan are the inclusive prefix sums. *)
Lemma scan_items_add (w : positive) (xs : list Z) :
  (forall k, (k <= length xs)%nat -> in_range w (psum xs k)) ->
  scan_items (add_expr w) (unsegmented xs)
    = map (fun k => psum xs (S k)) (seq 0 (length xs)).
Proof.
  intros H. destruct xs as [| x xs]; [reflexivity |].
  cbn [unsegmented map scan_items length seq]. fold (unsegmented xs). f_equal.
  - rewrite psum_S. unfold psum. simpl. lia.
  - rewrite scan_from_add.
    + rewrite <- seq_shift, map_map. apply map_ext. intros k.
      rewrite (psum_S x xs (S k)). reflexivity.
    + intros k Hk. rewrite <- psum_S. apply H. simpl. lia.
Qed.

Lemma length_scan_from {T : Type} (f : T -> T -> bool -> T) (inputs : list (bool * T)) :
  forall prev, length (scan_from f prev inputs) = length inputs.
Proof.
  induction inputs as [| [s x] r IH]; intros prev; simpl; [reflexivity | now rewrite IH].
Qed.

Lemma length_scan_items {T : Type} (f : T -> T -> bool -> T) (inputs : list (bool * T)) :
  length (scan_items f inputs) = length inputs.
Proof.
  destruct inputs as [| [s x] r]; simpl; [reflexivity | now rewrite length_scan_from].
Qed.

(** ... and the values [prev_item] are the exclusive ones. *)
Lemma prev_items_add (w : positive) (xs : list Z) :
  (forall k, (k <= length xs)%nat -> in_range w (psum xs k)) ->
  prev_items 0 (scan_items (add_expr w) (unsegmented xs))
    = map (fun k => psum xs k) (seq 0 (length xs)).
Proof.
  intros H. unfold prev_items. rewrite scan_items_add by exact H.
  rewrite length_map, length_seq.
  replace (0 :: map (fun k => psum xs (S k)) (seq 0 (length xs)))
    with (map (fun k => psum xs k) (seq 0 (S (length xs))))
    by (cbn [seq map]; rewrite <- seq_shift, map_map; reflexivity).
  rewrite seq_S, map_app, firstn_app.
  rewrite length_map, length_seq, Nat.sub_diag. simpl firstn at 2.
  rewrite app_nil_r. apply firstn_all2. rewrite length_map, length_seq. lia.
Qed.

Lemma psum_indicator (p : Z -> bool) (l : list Z) (k : nat) :
  psum (map (indicator p) l) k = len (filter p (firstn k l)).
Proof.
  unfold psum, len. rewrite firstn_map.
  revert k. induction l as [| x l IH]; intros [| k]; simpl; try reflexivity.
  rewrite IH. unfold indicator. destruct (p x); simpl length; lia.
Qed.

Lemma filter_len_le {A : Type} (p : A -> bool) (l : list A) :
  0 <= len (filter p l) <= len l.
Proof.
  unfold len. pose proof (filter_length_le p l). lia.
Qed.

Lemma psum_indicator_range (w : positive) (p : Z -> bool) (l : list Z) (k : nat) :
  len l <= max_int w -> in_range w (psum (map (indicator p) l) k).
Proof.
  intros H. rewrite psum_indicator.
  pose proof (filter_len_le p (firstn k l)) as Hf.
  assert (len (firstn k l) <= len l).
  { unfold len. rewrite length_firstn. lia. }
  unfold in_range, min_int, max_int in *.
  pose proof (pow2_pos (Z.pos w - 1)). lia.
Qed.

(** ** The source counter *)

Lemma map_fst_keyed {A : Type} (f : Z -> A) (l : list Z) :
  map fst (map (fun i => (i, f i)) l) = l.
Proof. rewrite map_map. simpl. apply map_id. Qed.

Lemma source_counter_prev_items (bb : positive) (ids : list Z) (ns : Z) (i : nat) :
  len ids <= max_int bb -> (i < length ids)%nat ->
  rd 0 (prev_items 0 (source_counter_items bb ids ns)) (Z.of_nat i)
    = sources_among_first ids ns i.
Proof.
  intros Hbb Hi. unfold source_counter_items.
  change (source_counter_input ns) with (indicator (is_source ns)).
  rewrite prev_items_add by (intros k _; apply psum_indicator_range; exact Hbb).
  rewrite length_map, rd_map_seq by exact Hi.
  apply psum_indicator.
Qed.

(** C8 (as amended). [source_numbers[i]] is the number of sources strictly
    before position [i] in tree order. *)
Theorem source_counter_counts_sources_before
    (bb pb : positive) (ids : list Z) (ns : Z) (source_numbers : list Z) (i : nat) :
  length source_numbers = length ids ->
  len ids <= max_int bb -> len ids <= max_int pb ->
  (i < length ids)%nat ->
  rd 0 (source_counter bb pb ids ns source_numbers) (Z.of_nat i) = sources_before ids ns i.
Proof.
  intros Hlen Hbb Hpb Hi. unfold source_counter, sources_before.
  erewrite apply_writes_written.
  - reflexivity.
  - rewrite map_fst_keyed. apply NoDup_iota.
  - apply in_map_iff. exists (Z.of_nat i). split.
    + rewrite source_counter_prev_items by assumption.
      rewrite wrap_small; [reflexivity |].
      pose proof (filter_len_le (is_source ns) (firstn i ids)) as Hf.
      assert (len (firstn i ids) <= len ids) by (unfold len; rewrite length_firstn; lia).
      unfold sources_among_first, in_range, min_int, max_int in *.
      pose proof (pow2_pos (Z.pos pb - 1)). lia.
    + apply in_iota. lia.
  - unfold len. lia.
Qed.

Lemma source_counter_counts_sources_before_witness :
  rd 0 (source_counter 32 32 [3; 0; 4; 1] 2 [0; 0; 0; 0]) (Z.of_nat 3)
    = sources_before [3; 0; 4; 1] 2 3.
Proof.
  apply (source_counter_counts_sources_before 32 32 [3; 0; 4; 1] 2 [0; 0; 0; 0] 3);
    vm_compute; first [reflexivity | congruence | lia].
Defined.

(** C8 (as stated) fails: the first particle, a source, gets rank 0, while
    one source lies at or before it. *)
Lemma source_counter_not_inclusive :
  rd 0 (source_counter 32 32 [0] 1 [0]) 0 <> sources_at_or_before [0] 1 0.
Proof. vm_compute. discriminate. Qed.

(** ** The empty box pruner *)

Lemma filter_negb_len {A : Type} (p : A -> bool) (l : list A) :
  len (filter p l) + len (filter (fun x => negb (p x)) l) = len l.
Proof.
  unfold len. induction l as [| x l IH]; [reflexivity |].
  cbn [filter]. destruct (p x); cbn [negb length]; lia.
Qed.

Lemma prune_inputs (cs : list Z) :
  map (prune_input cs) (iota (prune_N cs)) = map (indicator (fun c => c =? 0)) cs.
Proof.
  unfold prune_N. rewrite <- (map_rd_iota 0 cs) at 3. rewrite map_map. reflexivity.
Qed.

Lemma prune_prev_item_eq (bb : positive) (cs : list Z) (i : nat) :
  len cs <= max_int bb -> (i < length cs)%nat ->
  prune_prev_item bb cs (Z.of_nat i) = len (filter (fun c => c =? 0) (firstn i cs)).
Proof.
  intros Hbb Hi. unfold prune_prev_item, prune_items. rewrite prune_inputs.
  rewrite prev_items_add by (intros k _; apply psum_indicator_range; exact Hbb).
  rewrite length_map, rd_map_seq by exact Hi. apply psum_indicator.
Qed.

Lemma prune_item_eq (bb : positive) (cs : list Z) (i : nat) :
  len cs <= max_int bb -> (i < length cs)%nat ->
  prune_item bb cs (Z.of_nat i) = len (filter (fun c => c =? 0) (firstn (S i) cs)).
Proof.
  intros Hbb Hi. unfold prune_item, prune_items. rewrite prune_inputs.
  rewrite scan_items_add by (intros k _; apply psum_indicator_range; exact Hbb).
  rewrite length_map, rd_map_seq by exact Hi. apply psum_indicator.
Qed.

Lemma survivors_before_bounds (cs : list Z) (i : nat) :
  (i <= length cs)%nat -> 0 <= survivors_before cs i <= Z.of_nat i.
Proof.
  intros Hi. unfold survivors_before.
  pose proof (filter_len_le (fun c => negb (c =? 0)) (firstn i cs)) as H.
  unfold len in *. rewrite length_firstn in H. lia.
Qed.

(** The new id of box [i]: its index less the empty boxes before it. *)
Lemma prune_new_id (bb : positive) (cs : list Z) (i : nat) :
  len cs <= max_int bb -> (i < length cs)%nat ->
  wrap bb (Z.of_nat i - prune_prev_item bb cs (Z.of_nat i)) = survivors_before cs i.
Proof.
  intros Hbb Hi. rewrite prune_prev_item_eq by assumption.
  pose proof (filter_negb_len (fun c => c =? 0) (firstn i cs)) as Hsplit.
  pose proof (survivors_before_bounds cs i ltac:(lia)) as Hb.
  unfold survivors_before in *.
  assert (Hl : len (firstn i cs) = Z.of_nat i) by (unfold len; rewrite length_firstn; lia).
  rewrite wrap_small.
  - lia.
  - unfold in_range, min_int, max_int, len in *.
    pose proof (pow2_pos (Z.pos bb - 1)). lia.
Qed.

Lemma survivors_before_app (cs : list Z) (c : Z) (i : nat) :
  (i <= length cs)%nat -> survivors_before (cs ++ [c]) i = survivors_before cs i.
Proof.
  intros Hi. unfold survivors_before. rewrite firstn_app.
  replace (i - length cs)%nat with 0%nat by lia. simpl. rewrite app_nil_r. reflexivity.
Qed.

(** The surviving boxes, in order, get the new ids 0, 1, 2, ... *)
Lemma survivors_enumerated (cs : list Z) :
  map (fun i => survivors_before cs (Z.to_nat i))
      (filter (fun i => negb (rd 0 cs i =? 0)) (iota (length cs)))
    = iota (length (filter (fun c => negb (c =? 0)) cs)).
Proof.
  induction cs as [| c cs IH] using rev_ind; [reflexivity |].
  rewrite length_app, Nat.add_1_r, iota_S, !filter_app, map_app.
  rewrite length_app.
  assert (Hfront :
    map (fun i => survivors_before (cs ++ [c]) (Z.to_nat i))
        (filter (fun i => negb (rd 0 (cs ++ [c]) i =? 0)) (iota (length cs)))
    = iota (length (filter (fun c0 => negb (c0 =? 0)) cs))).
  { rewrite <- IH.
    rewrite (filter_ext_in (fun i => negb (rd 0 (cs ++ [c]) i =? 0))
                           (fun i => negb (rd 0 cs i =? 0))).
    - apply map_ext_in. intros i Hin. apply filter_In in Hin. destruct Hin as [Hin _].
      apply in_iota in Hin. apply survivors_before_app. lia.
    - intros i Hin. apply in_iota in Hin.
      replace i with (Z.of_nat (Z.to_nat i)) by lia.
      rewrite !rd_nat, app_nth1 by lia. reflexivity. }
  rewrite Hfront. cbn [filter].
  rewrite rd_nat, nth_middle.
  destruct (c =? 0); simpl.
  - rewrite !app_nil_r, Nat.add_0_r. reflexivity.
  - rewrite Nat.add_1_r, iota_S. f_equal. f_equal.
    rewrite Nat2Z.id. unfold survivors_before.
    rewrite firstn_app, Nat.sub_diag, firstn_all. simpl. rewrite app_nil_r. reflexivity.
Qed.

Lemma from_box_id_writes_eq (bb : positive) (cs : list Z) :
  len cs <= max_int bb ->
  from_box_id_writes bb cs
    = map (fun i => (survivors_before cs (Z.to_nat i), i))
          (filter (fun i => negb (rd 0 cs i =? 0)) (iota (length cs))).
Proof.
  intros Hbb. unfold from_box_id_writes, prune_N. apply map_ext_in.
  intros i Hin. apply filter_In in Hin. destruct Hin as [Hin _]. apply in_iota in Hin.
  f_equal. replace i with (Z.of_nat (Z.to_nat i)) at 1 2 by lia.
  apply prune_new_id; [exact Hbb | lia].
Qed.

Lemma to_box_id_after (bb : positive) (cs to0 : list Z) (i : nat) :
  len cs <= max_int bb -> (length cs <= length to0)%nat -> (i < length cs)%nat ->
  rd 0 (apply_writes to0 (to_box_id_writes bb cs)) (Z.of_nat i) = survivors_before cs i.
Proof.
  intros Hbb Hlen Hi. unfold to_box_id_writes.
  erewrite apply_writes_written.
  - reflexivity.
  - rewrite map_fst_keyed. apply NoDup_iota.
  - apply in_map_iff. exists (Z.of_nat i). split.
    + rewrite prune_new_id by assumption. reflexivity.
    + apply in_iota. unfold prune_N. lia.
  - unfold len. lia.
Qed.

Lemma from_box_id_after (bb : positive) (cs from0 : list Z) (i : nat) :
  len cs <= max_int bb -> (length cs <= length from0)%nat -> (i < length cs)%nat ->
  nth i cs 0 <> 0 ->
  rd 0 (apply_writes from0 (from_box_id_writes bb cs)) (survivors_before cs i) = Z.of_nat i.
Proof.
  intros Hbb Hlen Hi Hne. rewrite from_box_id_writes_eq by exact Hbb.
  apply apply_writes_written.
  - rewrite map_map. cbn [fst]. rewrite survivors_enumerated. apply NoDup_iota.
  - apply in_map_iff. exists (Z.of_nat i). split.
    + rewrite Nat2Z.id. reflexivity.
    + apply filter_In. split.
      * apply in_iota. lia.
      * rewrite rd_nat. apply negb_true_iff, Z.eqb_neq. exact Hne.
  - pose proof (survivors_before_bounds cs i ltac:(lia)). unfold len. lia.
Qed.

Lemma filter_none {A : Type} (p : A -> bool) (l : list A) :
  (forall x, In x l -> p x = false) -> filter p l = [].
Proof.
  induction l as [| x l IH]; intros H; [reflexivity |].
  cbn [filter]. rewrite (H x) by (left; reflexivity).
  apply IH. intros y Hy. apply H. right. exact Hy.
Qed.

(** Only the last lane of a scan sees [i+1 == N]. *)
Lemma last_lane_only (n : nat) :
  filter (fun i => i + 1 =? Z.of_nat (S n)) (iota (S n)) = [Z.of_nat n].
Proof.
  rewrite iota_S, filter_app, filter_none.
  - cbn [filter app]. replace (Z.of_nat n + 1 =? Z.of_nat (S n)) with true; [reflexivity |].
    symmetry. apply Z.eqb_eq. lia.
  - intros i Hi. apply in_iota in Hi. apply Z.eqb_neq. lia.
Qed.

Lemma nboxes_post_prune_after (bb : positive) (cs np0 : list Z) :
  (0 < length cs)%nat -> len cs <= max_int bb -> (0 < length np0)%nat ->
  rd 0 (apply_writes np0 (nboxes_post_prune_writes bb cs)) 0 = len cs - count_empty cs.
Proof.
  intros Hpos Hbb Hnp. unfold nboxes_post_prune_writes, prune_N.
  destruct (length cs) as [| n] eqn:En; [lia |].
  rewrite last_lane_only. cbn [map apply_writes fold_left fst snd].
  rewrite rd_wr_same by (unfold len; lia).
  rewrite prune_item_eq by (rewrite ?En; unfold len in *; lia).
  rewrite <- En, firstn_all. unfold count_empty.
  pose proof (filter_len_le (fun c => c =? 0) cs) as Hf.
  rewrite wrap_small; [unfold len; lia |].
  unfold in_range, min_int, max_int, len in *.
  pose proof (pow2_pos (Z.pos bb - 1)). lia.
Qed.

Lemma count_survivors (cs : list Z) :
  len cs - count_empty cs = len (filter (fun c => negb (c =? 0)) cs).
Proof.
  unfold count_empty. pose proof (filter_negb_len (fun c => c =? 0) cs) as H.
  cbn beta in H. lia.
Qed.

(** C7. After the pruning scan, [from_box_id] undoes [to_box_id] on the
    boxes that hold particles, [to_box_id] undoes [from_box_id] below the
    new box count, the new box count is the old one less the empty boxes,
    and box 0 keeps the id 0. *)
Theorem find_prune_indices_inverse_maps
    (bb : positive) (box_srcntgt_counts_cumul to0 from0 np0 : list Z)
    (to_box_id from_box_id nboxes_post_prune : list Z) :
  find_prune_indices bb box_srcntgt_counts_cumul to0 from0 np0
    = (to_box_id, from_box_id, nboxes_post_prune) ->
  (0 < length box_srcntgt_counts_cumul)%nat ->
  len box_srcntgt_counts_cumul <= max_int bb ->
  (length box_srcntgt_counts_cumul <= length to0)%nat ->
  (length box_srcntgt_counts_cumul <= length from0)%nat ->
  (0 < length np0)%nat ->
  (forall i, 0 <= i < len box_srcntgt_counts_cumul ->
     rd 0 box_srcntgt_counts_cumul i <> 0 ->
     rd 0 from_box_id (rd 0 to_box_id i) = i)
  /\ (forall j, 0 <= j < rd 0 nboxes_post_prune 0 ->
        rd 0 to_box_id (rd 0 from_box_id j) = j)
  /\ rd 0 nboxes_post_prune 0
       = len box_srcntgt_counts_cumul - count_empty box_srcntgt_counts_cumul
  /\ rd 0 to_box_id 0 = 0.
Proof.
  set (cs := box_srcntgt_counts_cumul).
  intros Hrun Hpos Hbb Hto Hfrom Hnp.
  unfold find_prune_indices in Hrun. injection Hrun as <- <- <-.
  assert (Hleft : forall i : nat, (i < length cs)%nat -> nth i cs 0 <> 0 ->
            rd 0 (apply_writes from0 (from_box_id_writes bb cs))
               (rd 0 (apply_writes to0 (to_box_id_writes bb cs)) (Z.of_nat i)) = Z.of_nat i).
  { intros i Hi Hne. rewrite to_box_id_after by assumption.
    apply from_box_id_after; assumption. }
  repeat split.
  - intros i Hi Hne. replace i with (Z.of_nat (Z.to_nat i)) in * by lia.
    rewrite rd_nat in Hne. apply Hleft; [unfold len in Hi; lia | exact Hne].
  - intros j Hj. rewrite nboxes_post_prune_after, count_survivors in Hj by assumption.
    pose proof (survivors_enumerated cs) as Henum.
    set (L := filter (fun i => negb (rd 0 cs i =? 0)) (iota (length cs))) in *.
    assert (HlenL : length L = length (filter (fun c => negb (c =? 0)) cs)).
    { rewrite <- (length_iota (length (filter _ cs))), <- Henum, length_map. reflexivity. }
    unfold len in Hj.
    assert (Hin : In (nth (Z.to_nat j) L 0) L) by (apply nth_In; lia).
    apply filter_In in Hin. destruct Hin as [Hrange Hne]. apply in_iota in Hrange.
    assert (Hj' : survivors_before cs (Z.to_nat (nth (Z.to_nat j) L 0)) = j).
    { pose proof (f_equal (fun l => nth (Z.to_nat j) l 0) Henum) as Hnth. cbn beta in Hnth.
      rewrite (nth_indep _ 0 (survivors_before cs (Z.to_nat 0))) in Hnth
        by (rewrite length_map; lia).
      rewrite (map_nth (fun i => survivors_before cs (Z.to_nat i))) in Hnth.
      rewrite Hnth. unfold iota.
      rewrite (nth_indep _ 0 (Z.of_nat 0)) by (rewrite length_map, length_seq; lia).
      rewrite map_nth, seq_nth by lia. lia. }
    set (i := nth (Z.to_nat j) L 0) in *.
    apply negb_true_iff, Z.eqb_neq in Hne.
    replace i with (Z.of_nat (Z.to_nat i)) in Hne by lia. rewrite rd_nat in Hne.
    rewrite <- Hj' at 1.
    rewrite from_box_id_after by (try assumption; lia).
    rewrite to_box_id_after by (try assumption; lia). exact Hj'.
  - apply nboxes_post_prune_after; assumption.
  - change 0 with (Z.of_nat 0) at 2. rewrite to_box_id_after by assumption. reflexivity.
Qed.

Lemma find_prune_indices_inverse_maps_witness :
  let '(to_box_id, from_box_id, nboxes_post_prune) :=
    find_prune_indices 32 prune_sample [9; 9; 9; 9; 9] [9; 9; 9; 9; 9] [9] in
  rd 0 from_box_id (rd 0 to_box_id 4) = 4
  /\ rd 0 to_box_id (rd 0 from_box_id 1) = 1
  /\ rd 0 nboxes_post_prune 0 = 3
  /\ rd 0 to_box_id 0 = 0.
Proof.
  destruct (find_prune_indices 32 prune_sample [9; 9; 9; 9; 9] [9; 9; 9; 9; 9] [9])
    as [[to_box_id from_box_id] nboxes_post_prune] eqn:Hrun.
  assert (H32 : len prune_sample <= max_int 32) by (vm_compute; congruence).
  destruct (find_prune_indices_inverse_maps 32 prune_sample
              [9; 9; 9; 9; 9] [9; 9; 9; 9; 9] [9] to_box_id from_box_id nboxes_post_prune
              Hrun ltac:(simpl; lia) H32 ltac:(simpl; lia) ltac:(simpl; lia) ltac:(simpl; lia))
    as [Hft [Htf [Hnp Hroot]]].
  split; [| split; [| split]].
  - apply Hft; vm_compute; [split |]; congruence.
  - apply Htf. rewrite Hnp. vm_compute. split; congruence.
  - rewrite Hnp. reflexivity.
  - exact Hroot.
Defined.

(** ** Reordering between user order and tree order *)

Lemma np_take_in_range {A : Type} (a : list A) (idx : list Z) :
  (forall k, In k idx -> 0 <= k < len a) ->
  exists l, np_take a idx = Some l
    /\ length l = length idx
    /\ forall n, (n < length idx)%nat ->
         nth_error l n = nth_error a (Z.to_nat (nth n idx 0)).
Proof.
  induction idx as [| k idx IH]; intros H.
  - exists []. repeat split. intros n Hn. simpl in Hn. lia.
  - destruct IH as [l [Hl [Hlen Hnth]]].
    { intros k' Hk'. apply H. right. exact Hk'. }
    assert (Hk : 0 <= k < len a) by (apply H; left; reflexivity).
    destruct (nth_error a (Z.to_nat k)) as [v |] eqn:Ev.
    + exists (v :: l). cbn [np_take]. unfold np_index.
      replace ((0 <=? k) && (k <? len a)) with true
        by (symmetry; apply andb_true_iff; split; [apply Z.leb_le | apply Z.ltb_lt]; lia).
      rewrite Ev, Hl. repeat split.
      * simpl. now rewrite Hlen.
      * intros [| n] Hn; simpl in *; [now rewrite Ev | apply Hnth; lia].
    + apply nth_error_None in Ev. unfold len in Hk. lia.
Qed.

Section Coinciding.

Variable user_srcntgt_ids : list Z.
Hypothesis Hperm : Permutation user_srcntgt_ids (iota (length user_srcntgt_ids)).

Let N := length user_srcntgt_ids.
Let sti := sorted_target_ids (tree_of_coinciding user_srcntgt_ids).

Lemma length_sorted_target_ids : length sti = N.
Proof.
  subst sti N. cbn [tree_of_coinciding sorted_target_ids].
  rewrite length_apply_writes, length_map. reflexivity.
Qed.

Lemma user_ids_in_range (k : Z) : In k user_srcntgt_ids -> 0 <= k < Z.of_nat N.
Proof. intros H. apply in_iota. eapply Permutation_in; eassumption. Qed.

Lemma NoDup_user_ids : NoDup user_srcntgt_ids.
Proof.
  eapply Permutation_NoDup; [apply Permutation_sym; exact Hperm | apply NoDup_iota].
Qed.

(** The scatter stores, at each user id, the tree position that holds it. *)
Lemma sorted_target_ids_at (i : nat) :
  (i < N)%nat -> rd 0 sti (nth i user_srcntgt_ids 0) = Z.of_nat i.
Proof.
  intros Hi. subst sti. cbn [tree_of_coinciding sorted_target_ids].
  apply apply_writes_written.
  - rewrite map_map. cbn [fst]. rewrite map_rd_iota. apply NoDup_user_ids.
  - apply in_map_iff. exists (Z.of_nat i). split.
    + rewrite rd_nat. reflexivity.
    + apply in_iota. subst N. lia.
  - unfold len. rewrite length_map. apply user_ids_in_range, nth_In. exact Hi.
Qed.

Lemma sorted_target_ids_inverse (j : nat) :
  (j < N)%nat ->
  0 <= nth j sti 0 < Z.of_nat N
  /\ nth (Z.to_nat (nth j sti 0)) user_srcntgt_ids 0 = Z.of_nat j.
Proof.
  intros Hj.
  assert (Hin : In (Z.of_nat j) user_srcntgt_ids).
  { eapply Permutation_in; [apply Permutation_sym; exact Hperm |]. apply in_iota.
    subst N. lia. }
  destruct (In_nth _ _ 0 Hin) as [i [Hi Hnth]].
  pose proof (sorted_target_ids_at i Hi) as Hat.
  rewrite Hnth, rd_nat in Hat. rewrite Hat, Nat2Z.id. subst N. split; [lia | exact Hnth].
Qed.

End Coinciding.

(** C9. With coinciding sources and targets, putting a vector in tree
    order with [reorder_sources] and back with [reorder_potentials]
    returns the vector: [user_source_ids] followed by [sorted_target_ids]
    is the identity on [0, N). *)
Theorem reorder_round_trip {A : Type} (user_srcntgt_ids : list Z) (x : list A) :
  Permutation user_srcntgt_ids (iota (length user_srcntgt_ids)) ->
  length x = length user_srcntgt_ids ->
  (match reorder_sources (tree_of_coinciding user_srcntgt_ids) x with
   | Some tree_order => reorder_potentials (tree_of_coinciding user_srcntgt_ids) tree_order
   | None => None
   end = Some x)
  /\ forall j, (j < length user_srcntgt_ids)%nat ->
       rd 0 (user_source_ids (tree_of_coinciding user_srcntgt_ids))
            (rd 0 (sorted_target_ids (tree_of_coinciding user_srcntgt_ids)) (Z.of_nat j))
       = Z.of_nat j.
Proof.
  intros Hperm Hlen. split.
  - unfold reorder_sources, reorder_potentials.
    change (user_source_ids (tree_of_coinciding user_srcntgt_ids)) with user_srcntgt_ids.
    destruct (np_take_in_range x user_srcntgt_ids) as [s [Hs [Hslen Hsnth]]].
    { intros k Hk. unfold len. rewrite Hlen. apply user_ids_in_range; assumption. }
    rewrite Hs.
    pose proof (length_sorted_target_ids user_srcntgt_ids) as Hstilen.
    destruct (np_take_in_range s (sorted_target_ids (tree_of_coinciding user_srcntgt_ids)))
      as [r [Hr [Hrlen Hrnth]]].
    { intros k Hk. destruct (In_nth _ _ 0 Hk) as [j [Hj <-]].
      rewrite Hstilen in Hj. unfold len. rewrite Hslen.
      apply (sorted_target_ids_inverse user_srcntgt_ids Hperm j Hj). }
    rewrite Hr. f_equal. apply nth_error_ext. intros n.
    destruct (Nat.lt_ge_cases n (length user_srcntgt_ids)) as [Hn | Hn].
    + rewrite Hrnth by (rewrite Hstilen; exact Hn).
      destruct (sorted_target_ids_inverse user_srcntgt_ids Hperm n Hn) as [Hrange Hinv].
      rewrite Hsnth by lia. rewrite Hinv, Nat2Z.id. reflexivity.
    + rewrite (proj2 (nth_error_None r n)) by lia.
      rewrite (proj2 (nth_error_None x n)) by lia. reflexivity.
  - intros j Hj.
    destruct (sorted_target_ids_inverse user_srcntgt_ids Hperm j Hj) as [Hrange Hinv].
    rewrite rd_nat.
    replace (nth j (sorted_target_ids (tree_of_coinciding user_srcntgt_ids)) 0)
      with (Z.of_nat (Z.to_nat (nth j (sorted_target_ids (tree_of_coinciding user_srcntgt_ids)) 0)))
      by lia.
    rewrite rd_nat. exact Hinv.
Qed.

Lemma reorder_round_trip_witness :
  match reorder_sources (tree_of_coinciding [2; 0; 3; 1]) [10; 11; 12; 13] with
  | Some tree_order => reorder_potentials (tree_of_coinciding [2; 0; 3; 1]) tree_order
  | None => None
  end = Some [10; 11; 12; 13].
Proof.
  apply (reorder_round_trip [2; 0; 3; 1] [10; 11; 12; 13]).
  - cbn [length iota seq map Z.of_nat].
    apply Permutation_sym.
    apply (Permutation_trans (l' := [0; 2; 3; 1])).
    + apply perm_skip. apply perm_trans with (l' := [2; 1; 3]); [apply perm_swap |].
      apply perm_skip. apply perm_swap.
    + apply perm_swap.
  - reflexivity.
Defined.

(** ** The Morton number of a particle *)

Lemma lor_lt_pow2 (a b n : Z) :
  0 <= n -> 0 <= a < 2 ^ n -> 0 <= b < 2 ^ n -> 0 <= Z.lor a b < 2 ^ n.
Proof.
  intros Hn Ha Hb. split; [apply Z.lor_nonneg; lia |].
  destruct (Z.eq_dec a 0) as [-> | Hane]; [rewrite Z.lor_0_l; lia |].
  destruct (Z.eq_dec b 0) as [-> | Hbne]; [rewrite Z.lor_0_r; lia |].
  assert (Hpos : 0 < Z.lor a b).
  { assert (0 <= Z.lor a b) by (apply Z.lor_nonneg; lia).
    assert (Z.lor a b <> 0) by (rewrite Z.lor_eq_0_iff; lia). lia. }
  apply Z.log2_lt_pow2; [exact Hpos |].
  rewrite Z.log2_lor by lia.
  apply Z.max_lub_lt; apply Z.log2_lt_pow2; lia.
Qed.

Section MortonNumberFacts.

Context {coord_t : Type} `{Coord coord_t}.
Variable STICK_OUT_FACTOR : coord_t.
Variable level : Z.
Variable srcntgt_radius : coord_t.

Lemma axis_term_bounds (ax : axis_t coord_t) (k : nat) :
  0 <= Z.shiftl (Z.land (axis_bits level ax) 1) (Z.of_nat k) < 2 ^ (Z.of_nat k + 1).
Proof.
  assert (Hb : 0 <= Z.land (axis_bits level ax) 1 <= 1).
  { split; [apply Z.land_nonneg; lia |].
    assert (Z.land (axis_bits level ax) 1 = (axis_bits level ax) mod 2 ^ 1)
      by (apply (Z.land_ones _ 1); lia).
    pose proof (Z.mod_pos_bound (axis_bits level ax) (2 ^ 1)). simpl in *. lia. }
  rewrite Z.shiftl_mul_pow2, Z.pow_add_r by lia.
  pose proof (pow2_pos (Z.of_nat k)). simpl. nia.
Qed.

Lemma morton_bits_bounds (d : nat) (axes : list (axis_t coord_t)) :
  forall (iax : nat) (acc : Z),
    0 <= acc < 2 ^ Z.of_nat d -> (iax + length axes <= d)%nat ->
    0 <= morton_bits level d iax axes acc < 2 ^ Z.of_nat d.
Proof.
  induction axes as [| ax rest IH]; intros iax acc Hacc Hlen; [exact Hacc |].
  cbn [morton_bits]. simpl in Hlen. apply IH; [| lia].
  apply lor_lt_pow2; [lia | exact Hacc |].
  pose proof (axis_term_bounds ax (d - 1 - iax)) as Hterm.
  split; [lia |]. eapply Z.lt_le_trans; [apply Hterm |].
  apply Z.pow_le_mono_r; lia.
Qed.

Lemma stop_fold (axes : list (axis_t coord_t)) :
  forall stop : bool,
    fold_left (stop_update STICK_OUT_FACTOR level srcntgt_radius) axes stop
      = stop || existsb (stop_update STICK_OUT_FACTOR level srcntgt_radius false) axes.
Proof.
  induction axes as [| ax rest IH]; intros stop; simpl.
  - now rewrite orb_false_r.
  - rewrite IH. unfold stop_update. simpl.
    now rewrite <- !orb_assoc.
Qed.

End MortonNumberFacts.

(** C5 (as amended). With extents, the Morton number is -1 exactly when,
    on some axis, the interval of the particle's own radius around its
    coordinate leaves the next level box widened by the stick-out factor:
    [x + r >= center + R] or [x - r < center - R], where [R] is
    [(1 + STICK_OUT_FACTOR)/2] times the size of the next level box; in any
    other case the Morton number is an octant index. *)
Theorem nonchild_iff_radius_leaves_stick_out_box
    {coord_t : Type} `{Coord coord_t}
    (STICK_OUT_FACTOR : coord_t) (level : Z) (srcntgt_radius : coord_t)
    (axes : list (axis_t coord_t)) :
  (level_morton_number STICK_OUT_FACTOR true level srcntgt_radius axes = -1
   <-> exists ax, In ax axes
        /\ (c_ge (c_add (srcntgt_coord ax) srcntgt_radius)
                 (c_add (next_level_box_center level ax)
                        (next_level_box_stick_out_radius STICK_OUT_FACTOR level ax)) = true
            \/ c_lt (c_sub (srcntgt_coord ax) srcntgt_radius)
                    (c_sub (next_level_box_center level ax)
                           (next_level_box_stick_out_radius STICK_OUT_FACTOR level ax)) = true))
  /\ (level_morton_number STICK_OUT_FACTOR true level srcntgt_radius axes = -1
      \/ 0 <= level_morton_number STICK_OUT_FACTOR true level srcntgt_radius axes
           < 2 ^ Z.of_nat (length axes)).
Proof.
  pose proof (morton_bits_bounds level (length axes) axes 0 0) as Hbits.
  assert (Hb : 0 <= morton_bits level (length axes) 0 axes 0 < 2 ^ Z.of_nat (length axes)).
  { apply Hbits; [| simpl; lia]. pose proof (pow2_pos (Z.of_nat (length axes))). lia. }
  unfold level_morton_number, stop_srcntgt_descent.
  rewrite stop_fold. cbn [orb andb].
  destruct (existsb _ axes) eqn:Estop.
  - split; [| left; reflexivity]. split; [intros _ | reflexivity].
    apply existsb_exists in Estop. destruct Estop as [ax [Hin Hstop]].
    exists ax. split; [exact Hin |].
    unfold stop_update in Hstop. cbn [orb] in Hstop.
    apply orb_true_iff in Hstop. exact Hstop.
  - split; [| right; exact Hb]. split; [lia |].
    intros [ax [Hin Hstop]]. exfalso.
    assert (Hex : existsb (stop_update STICK_OUT_FACTOR level srcntgt_radius false) axes = true).
    { apply existsb_exists. exists ax. split; [exact Hin |].
      unfold stop_update. cbn [orb]. apply orb_true_iff. exact Hstop. }
    congruence.
Qed.

(** C5 (as stated) fails: the particle is kept in its box although its
    radius times [(1 + stick_out_factor)/2] stays inside the child box. *)
Lemma nonchild_not_inflated_radius :
  ~ (level_morton_number (0 # 1)%Q true 1 (3 # 8)%Q [quarter_axis] = -1
     <-> existsb (inflated_extent_crosses (0 # 1)%Q 1 (3 # 8)%Q) [quarter_axis] = true).
Proof.
  assert (Hcode : level_morton_number (0 # 1)%Q true 1 (3 # 8)%Q [quarter_axis] = -1)
    by (vm_compute; reflexivity).
  assert (Hspec : existsb (inflated_extent_crosses (0 # 1)%Q 1 (3 # 8)%Q) [quarter_axis] = false)
    by (vm_compute; reflexivity).
  intros [Hiff _]. rewrite Hspec in Hiff. specialize (Hiff Hcode). discriminate.
Qed.

(** ** Counting particles in an index range *)

Lemma count_in_bounds (p : Z -> bool) (a : Z) (k : nat) :
  0 <= count_in p a k <= Z.of_nat k.
Proof.
  induction k as [| k IH]; cbn [count_in]; [lia |].
  destruct (p (a + Z.of_nat k)); lia.
Qed.

Lemma count_in_le (p q : Z -> bool) (a : Z) (k : nat) :
  (forall j, a <= j < a + Z.of_nat k -> p j = true -> q j = true) ->
  count_in p a k <= count_in q a k.
Proof.
  induction k as [| k IH]; intros H; cbn [count_in]; [lia |].
  assert (IH' : count_in p a k <= count_in q a k) by (apply IH; intros j Hj; apply H; lia).
  specialize (H (a + Z.of_nat k) ltac:(lia)).
  destruct (p (a + Z.of_nat k)); [rewrite H by reflexivity; lia |].
  destruct (q (a + Z.of_nat k)); lia.
Qed.

Lemma count_in_ext (p q : Z -> bool) (a : Z) (k : nat) :
  (forall j, a <= j < a + Z.of_nat k -> p j = q j) ->
  count_in p a k = count_in q a k.
Proof.
  intros H. apply Z.le_antisymm; apply count_in_le; intros j Hj; rewrite (H j Hj); auto.
Qed.

(** A predicate that holds strictly more often counts strictly more. *)
Lemma count_in_lt (p q : Z -> bool) (a : Z) (k : nat) (j0 : Z) :
  (forall j, a <= j < a + Z.of_nat k -> p j = true -> q j = true) ->
  a <= j0 < a + Z.of_nat k -> p j0 = false -> q j0 = true ->
  count_in p a k < count_in q a k.
Proof.
  induction k as [| k IH]; intros H Hj0 Hp Hq; cbn [count_in]; [lia |].
  assert (Hle : count_in p a k <= count_in q a k)
    by (apply count_in_le; intros j Hj; apply H; lia).
  destruct (Z.eq_dec j0 (a + Z.of_nat k)) as [-> | Hne].
  - rewrite Hp, Hq. lia.
  - assert (IH' : count_in p a k < count_in q a k)
      by (apply IH; [intros j Hj; apply H; lia | lia | assumption | assumption]).
    specialize (H (a + Z.of_nat k) ltac:(lia)).
    destruct (p (a + Z.of_nat k)); [rewrite H by reflexivity; lia |].
    destruct (q (a + Z.of_nat k)); lia.
Qed.

Lemma count_in_none (p : Z -> bool) (a : Z) (k : nat) :
  (forall j, a <= j < a + Z.of_nat k -> p j = false) -> count_in p a k = 0.
Proof.
  induction k as [| k IH]; intros H; cbn [count_in]; [reflexivity |].
  rewrite IH by (intros j Hj; apply H; lia).
  rewrite H by lia. reflexivity.
Qed.

Lemma count_in_all (p : Z -> bool) (a : Z) (k : nat) :
  (forall j, a <= j < a + Z.of_nat k -> p j = true) -> count_in p a k = Z.of_nat k.
Proof.
  induction k as [| k IH]; intros H; cbn [count_in]; [reflexivity |].
  rewrite IH by (intros j Hj; apply H; lia).
  rewrite H by lia. lia.
Qed.

Lemma count_in_or (p q : Z -> bool) (a : Z) (k : nat) :
  (forall j, a <= j < a + Z.of_nat k -> p j = true -> q j = false) ->
  count_in (fun j => p j || q j) a k = count_in p a k + count_in q a k.
Proof.
  induction k as [| k IH]; intros H; cbn [count_in]; [reflexivity |].
  rewrite IH by (intros j Hj; apply H; lia).
  specialize (H (a + Z.of_nat k) ltac:(lia)).
  destruct (p (a + Z.of_nat k)); [rewrite H by reflexivity | destruct (q (a + Z.of_nat k))];
    cbn [orb]; lia.
Qed.

(** Exactly one index of the range is [i]. *)
Lemma count_in_single (a : Z) (k : nat) (i : Z) :
  a <= i < a + Z.of_nat k -> count_in (fun j => j =? i) a k = 1.
Proof.
  induction k as [| k IH]; intros H; cbn [count_in]; [lia |].
  destruct (Z.eqb_spec (a + Z.of_nat k) i) as [E | E].
  - rewrite count_in_none; [reflexivity |]. intros j Hj. apply Z.eqb_neq. lia.
  - rewrite IH by lia. reflexivity.
Qed.

(** A count over a prefix is a count over the whole range. *)
Lemma count_in_prefix (p : Z -> bool) (a : Z) (k n : nat) :
  (k <= n)%nat ->
  count_in p a k = count_in (fun j => p j && (j <? a + Z.of_nat k)) a n.
Proof.
  intros Hk. induction n as [| n IH].
  - replace k with 0%nat by lia. reflexivity.
  - destruct (Nat.eq_dec k (S n)) as [-> | Hne].
    + apply count_in_ext. intros j Hj.
      replace (j <? a + Z.of_nat (S n)) with true by (symmetry; apply Z.ltb_lt; lia).
      now rewrite andb_true_r.
    + cbn [count_in]. rewrite <- IH by lia.
      replace (a + Z.of_nat n <? a + Z.of_nat k) with false
        by (symmetry; apply Z.ltb_ge; lia).
      rewrite andb_false_r. lia.
Qed.

(** ** Sums written out field by field *)

Lemma sum_terms_app (t : nat -> Z) (l1 l2 : list nat) :
  sum_terms t (l1 ++ l2) = sum_terms t l1 + sum_terms t l2.
Proof.
  unfold sum_terms. induction l1 as [| x l1 IH]; cbn [app fold_right]; [reflexivity |].
  rewrite IH. lia.
Qed.

Lemma sum_terms_nonneg (t : nat -> Z) (l : list nat) :
  (forall mnr, In mnr l -> 0 <= t mnr) -> 0 <= sum_terms t l.
Proof.
  unfold sum_terms. induction l as [| x l IH]; intros H; cbn [fold_right]; [lia |].
  assert (0 <= t x) by (apply H; left; reflexivity).
  assert (0 <= fold_right (fun mnr acc => t mnr + acc) 0 l)
    by (apply IH; intros m Hm; apply H; right; exact Hm).
  lia.
Qed.

(** A sum accumulated in a machine integer that the total fits. *)
Lemma fold_wrap_sum (w : positive) (t : nat -> Z) (l : list nat) :
  forall acc : Z,
    (forall mnr, In mnr l -> 0 <= t mnr) ->
    min_int w <= acc -> acc + sum_terms t l <= max_int w ->
    fold_left (fun a mnr => wrap w (a + t mnr)) l acc = acc + sum_terms t l.
Proof.
  induction l as [| x l IH]; intros acc Hpos Hmin Hmax; cbn [fold_left sum_terms fold_right].
  - lia.
  - fold (sum_terms t l) in *.
    assert (0 <= t x) by (apply Hpos; left; reflexivity).
    assert (0 <= sum_terms t l)
      by (apply sum_terms_nonneg; intros m Hm; apply Hpos; right; exact Hm).
    cbn [sum_terms fold_right] in Hmax. fold (sum_terms t l) in Hmax.
    rewrite wrap_small by (unfold in_range; lia).
    rewrite IH; [lia | | lia | lia].
    intros m Hm. apply Hpos. right. exact Hm.
Qed.

Lemma fold_add_sat_sum (t : nat -> Z) (l : list nat) :
  forall acc : Z,
    (forall mnr, In mnr l -> 0 <= t mnr <= INT_MAX) -> 0 <= acc <= INT_MAX ->
    fold_left (fun a mnr => add_sat a (t mnr)) l acc = Z.min INT_MAX (acc + sum_terms t l).
Proof.
  induction l as [| x l IH]; intros acc Hpos Hacc; cbn [fold_left sum_terms fold_right].
  - lia.
  - fold (sum_terms t l).
    assert (0 <= t x <= INT_MAX) by (apply Hpos; left; reflexivity).
    assert (0 <= sum_terms t l)
      by (apply sum_terms_nonneg; intros m Hm; apply Hpos; right; exact Hm).
    assert (Hmin : INT_MIN <= 0) by (unfold INT_MIN, min_int; simpl; lia).
    rewrite IH.
    + unfold add_sat. lia.
    + intros m Hm. apply Hpos. right. exact Hm.
    + unfold add_sat. lia.
Qed.

(** ** The counting sort inside one box *)

Section BoxSort.

Variable key : Z -> Z.
Variable s : Z.
Variable n : nat.

Lemma sum_over_octants (g : nat -> bool) (q : Z -> bool) (M : nat) :
  sum_terms (fun mnr => if g mnr
                        then count_in (fun j => (key j =? Z.of_nat mnr) && q j) s n
                        else 0) (seq 0 M)
  = count_in (fun j => (0 <=? key j) && (key j <? Z.of_nat M)
                       && g (Z.to_nat (key j)) && q j) s n.
Proof.
  induction M as [| M IH].
  - cbn [seq sum_terms fold_right]. symmetry. apply count_in_none. intros j _.
    destruct (Z.leb_spec 0 (key j)); [| reflexivity].
    replace (key j <? Z.of_nat 0) with false by (symmetry; apply Z.ltb_ge; lia).
    reflexivity.
  - rewrite seq_S, sum_terms_app, IH. cbn [sum_terms fold_right Nat.add].
    rewrite Z.add_0_r.
    rewrite (count_in_ext
               (fun j => (0 <=? key j) && (key j <? Z.of_nat (S M))
                         && g (Z.to_nat (key j)) && q j)
               (fun j => ((0 <=? key j) && (key j <? Z.of_nat M)
                          && g (Z.to_nat (key j)) && q j)
                         || ((key j =? Z.of_nat M) && g M && q j))).
    + rewrite count_in_or.
      * f_equal. destruct (g M).
        -- apply count_in_ext. intros j _. now rewrite andb_true_r.
        -- symmetry. apply count_in_none. intros j _.
           now rewrite andb_false_r.
      * intros j _ Hj. apply andb_true_iff in Hj. destruct Hj as [Hj _].
        apply andb_true_iff in Hj. destruct Hj as [Hj _].
        apply andb_true_iff in Hj. destruct Hj as [_ Hj]. apply Z.ltb_lt in Hj.
        replace (key j =? Z.of_nat M) with false by (symmetry; apply Z.eqb_neq; lia).
        reflexivity.
    + intros j _.
      destruct (Z.eqb_spec (key j) (Z.of_nat M)) as [E | E].
      * rewrite E, Nat2Z.id.
        replace (0 <=? Z.of_nat M) with true by (symmetry; apply Z.leb_le; lia).
        replace (Z.of_nat M <? Z.of_nat (S M)) with true by (symmetry; apply Z.ltb_lt; lia).
        replace (Z.of_nat M <? Z.of_nat M) with false by (symmetry; apply Z.ltb_ge; lia).
        cbn [andb orb]. reflexivity.
      * cbn [andb]. rewrite orb_false_r.
        destruct (Z.ltb_spec (key j) (Z.of_nat (S M)));
          destruct (Z.ltb_spec (key j) (Z.of_nat M)); try lia; reflexivity.
Qed.

Lemma sorts_before_irrefl (i : Z) : sorts_before key i i = false.
Proof.
  unfold sorts_before. rewrite !Z.ltb_irrefl, andb_false_r. reflexivity.
Qed.

Lemma sorts_before_spec (j i : Z) :
  sorts_before key j i = true <-> key j < key i \/ (key j = key i /\ j < i).
Proof.
  unfold sorts_before.
  rewrite orb_true_iff, andb_true_iff, Z.ltb_lt, Z.eqb_eq, Z.ltb_lt. reflexivity.
Qed.

Lemma rank_bounds (i : Z) :
  s <= i < s + Z.of_nat n -> 0 <= rank_in_box key s n i < Z.of_nat n.
Proof.
  intros Hi. unfold rank_in_box. split; [apply count_in_bounds |].
  rewrite <- (count_in_all (fun _ => true) s n) by reflexivity.
  apply (count_in_lt _ _ s n i); auto using sorts_before_irrefl.
Qed.

Lemma rank_lt (i i' : Z) :
  s <= i < s + Z.of_nat n -> sorts_before key i i' = true ->
  rank_in_box key s n i < rank_in_box key s n i'.
Proof.
  intros Hi Hlt. unfold rank_in_box.
  apply (count_in_lt _ _ s n i); auto using sorts_before_irrefl.
  intros j _ Hj. apply sorts_before_spec in Hj. apply sorts_before_spec in Hlt.
  apply sorts_before_spec. lia.
Qed.

Lemma sorts_before_total (i i' : Z) :
  i <> i' -> sorts_before key i i' = true \/ sorts_before key i' i = true.
Proof. intros H. rewrite !sorts_before_spec. lia. Qed.

(** Ranks of different particles of the box differ. *)
Lemma rank_inj (i i' : Z) :
  s <= i < s + Z.of_nat n -> s <= i' < s + Z.of_nat n ->
  rank_in_box key s n i = rank_in_box key s n i' -> i = i'.
Proof.
  intros Hi Hi' Heq. destruct (Z.eq_dec i i') as [E | E]; [exact E |].
  destruct (sorts_before_total i i' E) as [H | H].
  - pose proof (rank_lt i i' Hi H). lia.
  - pose proof (rank_lt i' i Hi' H). lia.
Qed.

(** The rank is the stable order by Morton number. *)
Lemma rank_order (i i' : Z) :
  s <= i < s + Z.of_nat n -> s <= i' < s + Z.of_nat n -> i < i' ->
  (rank_in_box key s n i < rank_in_box key s n i' <-> key i <= key i').
Proof.
  intros Hi Hi' Hlt. split.
  - intros Hr. destruct (Z.le_gt_cases (key i) (key i')) as [H | H]; [exact H |].
    assert (Hsb : sorts_before key i' i = true) by (apply sorts_before_spec; lia).
    pose proof (rank_lt i' i Hi' Hsb). lia.
  - intros Hk. apply rank_lt; [exact Hi |]. apply sorts_before_spec. lia.
Qed.

(** The rank from the two numbers the kernel adds: the particles of
    smaller Morton number, and the particles of the same Morton number
    up to and including this one, less one. *)
Lemma rank_decomposition (i : Z) :
  s <= i < s + Z.of_nat n ->
  rank_in_box key s n i
    = count_in (fun j => key j <? key i) s n
      + (count_in (fun j => (key j =? key i) && (j <? i + 1)) s n - 1).
Proof.
  intros Hi. unfold rank_in_box, sorts_before.
  rewrite count_in_or.
  - f_equal.
    rewrite (count_in_ext (fun j => (key j =? key i) && (j <? i + 1))
               (fun j => ((key j =? key i) && (j <? i)) || (j =? i))).
    + rewrite count_in_or.
      * rewrite count_in_single by exact Hi. lia.
      * intros j _ Hj. apply andb_true_iff in Hj. destruct Hj as [_ Hj].
        apply Z.ltb_lt in Hj. apply Z.eqb_neq. lia.
    + intros j _. destruct (Z.eqb_spec j i) as [-> | E].
      * rewrite Z.eqb_refl, Z.ltb_irrefl.
        replace (i <? i + 1) with true by (symmetry; apply Z.ltb_lt; lia). reflexivity.
      * rewrite orb_false_r. f_equal.
        destruct (Z.ltb_spec j (i + 1)); destruct (Z.ltb_spec j i); try lia; reflexivity.
  - intros j _ Hj. apply Z.ltb_lt in Hj.
    replace (key j =? key i) with false by (symmetry; apply Z.eqb_neq; lia). reflexivity.
Qed.

End BoxSort.

(** ** Scans, item by item *)

Section ScanItems.

Context {T : Type}.
Variable f : T -> T -> bool -> T.
Variables (d : T) (dx : bool * T).

Lemma scan_from_nth (inputs : list (bool * T)) :
  forall (prev : T) (i : nat),
    (i < length inputs)%nat ->
    nth i (scan_from f prev inputs) d
      = f (nth i (prev :: scan_from f prev inputs) d)
          (snd (nth i inputs dx)) (fst (nth i inputs dx)).
Proof.
  induction inputs as [| [flag x] rest IH]; intros prev i Hi; simpl in Hi; [lia |].
  destruct i as [| i]; [reflexivity |].
  cbn [scan_from nth]. rewrite IH by lia. reflexivity.
Qed.

Lemma scan_items_0 (inputs : list (bool * T)) :
  (0 < length inputs)%nat ->
  nth 0 (scan_items f inputs) d = snd (nth 0 inputs dx).
Proof.
  destruct inputs as [| [flag x] rest]; simpl; [lia | reflexivity].
Qed.

Lemma scan_items_S (inputs : list (bool * T)) (i : nat) :
  (S i < length inputs)%nat ->
  nth (S i) (scan_items f inputs) d
    = f (nth i (scan_items f inputs) d)
        (snd (nth (S i) inputs dx)) (fst (nth (S i) inputs dx)).
Proof.
  destruct inputs as [| [flag x] rest]; simpl length; [lia |]. intros Hi.
  cbn [scan_items nth]. apply scan_from_nth. lia.
Qed.

End ScanItems.

Lemma nth_iota (n i : nat) (d : Z) : (i < n)%nat -> nth i (iota n) d = Z.of_nat i.
Proof.
  intros H. unfold iota.
  rewrite (nth_indep _ d (Z.of_nat 0)) by (rewrite length_map, length_seq; lia).
  rewrite map_nth, seq_nth by lia. reflexivity.
Qed.

Lemma nth_map_iota {A : Type} (g : Z -> A) (n i : nat) (d : A) :
  (i < n)%nat -> nth i (map g (iota n)) d = g (Z.of_nat i).
Proof.
  intros H. rewrite (nth_indep _ d (g 0)) by (rewrite length_map, length_iota; lia).
  rewrite map_nth, nth_iota by lia. reflexivity.
Qed.

Lemma sum_terms_ext (t t' : nat -> Z) (l : list nat) :
  (forall mnr, In mnr l -> t mnr = t' mnr) -> sum_terms t l = sum_terms t' l.
Proof.
  unfold sum_terms. induction l as [| x l IH]; intros H; cbn [fold_right]; [reflexivity |].
  rewrite IH by (intros m Hm; apply H; right; exact Hm).
  rewrite (H x) by (left; reflexivity). reflexivity.
Qed.

(** ** What a well-formed level state provides *)

Section WellFormedFacts.

Variables pb bb : positive.
Variable ext : bool.
Variable dims : nat.
Variable st : level_args.
Hypothesis Hwf : wf_level pb bb ext dims st = true.

#[local] Abbreviation N := (nsrcntgts st).
#[local] Abbreviation key j := (rd 0 (morton_nrs st) j).
#[local] Abbreviation box j := (rd 0 (srcntgt_box_ids st) j).
#[local] Abbreviation start b := (rd 0 (box_srcntgt_starts st) b).
#[local] Abbreviation count b := (rd 0 (box_srcntgt_counts_cumul st) b).

Lemma wf_sizes :
  Z.of_nat N <= max_int pb /\ 0 <= nboxes st
  /\ nboxes st + 2 ^ Z.of_nat dims * Z.of_nat N <= max_int bb.
Proof.
  unfold wf_level in Hwf. rewrite !andb_true_iff in Hwf.
  destruct Hwf as [[[[[[H1 H2] H3] _] _] _] _].
  apply Z.leb_le in H1, H2, H3. auto.
Qed.

Lemma wf_particle (i : Z) :
  0 <= i < Z.of_nat N -> particle_ok ext dims st i = true.
Proof.
  intros Hi. unfold wf_level in Hwf. rewrite !andb_true_iff in Hwf.
  destruct Hwf as [_ Hall]. rewrite forallb_forall in Hall.
  apply Hall, in_iota. exact Hi.
Qed.

Lemma wf_key (i : Z) :
  0 <= i < Z.of_nat N ->
  (if ext then -1 else 0) <= key i < 2 ^ Z.of_nat dims.
Proof.
  intros Hi. pose proof (wf_particle i Hi) as H.
  unfold particle_ok, morton_nr_ok in H. rewrite !andb_true_iff in H.
  destruct H as [[H1 H2] _]. apply Z.leb_le in H1. apply Z.ltb_lt in H2.
  lia.
Qed.

(** The facts of [box_ok] for a particle of a current box. *)
Lemma wf_box (i : Z) :
  0 <= i < Z.of_nat N -> box_is_current ext st (box i) = true ->
  0 <= box i < len (box_morton_bin_counts st)
  /\ box i < len (box_has_children st)
  /\ rd 0 (box_has_children st) (box i) = 0
  /\ 0 <= start (box i) <= i
  /\ i < start (box i) + count (box i) <= Z.of_nat N
  /\ forall j, start (box i) <= j < start (box i) + count (box i) ->
       box j = box i
       /\ (rd 0 (box_start_flags st) j <> 0 <-> j = start (box i)).
Proof.
  intros Hi Hcur. pose proof (wf_particle i Hi) as H.
  unfold particle_ok in H. rewrite andb_true_iff in H. destruct H as [_ H].
  rewrite Hcur in H.
  unfold box_ok in H. rewrite !andb_true_iff in H.
  destruct H as [[[[[[[[H1 H2] H3] H4] H5] H6] H7] H8] H9].
  apply Z.leb_le in H1, H5, H6, H8. apply Z.ltb_lt in H2, H3, H7. apply Z.eqb_eq in H4.
  repeat split; try lia.
  - rewrite forallb_forall in H9.
    assert (Hin : In j (box_range st (box i))).
    { unfold box_range. apply in_map_iff. exists (Z.to_nat (j - start (box i))).
      split; [lia | apply in_seq; lia]. }
    specialize (H9 j Hin). apply andb_true_iff in H9. destruct H9 as [H9 _].
    apply Z.eqb_eq in H9. exact H9.
  - intros Hflag. rewrite forallb_forall in H9.
    assert (Hin : In j (box_range st (box i))).
    { unfold box_range. apply in_map_iff. exists (Z.to_nat (j - start (box i))).
      split; [lia | apply in_seq; lia]. }
    specialize (H9 j Hin). apply andb_true_iff in H9. destruct H9 as [_ H9].
    apply Bool.eqb_prop in H9. apply Z.eqb_eq. rewrite <- H9.
    apply negb_true_iff, Z.eqb_neq. exact Hflag.
  - intros ->. rewrite forallb_forall in H9.
    assert (Hin : In (start (box i)) (box_range st (box i))).
    { unfold box_range. apply in_map_iff. exists 0%nat.
      split; [lia | apply in_seq; lia]. }
    specialize (H9 _ Hin). apply andb_true_iff in H9. destruct H9 as [_ H9].
    apply Bool.eqb_prop in H9. rewrite Z.eqb_refl in H9.
    apply negb_true_iff, Z.eqb_neq in H9. exact H9.
Qed.

End WellFormedFacts.

(** A slot that several lanes write, all with the same value, holds it. *)
Lemma apply_writes_agree {A : Type} (d : A) (ws : list (Z * A)) :
  forall (arr : list A) (k : Z) (v : A),
    (forall v', In (k, v') ws -> v' = v) -> In (k, v) ws -> 0 <= k < len arr ->
    rd d (apply_writes arr ws) k = v.
Proof.
  induction ws as [| w ws IH]; intros arr k v Hagree Hin Hk; [contradiction |].
  change (apply_writes arr (w :: ws)) with (apply_writes (wr arr (fst w) (snd w)) ws).
  destruct (in_dec Z.eq_dec k (map fst ws)) as [Hlater | Hlater].
  - apply in_map_iff in Hlater. destruct Hlater as [[k' v'] [Hk' Hin']].
    cbn [fst] in Hk'. subst k'.
    assert (v' = v) by (apply Hagree; right; exact Hin'). subst v'.
    apply IH.
    + intros v'' Hv''. apply Hagree. right. exact Hv''.
    + exact Hin'.
    + unfold len in *. rewrite length_wr. exact Hk.
  - rewrite apply_writes_untouched by exact Hlater.
    destruct Hin as [-> | Hin].
    + apply rd_wr_same. exact Hk.
    + exfalso. apply Hlater. apply in_map_iff. exists (k, v). split; [reflexivity | exact Hin].
Qed.

Lemma sum_octant_counts (key : Z -> Z) (s : Z) (n M : nat) :
  sum_terms (fun mnr => count_in (fun j => key j =? Z.of_nat mnr) s n) (seq 0 M)
    = count_in (fun j => (0 <=? key j) && (key j <? Z.of_nat M)) s n.
Proof.
  pose proof (sum_over_octants key s n (fun _ => true) (fun _ => true) M) as H.
  cbn beta in H.
  transitivity (count_in (fun j => (0 <=? key j) && (key j <? Z.of_nat M) && true && true) s n).
  - rewrite <- H. apply sum_terms_ext. intros mnr _.
    apply count_in_ext. intros j _. now rewrite andb_true_r.
  - apply count_in_ext. intros j _. now rewrite !andb_true_r.
Qed.

Lemma sum_smaller_octant_counts (key : Z -> Z) (s : Z) (n M : nat) (m : Z) :
  sum_terms (fun mnr => if m >? Z.of_nat mnr
                        then count_in (fun j => key j =? Z.of_nat mnr) s n
                        else 0) (seq 0 M)
    = count_in (fun j => (0 <=? key j) && (key j <? Z.of_nat M) && (key j <? m)) s n.
Proof.
  pose proof (sum_over_octants key s n (fun mnr => m >? Z.of_nat mnr) (fun _ => true) M) as H.
  cbn beta in H.
  transitivity (count_in (fun j => (0 <=? key j) && (key j <? Z.of_nat M)
                                   && (m >? Z.of_nat (Z.to_nat (key j))) && true) s n).
  - rewrite <- H. apply sum_terms_ext. intros mnr _.
    destruct (m >? Z.of_nat mnr); [| reflexivity].
    apply count_in_ext. intros j _. now rewrite andb_true_r.
  - apply count_in_ext. intros j _. rewrite andb_true_r.
    destruct (Z.leb_spec 0 (key j)); [| reflexivity]. cbn [andb]. f_equal.
    rewrite Z2Nat.id by lia. rewrite Z.gtb_ltb. reflexivity.
Qed.

(** ** The Morton bin count scan inside a box *)

Section MortonScanFacts.

Variables pb bb : positive.
Variable ext : bool.
Variable dims : nat.
Variable st : level_args.
Hypothesis Hwf : wf_level pb bb ext dims st = true.

#[local] Abbreviation N := (nsrcntgts st).
#[local] Abbreviation key j := (rd 0 (morton_nrs st) j).
#[local] Abbreviation box j := (rd 0 (srcntgt_box_ids st) j).
#[local] Abbreviation start b := (rd 0 (box_srcntgt_starts st) b).
#[local] Abbreviation count b := (rd 0 (box_srcntgt_counts_cumul st) b).
#[local] Abbreviation item j := (morton_item pb ext dims st j).
#[local] Abbreviation input j := (snd (morton_scan_input ext dims st j)).

Lemma small_in_range (v : Z) : 0 <= v <= Z.of_nat N -> in_range pb v.
Proof.
  intros Hv. destruct (wf_sizes pb bb ext dims st Hwf) as [HN _]. fold N in HN.
  unfold in_range, min_int, max_int in *. pose proof (pow2_pos (Z.pos pb - 1)). lia.
Qed.

Lemma morton_item_0 : (0 < N)%nat -> item 0 = input 0.
Proof.
  intros HN. unfold morton_item, morton_bin_counts.
  change 0 with (Z.of_nat 0) at 1. rewrite rd_nat.
  rewrite (scan_items_0 _ _ (morton_scan_input ext dims st 0))
    by (rewrite length_map, length_iota; exact HN).
  rewrite nth_map_iota by exact HN. reflexivity.
Qed.

Lemma morton_item_S (i : nat) :
  (S i < N)%nat ->
  item (Z.of_nat (S i))
    = scan_t_add pb ext dims (item (Z.of_nat i)) (input (Z.of_nat (S i)))
        (fst (morton_scan_input ext dims st (Z.of_nat (S i)))).
Proof.
  intros Hi. unfold morton_item, morton_bin_counts.
  rewrite !rd_nat.
  rewrite (scan_items_S _ _ (morton_scan_input ext dims st 0))
    by (rewrite length_map, length_iota; exact Hi).
  rewrite nth_map_iota by exact Hi. reflexivity.
Qed.

(** At the first particle of a current box the scan starts afresh. *)
Lemma morton_item_start (i0 : Z) :
  0 <= i0 < Z.of_nat N -> box_is_current ext st (box i0) = true ->
  item (start (box i0)) = input (start (box i0)).
Proof.
  intros Hi0 Hcur.
  destruct (wf_box pb bb ext dims st Hwf i0 Hi0 Hcur) as [_ [_ [_ [Hs [Hn Hrange]]]]].
  destruct (Z.eq_dec (start (box i0)) 0) as [E | E].
  - rewrite E. apply morton_item_0. lia.
  - replace (start (box i0)) with (Z.of_nat (S (Z.to_nat (start (box i0) - 1)))) by lia.
    rewrite morton_item_S by lia.
    replace (Z.of_nat (S (Z.to_nat (start (box i0) - 1)))) with (start (box i0)) by lia.
    destruct (Hrange (start (box i0)) ltac:(lia)) as [_ Hflag].
    assert (Hf : fst (morton_scan_input ext dims st (start (box i0))) = true).
    { unfold morton_scan_input. cbn [fst]. apply negb_true_iff, Z.eqb_neq, Hflag. reflexivity. }
    rewrite Hf. reflexivity.
Qed.

(** Inside the box the scan adds the particle to the item before it. *)
Lemma morton_item_next (i0 j : Z) :
  0 <= i0 < Z.of_nat N -> box_is_current ext st (box i0) = true ->
  start (box i0) < j < start (box i0) + count (box i0) ->
  item j = scan_t_add pb ext dims (item (j - 1)) (input j) false.
Proof.
  intros Hi0 Hcur Hj.
  destruct (wf_box pb bb ext dims st Hwf i0 Hi0 Hcur) as [_ [_ [_ [Hs [Hn Hrange]]]]].
  replace j with (Z.of_nat (S (Z.to_nat (j - 1)))) at 1 by lia.
  rewrite morton_item_S by lia.
  replace (Z.of_nat (S (Z.to_nat (j - 1)))) with j by lia.
  replace (Z.of_nat (Z.to_nat (j - 1))) with (j - 1) by lia.
  destruct (Hrange j ltac:(lia)) as [_ Hflag].
  assert (Hf : fst (morton_scan_input ext dims st j) = false).
  { unfold morton_scan_input. cbn [fst]. apply negb_false_iff, Z.eqb_eq.
    destruct (Z.eq_dec (rd 0 (box_start_flags st) j) 0) as [E | E]; [exact E |].
    apply Hflag in E. lia. }
  rewrite Hf. reflexivity.
Qed.

(** The items of a current box count its particles, octant by octant. *)
Lemma segment_counts (i0 : Z) :
  0 <= i0 < Z.of_nat N -> box_is_current ext st (box i0) = true ->
  forall k : nat,
  Z.of_nat k < count (box i0) ->
  (forall mnr, In mnr (mnrs dims) ->
     fld (pcnt (item (start (box i0) + Z.of_nat k))) mnr
       = count_in (fun j => key j =? Z.of_nat mnr) (start (box i0)) (S k))
  /\ nonchild_srcntgts (item (start (box i0) + Z.of_nat k))
       = if ext then count_in (fun j => key j =? -1) (start (box i0)) (S k) else 0.
Proof.
  intros Hi0 Hcur.
  pose proof (wf_box pb bb ext dims st Hwf i0 Hi0 Hcur) as [_ [_ [_ [Hs [Hn Hrange]]]]].
  intros k. induction k as [| k IH]; intros Hk.
  - rewrite Z.add_0_r, morton_item_start by assumption.
    unfold morton_scan_input, scan_t_of_morton_nr.
    cbn [snd pcnt nonchild_srcntgts count_in]. rewrite Z.add_0_r.
    split; [| destruct ext; reflexivity].
    intros mnr Hmnr. rewrite fld_map_mnrs by exact Hmnr. reflexivity.
  - destruct IH as [IHp IHn]; [lia |].
    rewrite (morton_item_next i0) by (try assumption; lia).
    replace (start (box i0) + Z.of_nat (S k) - 1) with (start (box i0) + Z.of_nat k) by lia.
    unfold scan_t_add. cbn [negb pcnt nonchild_srcntgts].
    unfold morton_scan_input, scan_t_of_morton_nr. cbn [snd pcnt nonchild_srcntgts].
    split.
    + intros mnr Hmnr. rewrite !fld_map_mnrs by exact Hmnr. rewrite IHp by exact Hmnr.
      cbn [count_in].
      pose proof (count_in_bounds (fun j => key j =? Z.of_nat mnr) (start (box i0)) (S k)) as Hb.
      cbn [count_in] in Hb.
      rewrite wrap_small; [reflexivity |]. apply small_in_range.
      destruct (key (start (box i0) + Z.of_nat (S k)) =? Z.of_nat mnr); lia.
    + pose proof small_in_range as Hsmall.
      destruct ext; [| reflexivity]. rewrite IHn. cbn [count_in].
      pose proof (count_in_bounds (fun j => key j =? -1) (start (box i0)) (S k)) as Hb.
      cbn [count_in] in Hb.
      rewrite wrap_small; [lia |]. apply Hsmall.
      destruct (key (start (box i0) + Z.of_nat (S k)) =? -1); lia.
Qed.

Lemma pow2_of_nat : Z.of_nat (2 ^ dims) = 2 ^ Z.of_nat dims.
Proof. rewrite Nat2Z.inj_pow. reflexivity. Qed.

(** Every particle of a range falls in one octant, or is a non-child. *)
Lemma all_counted (s : Z) (m : nat) :
  0 <= s -> s + Z.of_nat m <= Z.of_nat N ->
  (if ext then count_in (fun j => key j =? -1) s m else 0)
  + count_in (fun j => (0 <=? key j) && (key j <? Z.of_nat (2 ^ dims))) s m
  = Z.of_nat m.
Proof.
  intros Hs Hm. rewrite pow2_of_nat.
  assert (Hkey : forall j, s <= j < s + Z.of_nat m ->
            (if ext then -1 else 0) <= key j < 2 ^ Z.of_nat dims).
  { intros j Hj. apply (wf_key pb bb ext dims st Hwf). lia. }
  clear Hwf. destruct ext.
  - rewrite <- count_in_or.
    + apply count_in_all. intros j Hj. specialize (Hkey j Hj).
      destruct (Z.eqb_spec (key j) (-1)); [reflexivity |]. cbn [orb].
      apply andb_true_iff. split; [apply Z.leb_le | apply Z.ltb_lt]; lia.
    + intros j _ Hj. apply Z.eqb_eq in Hj. rewrite Hj. reflexivity.
  - rewrite Z.add_0_l. apply count_in_all. intros j Hj. specialize (Hkey j Hj).
    apply andb_true_iff. split; [apply Z.leb_le | apply Z.ltb_lt]; lia.
Qed.

(** [my_id_in_my_box] is the offset of the particle in its box. *)
Lemma my_id_in_my_box_offset (i0 : Z) (k : nat) :
  0 <= i0 < Z.of_nat N -> box_is_current ext st (box i0) = true ->
  Z.of_nat k < count (box i0) ->
  my_id_in_my_box pb ext dims (item (start (box i0) + Z.of_nat k)) = Z.of_nat k.
Proof.
  intros Hi0 Hcur Hk.
  pose proof (wf_box pb bb ext dims st Hwf i0 Hi0 Hcur) as [_ [_ [_ [Hs [Hn Hrange]]]]].
  destruct (segment_counts i0 Hi0 Hcur k Hk) as [Hp Hnc].
  pose proof (all_counted (start (box i0)) (S k) ltac:(lia) ltac:(lia)) as Hall.
  rewrite <- sum_octant_counts in Hall.
  pose proof (count_in_bounds (fun j => key j =? -1) (start (box i0)) (S k)) as Hb.
  assert (Hsum : sum_terms (fun mnr => fld (pcnt (item (start (box i0) + Z.of_nat k))) mnr)
                   (mnrs dims)
                 = sum_terms (fun mnr => count_in (fun j => key j =? Z.of_nat mnr)
                                           (start (box i0)) (S k)) (seq 0 (2 ^ dims))).
  { apply sum_terms_ext. exact Hp. }
  assert (Hnn : forall mnr, In mnr (mnrs dims) ->
            0 <= fld (pcnt (item (start (box i0) + Z.of_nat k))) mnr).
  { intros mnr Hmnr. rewrite Hp by exact Hmnr. apply count_in_bounds. }
  assert (Hpos : 0 <= sum_terms (fun mnr => count_in (fun j => key j =? Z.of_nat mnr)
                                   (start (box i0)) (S k)) (seq 0 (2 ^ dims))).
  { apply sum_terms_nonneg. intros mnr _. apply count_in_bounds. }
  pose proof (small_in_range 0 ltac:(lia)) as [Hmin0 _].
  pose proof (small_in_range (Z.of_nat N) ltac:(lia)) as [_ HmaxN].
  pose proof (small_in_range) as Hsmall.
  unfold my_id_in_my_box. rewrite Hnc. clear Hnc Hp.
  assert (Hm1 : min_int pb <= -1).
  { unfold min_int. pose proof (pow2_pos (Z.pos pb - 1)). lia. }
  set (t := fun mnr => fld (pcnt (item (start (box i0) + Z.of_nat k))) mnr) in *.
  change (fold_left (fun acc mnr => wrap pb (acc + t mnr)) (mnrs dims)
            (if ext
             then wrap pb (-1 + (if ext
                                 then count_in (fun j => key j =? -1) (start (box i0)) (S k)
                                 else 0))
             else -1) = Z.of_nat k).
  clear Hrange. destruct ext.
  - rewrite (wrap_small pb (-1 + _)) by (unfold in_range; lia).
    rewrite (fold_wrap_sum pb t); [rewrite Hsum; lia | exact Hnn | lia | rewrite Hsum; lia].
  - rewrite (fold_wrap_sum pb t); [rewrite Hsum; lia | exact Hnn | lia | rewrite Hsum; lia].
Qed.

Lemma is_last_in_box_iff (j : Z) :
  0 <= j < Z.of_nat N -> box_is_current ext st (box j) = true ->
  (is_last_in_box pb ext dims st j = true <-> j = start (box j) + count (box j) - 1).
Proof.
  intros Hj Hcur.
  pose proof (wf_box pb bb ext dims st Hwf j Hj Hcur) as [_ [_ [_ [Hs [Hn _]]]]].
  unfold is_last_in_box.
  replace j with (start (box j) + Z.of_nat (Z.to_nat (j - start (box j)))) at 1 by lia.
  replace (box j) with (box (start (box j) + Z.of_nat (Z.to_nat (j - start (box j)))))
    at 1 2 by (f_equal; lia).
  replace (start (box j) + Z.of_nat (Z.to_nat (j - start (box j)))) with j at 1 2 by lia.
  rewrite (my_id_in_my_box_offset j) by (try assumption; lia).
  rewrite wrap_small by (apply small_in_range; lia).
  rewrite Z.eqb_eq. lia.
Qed.

(** The record of a current box is the item of its last particle. *)
Lemma box_counts_last (i0 : Z) :
  0 <= i0 < Z.of_nat N -> box_is_current ext st (box i0) = true ->
  box_counts pb ext dims st (box i0) = item (start (box i0) + count (box i0) - 1).
Proof.
  intros Hi0 Hcur.
  pose proof (wf_box pb bb ext dims st Hwf i0 Hi0 Hcur) as [Hb [_ [_ [Hs [Hn Hrange]]]]].
  unfold box_counts, box_morton_bin_counts_out, box_morton_bin_counts_writes.
  apply apply_writes_agree.
  - intros v' Hin. apply in_map_iff in Hin. destruct Hin as [j [Heq Hj]].
    apply filter_In in Hj. destruct Hj as [Hj Hlast]. apply in_iota in Hj.
    injection Heq as Hbox <-.
    assert (Hcurj : box_is_current ext st (box j) = true) by (rewrite Hbox; exact Hcur).
    apply (is_last_in_box_iff j Hj Hcurj) in Hlast. rewrite Hbox in Hlast.
    rewrite Hlast. reflexivity.
  - apply in_map_iff. exists (start (box i0) + count (box i0) - 1).
    destruct (Hrange (start (box i0) + count (box i0) - 1) ltac:(lia)) as [Hbox _].
    split; [rewrite Hbox; reflexivity |].
    apply filter_In. split; [apply in_iota; lia |].
    apply is_last_in_box_iff; [lia | rewrite Hbox; exact Hcur | rewrite Hbox; reflexivity].
  - exact Hb.
Qed.

(** ... and so it holds the totals of the box. *)
Lemma box_counts_totals (i0 : Z) :
  0 <= i0 < Z.of_nat N -> box_is_current ext st (box i0) = true ->
  (forall mnr, In mnr (mnrs dims) ->
     fld (pcnt (box_counts pb ext dims st (box i0))) mnr
       = count_in (fun j => key j =? Z.of_nat mnr) (start (box i0))
           (Z.to_nat (count (box i0))))
  /\ nonchild_srcntgts (box_counts pb ext dims st (box i0))
       = if ext
         then count_in (fun j => key j =? -1) (start (box i0)) (Z.to_nat (count (box i0)))
         else 0.
Proof.
  intros Hi0 Hcur.
  pose proof (wf_box pb bb ext dims st Hwf i0 Hi0 Hcur) as [_ [_ [_ [Hs [Hn _]]]]].
  rewrite box_counts_last by assumption.
  replace (start (box i0) + count (box i0) - 1)
    with (start (box i0) + Z.of_nat (Z.to_nat (count (box i0) - 1))) by lia.
  replace (Z.to_nat (count (box i0))) with (S (Z.to_nat (count (box i0) - 1))) by lia.
  apply segment_counts; try assumption. lia.
Qed.

(** ** The new index of a particle *)

(** [my_count]: the particles of the box with the Morton number of [i],
    up to and including [i]. *)
Lemma my_count_prefix (i0 : Z) (k : nat) :
  0 <= i0 < Z.of_nat N -> box_is_current ext st (box i0) = true ->
  Z.of_nat k < count (box i0) ->
  get_count ext dims (item (start (box i0) + Z.of_nat k)) (key (start (box i0) + Z.of_nat k))
    = count_in (fun j => key j =? key (start (box i0) + Z.of_nat k)) (start (box i0)) (S k).
Proof.
  intros Hi0 Hcur Hk.
  pose proof (wf_box pb bb ext dims st Hwf i0 Hi0 Hcur) as [_ [_ [_ [Hs [Hn _]]]]].
  destruct (segment_counts i0 Hi0 Hcur k Hk) as [Hp Hnc].
  pose proof (wf_key pb bb ext dims st Hwf (start (box i0) + Z.of_nat k) ltac:(lia)) as Hkey.
  set (i := start (box i0) + Z.of_nat k) in *.
  unfold get_count.
  destruct (Z.eqb_spec (key i) (-1)) as [E | E].
  - clear Hp. destruct ext; [| lia]. cbn [andb]. rewrite Hnc, E. reflexivity.
  - rewrite andb_false_r.
    assert (Hrange : 0 <= key i < 2 ^ Z.of_nat dims) by (clear Hp Hnc; destruct ext; lia).
    rewrite get_count_for_branch_selects by (change (int2 []) with 0; lia).
    rewrite Hp by (unfold mnrs; apply in_seq; rewrite <- pow2_of_nat in Hrange; lia).
    rewrite Z2Nat.id by lia. reflexivity.
Qed.

(** Particles of smaller Morton number, as the kernel adds them up. *)
Lemma smaller_keys (s : Z) (n : nat) (m : Z) :
  0 <= s -> s + Z.of_nat n <= Z.of_nat N -> (if ext then -1 else 0) <= m ->
  count_in (fun j => key j <? m) s n
    = (if ext then (if m >=? 0 then count_in (fun j => key j =? -1) s n else 0) else 0)
      + count_in (fun j => (0 <=? key j) && (key j <? Z.of_nat (2 ^ dims)) && (key j <? m)) s n.
Proof.
  intros Hs Hn Hm. rewrite pow2_of_nat.
  assert (Hkey : forall j, s <= j < s + Z.of_nat n ->
            (if ext then -1 else 0) <= key j < 2 ^ Z.of_nat dims).
  { intros j Hj. apply (wf_key pb bb ext dims st Hwf). lia. }
  clear Hwf. destruct ext.
  - destruct (Z.geb_spec m 0) as [Hge | Hlt].
    + rewrite <- count_in_or.
      * apply count_in_ext. intros j Hj. specialize (Hkey j Hj).
        destruct (Z.eqb_spec (key j) (-1)) as [E | E].
        -- rewrite E. cbn [orb]. apply Z.ltb_lt. lia.
        -- cbn [orb].
           replace (0 <=? key j) with true by (symmetry; apply Z.leb_le; lia).
           replace (key j <? 2 ^ Z.of_nat dims) with true by (symmetry; apply Z.ltb_lt; lia).
           reflexivity.
      * intros j _ Hj. apply Z.eqb_eq in Hj. rewrite Hj. reflexivity.
    + rewrite Z.add_0_l. apply count_in_ext. intros j Hj. specialize (Hkey j Hj).
      replace (key j <? m) with false by (symmetry; apply Z.ltb_ge; lia).
      now rewrite andb_false_r.
  - rewrite Z.add_0_l. apply count_in_ext. intros j Hj. specialize (Hkey j Hj).
    replace (0 <=? key j) with true by (symmetry; apply Z.leb_le; lia).
    replace (key j <? 2 ^ Z.of_nat dims) with true by (symmetry; apply Z.ltb_lt; lia).
    reflexivity.
Qed.

(** The new index is the start of the box plus the rank of the particle
    in the order by Morton number and old index. *)
Lemma new_particle_idx_rank (i : Z) :
  0 <= i < Z.of_nat N -> box_is_current ext st (box i) = true ->
  new_particle_idx pb ext dims st i
    = start (box i) + rank_in_box (fun j => key j) (start (box i)) (Z.to_nat (count (box i))) i.
Proof.
  intros Hi Hcur.
  pose proof (wf_box pb bb ext dims st Hwf i Hi Hcur) as [_ [_ [_ [Hs [Hn _]]]]].
  pose proof (wf_key pb bb ext dims st Hwf i Hi) as Hkey.
  destruct (box_counts_totals i Hi Hcur) as [Htot Hnct].
  set (s := start (box i)) in *. set (n := Z.to_nat (count (box i))) in *.
  set (k := Z.to_nat (i - s)).
  assert (Hik : i = s + Z.of_nat k) by lia.
  pose proof (my_count_prefix i k Hi Hcur ltac:(lia)) as Hmc.
  fold s in Hmc. rewrite <- Hik in Hmc.
  rewrite (count_in_prefix _ s (S k) n) in Hmc by lia.
  replace (s + Z.of_nat (S k)) with (i + 1) in Hmc by lia.
  pose proof (rank_decomposition (fun j => key j) s n i ltac:(lia)) as Hrank.
  pose proof (rank_bounds (fun j => key j) s n i ltac:(lia)) as Hrb.
  cbn beta in Hrank.
  rewrite (smaller_keys s n (key i)) in Hrank by lia.
  rewrite <- sum_smaller_octant_counts in Hrank.
  set (c := count_in (fun j => (key j =? key i) && (j <? i + 1)) s n) in *.
  assert (Hc : 1 <= c).
  { pose proof (count_in_single s n i ltac:(lia)) as Hone.
    assert (Hle : count_in (fun j => j =? i) s n <= c); [| lia].
    apply count_in_le. intros j _ Hj. apply Z.eqb_eq in Hj. rewrite Hj.
    rewrite Z.eqb_refl. apply Z.ltb_lt. lia. }
  set (t := fun mnr => if key i >? Z.of_nat mnr
                       then fld (pcnt (box_counts pb ext dims st (box i))) mnr else 0).
  assert (Hsum : sum_terms t (mnrs dims)
                 = sum_terms (fun mnr => if key i >? Z.of_nat mnr
                                         then count_in (fun j => key j =? Z.of_nat mnr) s n
                                         else 0) (seq 0 (2 ^ dims))).
  { apply sum_terms_ext. intros mnr Hmnr. unfold t.
    destruct (key i >? Z.of_nat mnr); [apply Htot; exact Hmnr | reflexivity]. }
  assert (Hnn : forall mnr, In mnr (mnrs dims) -> 0 <= t mnr).
  { intros mnr Hmnr. unfold t. destruct (key i >? Z.of_nat mnr); [| lia].
    rewrite Htot by exact Hmnr. apply count_in_bounds. }
  assert (Hpos : 0 <= sum_terms t (mnrs dims)) by (apply sum_terms_nonneg; exact Hnn).
  pose proof (count_in_bounds (fun j => key j =? -1) s n) as Hncb.
  pose proof small_in_range as Hsmall.
  unfold new_particle_idx. fold s. rewrite Hmc.
  change (fold_left (fun idx mnr => wrap pb (idx + t mnr)) (mnrs dims)
            (if ext
             then wrap pb (wrap pb (wrap pb (s + c) - 1)
                           + (if key i >=? 0
                              then nonchild_srcntgts (box_counts pb ext dims st (box i))
                              else 0))
             else wrap pb (wrap pb (s + c) - 1))
          = s + rank_in_box (fun j => key j) s n i).
  rewrite Hnct. rewrite <- Hsum in Hrank. clear Hsum Hnct Htot Hmc.
  rewrite (wrap_small pb (s + c)) by (apply Hsmall; destruct ext, (key i >=? 0); lia).
  rewrite (wrap_small pb (s + c - 1)) by (apply Hsmall; destruct ext, (key i >=? 0); lia).
  destruct ext.
  - rewrite (wrap_small pb (s + c - 1 + _)) by (apply Hsmall; destruct (key i >=? 0); lia).
    rewrite (fold_wrap_sum pb t); [lia | exact Hnn | | ].
    + assert (in_range pb 0) as [Hmin _] by (apply Hsmall; lia).
      destruct (key i >=? 0); lia.
    + assert (in_range pb (Z.of_nat N)) as [_ Hmax] by (apply Hsmall; lia).
      destruct (key i >=? 0); lia.
  - rewrite (fold_wrap_sum pb t); [lia | exact Hnn | | ].
    + assert (in_range pb 0) as [Hmin _] by (apply Hsmall; lia). lia.
    + assert (in_range pb (Z.of_nat N)) as [_ Hmax] by (apply Hsmall; lia). lia.
Qed.

End MortonScanFacts.

(** ** Split-and-sort as a permutation *)

Section SplitAndSortFacts.

Variables pb bb : positive.
Variables ext adaptive : bool.
Variable dims : nat.
Variable st : level_args.
Hypothesis Hwf : wf_level pb bb ext dims st = true.

#[local] Abbreviation N := (nsrcntgts st).
#[local] Abbreviation key j := (rd 0 (morton_nrs st) j).
#[local] Abbreviation box j := (rd 0 (srcntgt_box_ids st) j).
#[local] Abbreviation start b := (rd 0 (box_srcntgt_starts st) b).
#[local] Abbreviation count b := (rd 0 (box_srcntgt_counts_cumul st) b).
#[local] Abbreviation lane i := (split_and_sort pb bb ext adaptive dims st i).
#[local] Abbreviation splits b := (do_split_box pb bb ext adaptive dims st b).

Lemma splits_current (b : Z) : splits b = true -> box_is_current ext st b = true.
Proof.
  unfold do_split_box, box_is_current. intros H. apply andb_true_iff in H. apply H.
Qed.

Lemma lane_nosplit (i : Z) :
  splits (box i) = false ->
  lane i = {| tgt_particle_idx := i;
              new_user_srcntgt_id := rd 0 (user_srcntgt_ids st) i;
              new_srcntgt_box_id := box i;
              child_box := None |}.
Proof. intros H. unfold split_and_sort. rewrite H. reflexivity. Qed.

Lemma tgt_split (i : Z) :
  0 <= i < Z.of_nat N -> splits (box i) = true ->
  tgt_particle_idx (lane i)
    = start (box i)
      + rank_in_box (fun j => key j) (start (box i)) (Z.to_nat (count (box i))) i.
Proof.
  intros Hi H. unfold split_and_sort. rewrite H. cbn [tgt_particle_idx].
  apply (new_particle_idx_rank pb bb ext dims st Hwf i Hi). apply splits_current, H.
Qed.

Lemma tgt_split_range (i : Z) :
  0 <= i < Z.of_nat N -> splits (box i) = true ->
  start (box i) <= tgt_particle_idx (lane i) < start (box i) + count (box i).
Proof.
  intros Hi H. rewrite tgt_split by assumption.
  pose proof (wf_box pb bb ext dims st Hwf i Hi (splits_current _ H)) as [_ [_ [_ [Hs [Hn _]]]]].
  pose proof (rank_bounds (fun j => key j) (start (box i)) (Z.to_nat (count (box i))) i
                ltac:(lia)).
  lia.
Qed.

(** The new slot of a particle of a splitting box belongs to that box. *)
Lemma tgt_split_box (i : Z) :
  0 <= i < Z.of_nat N -> splits (box i) = true ->
  0 <= tgt_particle_idx (lane i) < Z.of_nat N
  /\ box (tgt_particle_idx (lane i)) = box i.
Proof.
  intros Hi H. pose proof (tgt_split_range i Hi H) as Hr.
  pose proof (wf_box pb bb ext dims st Hwf i Hi (splits_current _ H))
    as [_ [_ [_ [Hs [Hn Hrange]]]]].
  split; [lia | apply Hrange; exact Hr].
Qed.

Lemma tgt_in_range (i : Z) :
  0 <= i < Z.of_nat N -> 0 <= tgt_particle_idx (lane i) < Z.of_nat N.
Proof.
  intros Hi. destruct (splits (box i)) eqn:H.
  - apply tgt_split_box; assumption.
  - rewrite lane_nosplit by exact H. exact Hi.
Qed.

(** No two lanes store to the same slot. *)
Lemma tgt_inj (i j : Z) :
  0 <= i < Z.of_nat N -> 0 <= j < Z.of_nat N ->
  tgt_particle_idx (lane i) = tgt_particle_idx (lane j) -> i = j.
Proof.
  intros Hi Hj Heq.
  destruct (splits (box i)) eqn:Si; destruct (splits (box j)) eqn:Sj.
  - destruct (tgt_split_box i Hi Si) as [_ Hbi]. destruct (tgt_split_box j Hj Sj) as [_ Hbj].
    rewrite Heq, Hbj in Hbi.
    pose proof (wf_box pb bb ext dims st Hwf i Hi (splits_current _ Si))
      as [_ [_ [_ [Hs [Hn _]]]]].
    pose proof (wf_box pb bb ext dims st Hwf j Hj (splits_current _ Sj))
      as [_ [_ [_ [Hs' [Hn' _]]]]].
    rewrite (tgt_split i), (tgt_split j) in Heq by assumption.
    rewrite Hbi in *.
    apply (rank_inj (fun j => key j) (start (box i)) (Z.to_nat (count (box i)))); lia.
  - destruct (tgt_split_box i Hi Si) as [_ Hbi].
    rewrite (lane_nosplit j Sj) in Heq. cbn [tgt_particle_idx] in Heq.
    rewrite Heq in Hbi. congruence.
  - destruct (tgt_split_box j Hj Sj) as [_ Hbj].
    rewrite (lane_nosplit i Si) in Heq. cbn [tgt_particle_idx] in Heq.
    rewrite <- Heq in Hbj. congruence.
  - rewrite (lane_nosplit i Si), (lane_nosplit j Sj) in Heq. exact Heq.
Qed.

Lemma tgt_permutation :
  Permutation (map tgt_particle_idx (split_and_sort_lanes pb bb ext adaptive dims st))
              (iota N).
Proof.
  unfold split_and_sort_lanes. rewrite map_map.
  apply NoDup_Permutation_bis.
  - apply NoDup_map_NoDup_ForallPairs; [| apply NoDup_iota].
    intros i j Hi Hj Heq. apply in_iota in Hi, Hj. apply tgt_inj; assumption.
  - rewrite length_map. apply Nat.le_refl.
  - intros k Hk. apply in_map_iff in Hk. destruct Hk as [i [<- Hi]].
    apply in_iota in Hi. apply in_iota. apply tgt_in_range. exact Hi.
Qed.

(** Every slot of the range of a splitting box is taken by a particle of
    that box. *)
Lemma tgt_onto_box (i k : Z) :
  0 <= i < Z.of_nat N -> splits (box i) = true ->
  start (box i) <= k < start (box i) + count (box i) ->
  exists j, 0 <= j < Z.of_nat N /\ box j = box i /\ tgt_particle_idx (lane j) = k.
Proof.
  intros Hi H Hk.
  pose proof (wf_box pb bb ext dims st Hwf i Hi (splits_current _ H))
    as [_ [_ [_ [Hs [Hn Hrange]]]]].
  assert (Hin : In k (map tgt_particle_idx (split_and_sort_lanes pb bb ext adaptive dims st))).
  { eapply Permutation_in; [apply Permutation_sym, tgt_permutation |]. apply in_iota. lia. }
  unfold split_and_sort_lanes in Hin. rewrite map_map in Hin.
  apply in_map_iff in Hin. destruct Hin as [j [Hj Hjin]]. apply in_iota in Hjin.
  exists j. split; [exact Hjin |]. split; [| exact Hj].
  destruct (Hrange k Hk) as [Hbk _].
  destruct (splits (box j)) eqn:Sj.
  - destruct (tgt_split_box j Hjin Sj) as [_ Hbj]. rewrite Hj in Hbj. congruence.
  - rewrite (lane_nosplit j Sj) in Hj. cbn [tgt_particle_idx] in Hj. subst k. exact Hbk.
Qed.

End SplitAndSortFacts.

(** C1. In a level that the driver starts well-formed, the split-and-sort
    pass stores to each slot of the new particle arrays exactly once; a
    particle of a box that does not split keeps index and box id; the
    particles of a box that splits fill the range of that box, ordered by
    Morton number (non-child particles, of Morton number -1, first) and,
    within one Morton number, by their old index. *)
Theorem split_and_sort_writes_each_slot_once
    (pb bb : positive) (ext adaptive : bool) (dims : nat) (st : level_args) :
  wf_level pb bb ext dims st = true ->
  Permutation (map tgt_particle_idx (split_and_sort_lanes pb bb ext adaptive dims st))
              (iota (nsrcntgts st))
  /\ (forall i, 0 <= i < Z.of_nat (nsrcntgts st) ->
        do_split_box pb bb ext adaptive dims st (rd 0 (srcntgt_box_ids st) i) = false ->
        tgt_particle_idx (split_and_sort pb bb ext adaptive dims st i) = i
        /\ new_srcntgt_box_id (split_and_sort pb bb ext adaptive dims st i)
           = rd 0 (srcntgt_box_ids st) i)
  /\ (forall i, 0 <= i < Z.of_nat (nsrcntgts st) ->
        do_split_box pb bb ext adaptive dims st (rd 0 (srcntgt_box_ids st) i) = true ->
        let s := rd 0 (box_srcntgt_starts st) (rd 0 (srcntgt_box_ids st) i) in
        let n := rd 0 (box_srcntgt_counts_cumul st) (rd 0 (srcntgt_box_ids st) i) in
        s <= tgt_particle_idx (split_and_sort pb bb ext adaptive dims st i) < s + n
        /\ (forall k, s <= k < s + n ->
              exists j, 0 <= j < Z.of_nat (nsrcntgts st)
                /\ rd 0 (srcntgt_box_ids st) j = rd 0 (srcntgt_box_ids st) i
                /\ tgt_particle_idx (split_and_sort pb bb ext adaptive dims st j) = k)
        /\ (forall j, i < j < Z.of_nat (nsrcntgts st) ->
              rd 0 (srcntgt_box_ids st) j = rd 0 (srcntgt_box_ids st) i ->
              (tgt_particle_idx (split_and_sort pb bb ext adaptive dims st i)
                 < tgt_particle_idx (split_and_sort pb bb ext adaptive dims st j)
               <-> rd 0 (morton_nrs st) i <= rd 0 (morton_nrs st) j))).
Proof.
  intros Hwf. split; [| split].
  - apply tgt_permutation. exact Hwf.
  - intros i Hi Hs. rewrite lane_nosplit by exact Hs. split; reflexivity.
  - intros i Hi Hs s n. split; [| split].
    + apply tgt_split_range; assumption.
    + intros k Hk. apply tgt_onto_box; assumption.
    + intros j Hj Hbox.
      assert (Hsj : do_split_box pb bb ext adaptive dims st (rd 0 (srcntgt_box_ids st) j) = true)
        by (rewrite Hbox; exact Hs).
      pose proof (wf_box pb bb ext dims st Hwf i Hi (splits_current _ _ _ _ _ _ _ Hs))
        as [_ [_ [_ [Hsi [Hni _]]]]].
      pose proof (wf_box pb bb ext dims st Hwf j ltac:(lia) (splits_current _ _ _ _ _ _ _ Hsj))
        as [_ [_ [_ [Hsj' [Hnj _]]]]].
      rewrite (tgt_split pb bb ext adaptive dims st Hwf i) by assumption.
      rewrite (tgt_split pb bb ext adaptive dims st Hwf j) by (try assumption; lia).
      rewrite Hbox in *.
      pose proof (rank_order (fun j => rd 0 (morton_nrs st) j)
                    (rd 0 (box_srcntgt_starts st) (rd 0 (srcntgt_box_ids st) i))
                    (Z.to_nat (rd 0 (box_srcntgt_counts_cumul st) (rd 0 (srcntgt_box_ids st) i)))
                    i j ltac:(lia) ltac:(lia) ltac:(lia)) as Hord.
      cbn beta in Hord. rewrite <- Hord. lia.
Qed.

Lemma split_and_sort_writes_each_slot_once_witness :
  wf_level 32 32 true 1 sample_level = true
  /\ Permutation (map tgt_particle_idx (split_and_sort_lanes 32 32 true true 1 sample_level))
                 (iota (nsrcntgts sample_level)).
Proof.
  split; [vm_compute; reflexivity |].
  apply (split_and_sort_writes_each_slot_once 32 32 true true 1 sample_level).
  vm_compute. reflexivity.
Defined.

(** ** The split box id scan *)

Lemma psum_snoc (xs : list Z) (k : nat) :
  (k < length xs)%nat -> psum xs (S k) = psum xs k + nth k xs 0.
Proof.
  revert k. induction xs as [| x xs IH]; intros k Hk; simpl in Hk; [lia |].
  destruct k as [| k].
  - unfold psum. simpl. lia.
  - rewrite (psum_S x xs (S k)), (psum_S x xs k), IH by lia. cbn [nth]. lia.
Qed.

Lemma psum_mono (xs : list Z) (k k' : nat) :
  (forall j, (j < length xs)%nat -> 0 <= nth j xs 0) ->
  (k <= k')%nat -> (k' <= length xs)%nat -> psum xs k <= psum xs k'.
Proof.
  intros Hpos Hle Hk'. induction k' as [| k' IH].
  - replace k with 0%nat by lia. lia.
  - destruct (Nat.eq_dec k (S k')) as [-> | Hne]; [lia |].
    rewrite psum_snoc by lia. specialize (Hpos k' ltac:(lia)).
    specialize (IH ltac:(lia) ltac:(lia)). lia.
Qed.

Section SplitScanFacts.

Variables pb bb : positive.
Variables ext adaptive : bool.
Variable dims : nat.
Variable st : level_args.
Hypothesis Hwf : wf_level pb bb ext dims st = true.

#[local] Abbreviation N := (nsrcntgts st).
#[local] Abbreviation key j := (rd 0 (morton_nrs st) j).
#[local] Abbreviation box j := (rd 0 (srcntgt_box_ids st) j).
#[local] Abbreviation start b := (rd 0 (box_srcntgt_starts st) b).
#[local] Abbreviation count b := (rd 0 (box_srcntgt_counts_cumul st) b).
#[local] Abbreviation splits b := (do_split_box pb bb ext adaptive dims st b).
#[local] Abbreviation test i := (split_test pb ext adaptive dims st i (box i)).
#[local] Abbreviation inputs := (split_scan_inputs pb bb ext adaptive dims st).
#[local] Abbreviation two_d := (2 ^ Z.of_nat dims).

Lemma two_d_pos : 0 < two_d.
Proof. apply pow2_pos. lia. Qed.

(** What one particle contributes to the scan. *)
Lemma split_scan_input_value (i : Z) :
  0 <= i < Z.of_nat N ->
  fst (split_scan_input pb bb ext adaptive dims st i)
    = (if i =? 0 then nboxes st else 0) + (if test i then two_d else 0).
Proof.
  intros Hi. destruct (wf_sizes pb bb ext dims st Hwf) as [_ [Hnb Hmax]].
  pose proof two_d_pos as Htd.
  assert (Hmin : min_int bb <= 0).
  { unfold min_int. pose proof (pow2_pos (Z.pos bb - 1)). lia. }
  assert (Hbound : nboxes st + two_d <= max_int bb) by nia.
  unfold split_scan_input, count_new_boxes_needed.
  rewrite (wrap_small bb (0 + nboxes st)) by (unfold in_range; lia).
  destruct (test i); cbn [fst]; [| destruct (i =? 0); lia].
  rewrite wrap_small; [destruct (i =? 0); lia |].
  unfold in_range. destruct (i =? 0); lia.
Qed.

Lemma length_inputs : length inputs = N.
Proof. unfold split_scan_inputs. rewrite length_map, length_iota. reflexivity. Qed.

Lemma nth_inputs (k : nat) :
  (k < N)%nat ->
  nth k inputs 0
    = (if Z.of_nat k =? 0 then nboxes st else 0) + (if test (Z.of_nat k) then two_d else 0).
Proof.
  intros Hk. unfold split_scan_inputs. rewrite nth_map_iota by exact Hk.
  apply split_scan_input_value. lia.
Qed.

Lemma inputs_nonneg (k : nat) : (k < length inputs)%nat -> 0 <= nth k inputs 0.
Proof.
  rewrite length_inputs. intros Hk. rewrite nth_inputs by exact Hk.
  destruct (wf_sizes pb bb ext dims st Hwf) as [_ [Hnb _]]. pose proof two_d_pos.
  destruct (Z.of_nat k =? 0), (test (Z.of_nat k)); lia.
Qed.

Lemma psum_inputs_bounds (k : nat) :
  (k <= N)%nat -> 0 <= psum inputs k <= nboxes st + two_d * Z.of_nat k.
Proof.
  destruct (wf_sizes pb bb ext dims st Hwf) as [_ [Hnb _]]. pose proof two_d_pos as Htd.
  induction k as [| k IH]; intros Hk.
  - unfold psum. simpl. lia.
  - rewrite psum_snoc by (rewrite length_inputs; lia).
    rewrite nth_inputs by lia. specialize (IH ltac:(lia)).
    destruct (Z.eqb_spec (Z.of_nat k) 0) as [E | E].
    + assert (k = 0%nat) by lia. subst k. unfold psum in *. simpl firstn in *.
      cbn [fold_right] in *. destruct (test (Z.of_nat 0)); lia.
    + destruct (test (Z.of_nat k)); lia.
Qed.

Lemma psum_inputs_in_range (k : nat) :
  (k <= length inputs)%nat -> in_range bb (psum inputs k).
Proof.
  rewrite length_inputs. intros Hk. pose proof (psum_inputs_bounds k Hk) as Hb.
  destruct (wf_sizes pb bb ext dims st Hwf) as [_ [Hnb Hmax]]. pose proof two_d_pos as Htd.
  unfold in_range, min_int. pose proof (pow2_pos (Z.pos bb - 1)).
  assert (two_d * Z.of_nat k <= two_d * Z.of_nat N) by nia. lia.
Qed.

(** [split_box_ids[i]] is the inclusive prefix sum of the contributions. *)
Lemma split_box_ids_inclusive (i : nat) :
  (i < N)%nat ->
  rd 0 (split_box_ids pb bb ext adaptive dims st) (Z.of_nat i) = psum inputs (S i).
Proof.
  intros Hi. unfold split_box_ids.
  rewrite scan_items_add by (intros k Hk; apply psum_inputs_in_range; exact Hk).
  rewrite length_inputs, rd_map_seq by exact Hi. reflexivity.
Qed.

(** Only the first particle of a box passes the test. *)
Lemma test_only_first (i : Z) : test i = true -> i = start (box i).
Proof.
  unfold split_test. intros H. rewrite !andb_true_iff in H.
  destruct H as [[H _] _]. apply Z.eqb_eq in H. exact H.
Qed.

(** Inside a current box all particles see the same [split_box_id]. *)
Lemma psum_constant_in_box (i0 : Z) (k : nat) :
  0 <= i0 < Z.of_nat N -> box_is_current ext st (box i0) = true ->
  Z.of_nat k < count (box i0) ->
  psum inputs (S (Z.to_nat (start (box i0)) + k))
    = psum inputs (S (Z.to_nat (start (box i0)))).
Proof.
  intros Hi0 Hcur.
  pose proof (wf_box pb bb ext dims st Hwf i0 Hi0 Hcur) as [_ [_ [_ [Hs [Hn Hrange]]]]].
  induction k as [| k IH]; intros Hk.
  - rewrite Nat.add_0_r. reflexivity.
  - rewrite <- IH by lia.
    replace (S (Z.to_nat (start (box i0)) + S k)) with (S (S (Z.to_nat (start (box i0)) + k)))
      by lia.
    rewrite (psum_snoc inputs (S (Z.to_nat (start (box i0)) + k)))
      by (rewrite length_inputs; lia).
    rewrite nth_inputs by lia.
    replace (Z.of_nat (S (Z.to_nat (start (box i0)) + k)) =? 0) with false
      by (symmetry; apply Z.eqb_neq; lia).
    destruct (test (Z.of_nat (S (Z.to_nat (start (box i0)) + k)))) eqn:Et; [| lia].
    apply test_only_first in Et.
    destruct (Hrange (Z.of_nat (S (Z.to_nat (start (box i0)) + k))) ltac:(lia)) as [Hb _].
    rewrite Hb in Et. lia.
Qed.

Lemma split_box_id_in_box (i : Z) :
  0 <= i < Z.of_nat N -> box_is_current ext st (box i) = true ->
  rd 0 (split_box_ids pb bb ext adaptive dims st) i
    = psum inputs (S (Z.to_nat (start (box i)))).
Proof.
  intros Hi Hcur.
  pose proof (wf_box pb bb ext dims st Hwf i Hi Hcur) as [_ [_ [_ [Hs [Hn _]]]]].
  replace i with (Z.of_nat (Z.to_nat i)) at 1 by lia.
  rewrite split_box_ids_inclusive by lia.
  rewrite <- (psum_constant_in_box i (Z.to_nat (i - start (box i)))) by (try assumption; lia).
  f_equal. lia.
Qed.

(** A box that splits on this level got its mark from its first particle. *)
Lemma splits_first_passes (i : Z) :
  0 <= i < Z.of_nat N -> splits (box i) = true -> test (start (box i)) = true.
Proof.
  intros Hi H.
  pose proof H as Hcur. unfold do_split_box in Hcur. apply andb_true_iff in Hcur.
  destruct Hcur as [Hmark Hcur]. fold (box_is_current ext st (box i)) in Hcur.
  pose proof (wf_box pb bb ext dims st Hwf i Hi Hcur) as [_ [_ [Hzero [Hs [Hn Hrange]]]]].
  apply negb_true_iff, Z.eqb_neq in Hmark.
  destruct (in_dec Z.eq_dec (box i)
              (map fst (box_has_children_writes pb bb ext adaptive dims st))) as [Hin | Hnot].
  - apply in_map_iff in Hin. destruct Hin as [[b v] [Hb Hin]]. cbn [fst] in Hb. subst b.
    unfold box_has_children_writes in Hin. apply in_flat_map in Hin.
    destruct Hin as [j [Hj Hw]]. apply in_iota in Hj.
    unfold split_scan_input, count_new_boxes_needed in Hw.
    destruct (test j) eqn:Et; cbn [snd] in Hw; [| contradiction].
    destruct Hw as [Hw | []]. injection Hw as Hbj _.
    pose proof (test_only_first j Et) as Hfirst.
    rewrite Hbj in Hfirst. rewrite <- Hfirst. exact Et.
  - exfalso. apply Hmark. unfold box_has_children_out.
    rewrite apply_writes_untouched by exact Hnot. exact Hzero.
Qed.

(** The [2^d] new box ids of a splitting box lie below its [split_box_id]
    and above everything counted before its first particle. *)
Lemma split_box_id_room (i : Z) :
  0 <= i < Z.of_nat N -> splits (box i) = true ->
  psum inputs (Z.to_nat (start (box i))) + two_d
    <= rd 0 (split_box_ids pb bb ext adaptive dims st) i.
Proof.
  intros Hi H. pose proof (splits_current pb bb ext adaptive dims st _ H) as Hcur.
  pose proof (wf_box pb bb ext dims st Hwf i Hi Hcur) as [_ [_ [_ [Hs [Hn _]]]]].
  rewrite split_box_id_in_box by assumption.
  rewrite psum_snoc by (rewrite length_inputs; lia).
  rewrite nth_inputs by lia. rewrite Z2Nat.id by lia.
  rewrite (splits_first_passes i Hi H).
  destruct (wf_sizes pb bb ext dims st Hwf) as [_ [Hnb _]].
  destruct (start (box i) =? 0); lia.
Qed.

End SplitScanFacts.

(** ** The child boxes that split-and-sort creates *)

Lemma find_unique {A : Type} (f : A -> bool) (l : list A) (x : A) :
  In x l -> f x = true -> (forall y, In y l -> f y = true -> y = x) -> find f l = Some x.
Proof.
  induction l as [| h t IH]; intros Hin Hx Huniq; [contradiction |].
  cbn [find]. destruct (f h) eqn:Eh.
  - f_equal. apply Huniq; [left; reflexivity | exact Eh].
  - destruct Hin as [-> | Hin]; [congruence |].
    apply IH; [exact Hin | exact Hx |]. intros y Hy. apply Huniq. right. exact Hy.
Qed.

(** If [p] holds somewhere in a range, it holds a last time. *)
Lemma last_occurrence (p : Z -> bool) (s : Z) (n : nat) :
  0 < count_in p s n ->
  exists i, s <= i < s + Z.of_nat n /\ p i = true
    /\ count_in (fun j => p j && (j <? i + 1)) s n = count_in p s n.
Proof.
  induction n as [| n IH]; cbn [count_in]; intros Hpos; [lia |].
  destruct (p (s + Z.of_nat n)) eqn:Ep.
  - exists (s + Z.of_nat n). split; [lia |]. split; [exact Ep |].
    rewrite (count_in_ext _ p s n).
    + replace (s + Z.of_nat n <? s + Z.of_nat n + 1) with true
        by (symmetry; apply Z.ltb_lt; lia).
      reflexivity.
    + intros j Hj. replace (j <? s + Z.of_nat n + 1) with true
        by (symmetry; apply Z.ltb_lt; lia).
      apply andb_true_r.
  - destruct IH as [i [Hi [Hp Hc]]]; [lia |].
    exists i. split; [lia |]. split; [exact Hp |].
    rewrite Hc. cbn [andb]. lia.
Qed.

Lemma in_mnrs (d mnr : nat) : In mnr (mnrs d) <-> Z.of_nat mnr < 2 ^ Z.of_nat d.
Proof.
  unfold mnrs. rewrite in_seq.
  pose proof (Nat2Z.inj_pow 2 d) as Hp. change (Z.of_nat 2) with 2 in Hp. lia.
Qed.

Section ChildBoxFacts.

Variables pb bb : positive.
Variables ext adaptive : bool.
Variable dims : nat.
Variable st : level_args.
Hypothesis Hwf : wf_level pb bb ext dims st = true.

#[local] Abbreviation N := (nsrcntgts st).
#[local] Abbreviation key j := (rd 0 (morton_nrs st) j).
#[local] Abbreviation box j := (rd 0 (srcntgt_box_ids st) j).
#[local] Abbreviation start b := (rd 0 (box_srcntgt_starts st) b).
#[local] Abbreviation count b := (rd 0 (box_srcntgt_counts_cumul st) b).
#[local] Abbreviation lane i := (split_and_sort pb bb ext adaptive dims st i).
#[local] Abbreviation splits b := (do_split_box pb bb ext adaptive dims st b).
#[local] Abbreviation inputs := (split_scan_inputs pb bb ext adaptive dims st).
#[local] Abbreviation two_d := (2 ^ Z.of_nat dims).
#[local] Abbreviation split_id i := (rd 0 (split_box_ids pb bb ext adaptive dims st) i).
#[local] Abbreviation total b mnr := (fld (pcnt (box_counts pb ext dims st b)) mnr).
#[local] Abbreviation my_count i :=
  (get_count ext dims (morton_item pb ext dims st i) (key i)).

(** What a lane that writes a child box record has found. *)
Lemma child_box_inv (i : Z) (cb : child_box_t) :
  child_box (lane i) = Some cb ->
  splits (box i) = true
  /\ 0 <= key i < two_d
  /\ total (box i) (Z.to_nat (key i)) = my_count i
  /\ cb = {| new_box_id := new_box_id_of pb bb ext adaptive dims st i;
             new_box_start := new_box_start cb;
             new_box_parent_id := box i;
             new_box_morton_nr := key i;
             new_count := total (box i) (Z.to_nat (key i));
             new_box_level := level st;
             oversize := fld (pwt (box_counts pb ext dims st (box i))) (Z.to_nat (key i))
                         >? max_leaf_refine_weight st |}.
Proof.
  unfold split_and_sort. destruct (splits (box i)) eqn:Hs; cbn [child_box]; [| discriminate].
  unfold child_box_of.
  destruct (find _ (mnrs dims)) as [mnr |] eqn:Ef; [| discriminate].
  intros Hcb. injection Hcb as <-. cbn [new_box_start].
  apply find_some in Ef. destruct Ef as [Hin Hp].
  apply andb_true_iff in Hp. destruct Hp as [Hk Ht].
  apply Z.eqb_eq in Hk, Ht. apply in_mnrs in Hin.
  assert (Hmnr : Z.to_nat (key i) = mnr) by lia.
  rewrite Hmnr. repeat split; solve [lia | exact Ht].
Qed.

(** A lane writes a child box record exactly if its count equals the
    total of its octant. *)
Lemma child_box_iff (i : Z) :
  splits (box i) = true -> 0 <= key i < two_d ->
  (child_box (lane i) <> None <-> my_count i = total (box i) (Z.to_nat (key i))).
Proof.
  intros Hs Hk. split.
  - intros Hne. destruct (child_box (lane i)) as [cb |] eqn:Ecb; [| congruence].
    destruct (child_box_inv i cb Ecb) as [_ [_ [Ht _]]]. symmetry. exact Ht.
  - intros Heq. unfold split_and_sort. rewrite Hs. cbn [child_box]. unfold child_box_of.
    rewrite (find_unique _ _ (Z.to_nat (key i))); [discriminate | | |].
    + apply in_mnrs. lia.
    + apply andb_true_iff. split; apply Z.eqb_eq; [lia | symmetry; exact Heq].
    + intros y _ Hy. apply andb_true_iff in Hy. destruct Hy as [Hy _].
      apply Z.eqb_eq in Hy. lia.
Qed.

(** The id of the child box of a particle with an octant. *)
Lemma new_box_id_value (i : Z) :
  0 <= i < Z.of_nat N -> splits (box i) = true -> 0 <= key i < two_d ->
  new_box_id_of pb bb ext adaptive dims st i = split_id i - two_d + key i.
Proof.
  intros Hi Hs Hk.
  pose proof (splits_current pb bb ext adaptive dims st _ Hs) as Hcur.
  pose proof (wf_box pb bb ext dims st Hwf i Hi Hcur) as [_ [_ [_ [Hsi [Hni _]]]]].
  pose proof (split_box_id_room pb bb ext adaptive dims st Hwf i Hi Hs) as Hroom.
  pose proof (psum_inputs_bounds pb bb ext adaptive dims st Hwf
                (Z.to_nat (start (box i))) ltac:(lia)) as [Hlo _].
  pose proof (split_box_id_in_box pb bb ext adaptive dims st Hwf i Hi Hcur) as Hid.
  pose proof (psum_inputs_in_range pb bb ext adaptive dims st Hwf
                (S (Z.to_nat (start (box i))))
                ltac:(rewrite length_inputs; lia)) as [_ Hhi].
  rewrite <- Hid in Hhi.
  assert (Hmin : min_int bb <= 0).
  { unfold min_int. pose proof (pow2_pos (Z.pos bb - 1)). lia. }
  unfold new_box_id_of.
  replace (ext && (key i =? -1)) with false
    by (symmetry; apply andb_false_iff; right; apply Z.eqb_neq; lia).
  rewrite (wrap_small bb (split_id i - two_d)) by (unfold in_range; lia).
  apply wrap_small. unfold in_range. lia.
Qed.

(** Child boxes of different boxes have different ids. *)
Lemma child_ids_of_same_box (i j : Z) :
  0 <= i < Z.of_nat N -> 0 <= j < Z.of_nat N ->
  splits (box i) = true -> splits (box j) = true ->
  0 <= key i < two_d -> 0 <= key j < two_d ->
  split_id i - two_d + key i = split_id j - two_d + key j ->
  box i = box j.
Proof.
  intros Hi Hj Hsi Hsj Hki Hkj Heq.
  pose proof (splits_current pb bb ext adaptive dims st _ Hsi) as Hci.
  pose proof (splits_current pb bb ext adaptive dims st _ Hsj) as Hcj.
  pose proof (wf_box pb bb ext dims st Hwf i Hi Hci) as [_ [_ [_ [Hs1 [Hn1 Hr1]]]]].
  pose proof (wf_box pb bb ext dims st Hwf j Hj Hcj) as [_ [_ [_ [Hs2 [Hn2 Hr2]]]]].
  pose proof (split_box_id_room pb bb ext adaptive dims st Hwf i Hi Hsi) as Hroom1.
  pose proof (split_box_id_room pb bb ext adaptive dims st Hwf j Hj Hsj) as Hroom2.
  pose proof (split_box_id_in_box pb bb ext adaptive dims st Hwf i Hi Hci) as Hid1.
  pose proof (split_box_id_in_box pb bb ext adaptive dims st Hwf j Hj Hcj) as Hid2.
  pose proof (inputs_nonneg pb bb ext adaptive dims st Hwf) as Hnn.
  pose proof (length_inputs pb bb ext adaptive dims st) as Hlen.
  destruct (Z.eq_dec (box i) (box j)) as [E | E]; [exact E | exfalso].
  destruct (Z.le_gt_cases (start (box i) + count (box i)) (start (box j))) as [H1 | H1].
  - pose proof (psum_mono inputs (S (Z.to_nat (start (box i)))) (Z.to_nat (start (box j)))
                  Hnn ltac:(lia) ltac:(lia)).
    lia.
  - destruct (Z.le_gt_cases (start (box j) + count (box j)) (start (box i))) as [H2 | H2].
    + pose proof (psum_mono inputs (S (Z.to_nat (start (box j)))) (Z.to_nat (start (box i)))
                    Hnn ltac:(lia) ltac:(lia)).
      lia.
    + destruct (Z.le_gt_cases (start (box i)) (start (box j))) as [H3 | H3].
      * destruct (Hr1 (start (box j)) ltac:(lia)) as [Hb1 _].
        destruct (Hr2 (start (box j)) ltac:(lia)) as [Hb2 _]. congruence.
      * destruct (Hr2 (start (box i)) ltac:(lia)) as [Hb2 _].
        destruct (Hr1 (start (box i)) ltac:(lia)) as [Hb1 _]. congruence.
Qed.

(** [my_count] as a count over the whole box. *)
Lemma my_count_in_box (i : Z) :
  0 <= i < Z.of_nat N -> box_is_current ext st (box i) = true ->
  my_count i
    = count_in (fun j => (key j =? key i) && (j <? i + 1))
        (start (box i)) (Z.to_nat (count (box i))).
Proof.
  intros Hi Hcur.
  pose proof (wf_box pb bb ext dims st Hwf i Hi Hcur) as [_ [_ [_ [Hs [Hn _]]]]].
  pose proof (my_count_prefix pb bb ext dims st Hwf i (Z.to_nat (i - start (box i)))
                Hi Hcur ltac:(lia)) as Hmc.
  replace (start (box i) + Z.of_nat (Z.to_nat (i - start (box i)))) with i in Hmc by lia.
  rewrite Hmc.
  rewrite (count_in_prefix _ _ _ (Z.to_nat (count (box i)))) by lia.
  apply count_in_ext. intros j _. do 2 f_equal. lia.
Qed.

(** Two particles of one octant of one box do not both see the total. *)
Lemma last_in_octant_unique (i j : Z) :
  0 <= i < Z.of_nat N -> 0 <= j < Z.of_nat N ->
  box_is_current ext st (box i) = true ->
  box i = box j -> key i = key j -> my_count i = my_count j -> i = j.
Proof.
  intros Hi Hj Hcur Hbox Hkey Heq.
  assert (Hcurj : box_is_current ext st (box j) = true) by (rewrite <- Hbox; exact Hcur).
  pose proof (wf_box pb bb ext dims st Hwf i Hi Hcur) as [_ [_ [_ [Hs1 [Hn1 _]]]]].
  pose proof (wf_box pb bb ext dims st Hwf j Hj Hcurj) as [_ [_ [_ [Hs2 [Hn2 _]]]]].
  rewrite (my_count_in_box i Hi Hcur), (my_count_in_box j Hj Hcurj) in Heq.
  rewrite <- Hbox, <- Hkey in *.
  destruct (Z.lt_trichotomy i j) as [Hlt | [E | Hgt]]; [exfalso | exact E | exfalso].
  - pose proof (count_in_lt (fun j' => (key j' =? key i) && (j' <? i + 1))
                  (fun j' => (key j' =? key i) && (j' <? j + 1))
                  (start (box i)) (Z.to_nat (count (box i))) j) as Hlt'.
    cbn beta in Hlt'. rewrite <- Hkey in Hlt' at 1 2. rewrite Z.eqb_refl in Hlt'.
    assert (count_in (fun j' => (key j' =? key i) && (j' <? i + 1))
              (start (box i)) (Z.to_nat (count (box i)))
            < count_in (fun j' => (key j' =? key i) && (j' <? j + 1))
                (start (box i)) (Z.to_nat (count (box i)))); [| lia].
    apply Hlt'.
    + intros j' _ H'. apply andb_true_iff in H'. destruct H' as [H1 H2].
      apply Z.ltb_lt in H2. rewrite H1. apply Z.ltb_lt. lia.
    + lia.
    + cbn [andb]. apply Z.ltb_ge. lia.
    + cbn [andb]. apply Z.ltb_lt. lia.
  - pose proof (count_in_lt (fun j' => (key j' =? key i) && (j' <? j + 1))
                  (fun j' => (key j' =? key i) && (j' <? i + 1))
                  (start (box i)) (Z.to_nat (count (box i))) i) as Hlt'.
    cbn beta in Hlt'. rewrite Z.eqb_refl in Hlt'.
    assert (count_in (fun j' => (key j' =? key i) && (j' <? j + 1))
              (start (box i)) (Z.to_nat (count (box i)))
            < count_in (fun j' => (key j' =? key i) && (j' <? i + 1))
                (start (box i)) (Z.to_nat (count (box i)))); [| lia].
    apply Hlt'.
    + intros j' _ H'. apply andb_true_iff in H'. destruct H' as [H1 H2].
      apply Z.ltb_lt in H2. rewrite H1. apply Z.ltb_lt. lia.
    + lia.
    + cbn [andb]. apply Z.ltb_ge. lia.
    + cbn [andb]. apply Z.ltb_lt. lia.
Qed.

End ChildBoxFacts.

(** C4. For every octant of a splitting box that holds particles, exactly
    one lane writes the record of that child box: the particle of the
    octant whose cumulative count equals the total of the octant. No other
    lane, of this or any other box, writes a record with that box id. *)
Theorem one_writer_per_child_box
    (pb bb : positive) (ext adaptive : bool) (dims : nat) (st : level_args) :
  wf_level pb bb ext dims st = true ->
  forall (i0 : Z) (mnr : nat),
    0 <= i0 < Z.of_nat (nsrcntgts st) ->
    do_split_box pb bb ext adaptive dims st (rd 0 (srcntgt_box_ids st) i0) = true ->
    In mnr (mnrs dims) ->
    fld (pcnt (box_counts pb ext dims st (rd 0 (srcntgt_box_ids st) i0))) mnr <> 0 ->
    exists (i : Z) (cb : child_box_t),
      0 <= i < Z.of_nat (nsrcntgts st)
      /\ rd 0 (srcntgt_box_ids st) i = rd 0 (srcntgt_box_ids st) i0
      /\ rd 0 (morton_nrs st) i = Z.of_nat mnr
      /\ get_count ext dims (morton_item pb ext dims st i) (rd 0 (morton_nrs st) i)
         = fld (pcnt (box_counts pb ext dims st (rd 0 (srcntgt_box_ids st) i0))) mnr
      /\ child_box (split_and_sort pb bb ext adaptive dims st i) = Some cb
      /\ new_box_parent_id cb = rd 0 (srcntgt_box_ids st) i0
      /\ new_box_morton_nr cb = Z.of_nat mnr
      /\ new_count cb = fld (pcnt (box_counts pb ext dims st (rd 0 (srcntgt_box_ids st) i0))) mnr
      /\ (forall (j : Z) (cb' : child_box_t),
            0 <= j < Z.of_nat (nsrcntgts st) ->
            child_box (split_and_sort pb bb ext adaptive dims st j) = Some cb' ->
            new_box_id cb' = new_box_id cb -> j = i)
      /\ (forall j : Z,
            0 <= j < Z.of_nat (nsrcntgts st) ->
            rd 0 (srcntgt_box_ids st) j = rd 0 (srcntgt_box_ids st) i0 ->
            rd 0 (morton_nrs st) j = Z.of_nat mnr ->
            (child_box (split_and_sort pb bb ext adaptive dims st j) <> None <-> j = i)).
Proof.
  intros Hwf i0 mnr Hi0 Hs Hmnr Htot.
  pose proof (splits_current pb bb ext adaptive dims st _ Hs) as Hcur.
  pose proof (wf_box pb bb ext dims st Hwf i0 Hi0 Hcur) as [_ [_ [_ [Hs0 [Hn0 Hrange]]]]].
  destruct (box_counts_totals pb bb ext dims st Hwf i0 Hi0 Hcur) as [Htotals _].
  rewrite (Htotals mnr Hmnr) in *.
  pose proof (count_in_bounds (fun j => rd 0 (morton_nrs st) j =? Z.of_nat mnr)
                (rd 0 (box_srcntgt_starts st) (rd 0 (srcntgt_box_ids st) i0))
                (Z.to_nat (rd 0 (box_srcntgt_counts_cumul st) (rd 0 (srcntgt_box_ids st) i0))))
    as Hb.
  pose proof (last_occurrence (fun j => rd 0 (morton_nrs st) j =? Z.of_nat mnr)
                (rd 0 (box_srcntgt_starts st) (rd 0 (srcntgt_box_ids st) i0))
                (Z.to_nat (rd 0 (box_srcntgt_counts_cumul st) (rd 0 (srcntgt_box_ids st) i0)))
                ltac:(lia)) as [i [Hi [Hkey Hlast]]].
  cbn beta in Hkey, Hlast. apply Z.eqb_eq in Hkey.
  destruct (Hrange i ltac:(lia)) as [Hbox _].
  assert (HiN : 0 <= i < Z.of_nat (nsrcntgts st)) by lia.
  assert (Hsi : do_split_box pb bb ext adaptive dims st (rd 0 (srcntgt_box_ids st) i) = true)
    by (rewrite Hbox; exact Hs).
  assert (Hcuri : box_is_current ext st (rd 0 (srcntgt_box_ids st) i) = true)
    by (rewrite Hbox; exact Hcur).
  assert (Hk : 0 <= rd 0 (morton_nrs st) i < 2 ^ Z.of_nat dims)
    by (rewrite Hkey; apply in_mnrs in Hmnr; lia).
  assert (Hmc : get_count ext dims (morton_item pb ext dims st i) (rd 0 (morton_nrs st) i)
                = count_in (fun j => rd 0 (morton_nrs st) j =? Z.of_nat mnr)
                    (rd 0 (box_srcntgt_starts st) (rd 0 (srcntgt_box_ids st) i0))
                    (Z.to_nat (rd 0 (box_srcntgt_counts_cumul st)
                                  (rd 0 (srcntgt_box_ids st) i0)))).
  { rewrite (my_count_in_box pb bb ext dims st Hwf i HiN Hcuri), Hbox, Hkey. exact Hlast. }
  assert (Htoti : fld (pcnt (box_counts pb ext dims st (rd 0 (srcntgt_box_ids st) i)))
                    (Z.to_nat (rd 0 (morton_nrs st) i))
                  = count_in (fun j => rd 0 (morton_nrs st) j =? Z.of_nat mnr)
                      (rd 0 (box_srcntgt_starts st) (rd 0 (srcntgt_box_ids st) i0))
                      (Z.to_nat (rd 0 (box_srcntgt_counts_cumul st)
                                    (rd 0 (srcntgt_box_ids st) i0)))).
  { rewrite Hbox, Hkey, Nat2Z.id. apply Htotals. exact Hmnr. }
  destruct (child_box (split_and_sort pb bb ext adaptive dims st i)) as [cb |] eqn:Ecb.
  2:{ exfalso. apply (proj2 (child_box_iff pb bb ext adaptive dims st i Hsi Hk));
        [congruence | exact Ecb]. }
  destruct (child_box_inv pb bb ext adaptive dims st i cb Ecb) as [_ [_ [_ Hcb]]].
  assert (Huniq : forall j cb', 0 <= j < Z.of_nat (nsrcntgts st) ->
            child_box (split_and_sort pb bb ext adaptive dims st j) = Some cb' ->
            new_box_id cb' = new_box_id cb -> j = i).
  { intros j cb' Hj Ecb' Hid.
    destruct (child_box_inv pb bb ext adaptive dims st j cb' Ecb') as [Hsj [Hkj [Htj Hcb']]].
    rewrite Hcb, Hcb' in Hid. cbn [new_box_id] in Hid.
    rewrite (new_box_id_value pb bb ext adaptive dims st Hwf j Hj Hsj Hkj) in Hid.
    rewrite (new_box_id_value pb bb ext adaptive dims st Hwf i HiN Hsi Hk) in Hid.
    pose proof (child_ids_of_same_box pb bb ext adaptive dims st Hwf j i Hj HiN Hsj Hsi Hkj Hk Hid)
      as Hsame.
    pose proof (splits_current pb bb ext adaptive dims st _ Hsj) as Hcurj.
    rewrite (split_box_id_in_box pb bb ext adaptive dims st Hwf j Hj Hcurj) in Hid.
    rewrite (split_box_id_in_box pb bb ext adaptive dims st Hwf i HiN Hcuri) in Hid.
    rewrite Hsame in Hid.
    apply (last_in_octant_unique pb bb ext dims st Hwf j i Hj HiN Hcurj Hsame); [lia |].
    rewrite <- Htj, Hmc, Hsame, <- Htoti. f_equal. f_equal. lia. }
  exists i, cb.
  split; [lia |]. split; [exact Hbox |]. split; [exact Hkey |]. split; [exact Hmc |].
  split; [exact Ecb |]. split; [| split; [| split; [| split; [exact Huniq |]]]].
  - rewrite Hcb. cbn [new_box_parent_id]. exact Hbox.
  - rewrite Hcb. cbn [new_box_morton_nr]. exact Hkey.
  - rewrite Hcb. cbn [new_count]. exact Htoti.
  - intros j Hj Hbj Hkj'. split; [| intros ->; congruence].
    intros Hne. destruct (child_box (split_and_sort pb bb ext adaptive dims st j))
      as [cb' |] eqn:Ecb'; [| congruence].
    destruct (child_box_inv pb bb ext adaptive dims st j cb' Ecb') as [Hsj [Hkj [Htj Hcb']]].
    pose proof (splits_current pb bb ext adaptive dims st _ Hsj) as Hcurj.
    apply (last_in_octant_unique pb bb ext dims st Hwf j i); try assumption; congruence.
Qed.

Lemma one_writer_per_child_box_witness :
  exists (i : Z) (cb : child_box_t),
    rd 0 (morton_nrs sample_level) i = 1
    /\ child_box (split_and_sort 32 32 true true 1 sample_level i) = Some cb
    /\ forall (j : Z) (cb' : child_box_t),
         0 <= j < 5 ->
         child_box (split_and_sort 32 32 true true 1 sample_level j) = Some cb' ->
         new_box_id cb' = new_box_id cb -> j = i.
Proof.
  destruct (one_writer_per_child_box 32 32 true true 1 sample_level
              ltac:(vm_compute; reflexivity) 0 1%nat
              ltac:(vm_compute; split; congruence)
              ltac:(vm_compute; reflexivity)
              ltac:(vm_compute; tauto)
              ltac:(vm_compute; congruence))
    as [i [cb [_ [_ [Hkey [_ [Hcb [_ [_ [_ [Huniq _]]]]]]]]]]].
  exists i, cb. split; [exact Hkey |]. split; [exact Hcb |].
  intros j cb' Hj. apply Huniq. exact Hj.
Defined.

(** ** The split decision *)




(** ** The split box ids *)

(** C2 (as amended). [split_box_ids[i]] is the inclusive prefix sum of the
    contributions of the particles (the first particle contributing the
    box count of the level before, each particle that passes the split
    test [2^d]), and a lane that writes a child box record, as every
    particle sorted into that child box, computes the id
    [split_box_ids[i] - 2^d + morton_nr]. *)
Theorem split_box_ids_inclusive_prefix_sum
    (pb bb : positive) (ext adaptive : bool) (dims : nat) (st : level_args) :
  wf_level pb bb ext dims st = true ->
  forall i : Z, 0 <= i < Z.of_nat (nsrcntgts st) ->
    rd 0 (split_box_ids pb bb ext adaptive dims st) i
      = psum (split_scan_inputs pb bb ext adaptive dims st) (S (Z.to_nat i))
    /\ rd 0 (split_scan_inputs pb bb ext adaptive dims st) i
       = (if i =? 0 then nboxes st else 0)
         + (if split_test pb ext adaptive dims st i (rd 0 (srcntgt_box_ids st) i)
            then 2 ^ Z.of_nat dims else 0)
    /\ (do_split_box pb bb ext adaptive dims st (rd 0 (srcntgt_box_ids st) i) = true ->
        0 <= rd 0 (morton_nrs st) i ->
        new_srcntgt_box_id (split_and_sort pb bb ext adaptive dims st i)
          = rd 0 (split_box_ids pb bb ext adaptive dims st) i
            - 2 ^ Z.of_nat dims + rd 0 (morton_nrs st) i)
    /\ (forall cb, child_box (split_and_sort pb bb ext adaptive dims st i) = Some cb ->
          new_box_id cb
            = rd 0 (split_box_ids pb bb ext adaptive dims st) i
              - 2 ^ Z.of_nat dims + rd 0 (morton_nrs st) i).
Proof.
  intros Hwf i Hi. split; [| split; [| split]].
  - replace i with (Z.of_nat (Z.to_nat i)) at 1 by lia.
    apply split_box_ids_inclusive; [exact Hwf | lia].
  - replace i with (Z.of_nat (Z.to_nat i)) at 1 by lia. rewrite rd_nat.
    rewrite (nth_inputs pb bb ext adaptive dims st Hwf) by lia.
    rewrite Z2Nat.id by lia. reflexivity.
  - intros Hs Hk.
    pose proof (wf_key pb bb ext dims st Hwf i Hi) as Hkey.
    unfold split_and_sort. rewrite Hs. cbn [new_srcntgt_box_id].
    apply new_box_id_value; try assumption. lia.
  - intros cb Hcb.
    destruct (child_box_inv pb bb ext adaptive dims st i cb Hcb) as [Hs [Hk [_ ->]]].
    cbn [new_box_id]. apply new_box_id_value; assumption.
Qed.

Lemma split_box_ids_inclusive_prefix_sum_witness :
  rd 0 (split_box_ids 32 32 true true 1 sample_level) 0
    = psum (split_scan_inputs 32 32 true true 1 sample_level) 1
  /\ rd 0 (split_box_ids 32 32 true true 1 sample_level) 0 = 3.
Proof.
  destruct (split_box_ids_inclusive_prefix_sum 32 32 true true 1 sample_level
              ltac:(vm_compute; reflexivity) 0 ltac:(vm_compute; split; congruence))
    as [Hincl _].
  split; [exact Hincl |]. rewrite Hincl. vm_compute. reflexivity.
Defined.

(** C2 (as stated) fails: the first particle already sees the boxes of the
    level before and the [2^d] boxes it asks for itself, while the sum of
    the contributions before it is empty. *)
Lemma split_box_ids_not_exclusive :
  rd 0 (split_box_ids 32 32 true true 1 sample_level) 0
    <> exclusive_prefix_sum (split_scan_inputs 32 32 true true 1 sample_level) 0.
Proof. vm_compute. discriminate. Qed.

(** ** The kernels on two consecutive levels *)

Example sample_level_lanes :
  map tgt_particle_idx (split_and_sort_lanes 32 32 true true 1 sample_level) = [3; 1; 0; 4; 2]
  /\ map new_srcntgt_box_id (split_and_sort_lanes 32 32 true true 1 sample_level)
     = [2; 1; 0; 2; 1]
  /\ new_user_srcntgt_ids 32 32 true true 1 sample_level [0; 0; 0; 0; 0]
     = user_srcntgt_ids sample_level_2
  /\ new_srcntgt_box_ids 32 32 true true 1 sample_level [0; 0; 0; 0; 0]
     = srcntgt_box_ids sample_level_2
  /\ nboxes_out 32 32 true true 1 sample_level = nboxes sample_level_2.
Proof. repeat split; vm_compute; reflexivity. Qed.

Example sample_level_2_lanes :
  wf_level 32 32 true 1 sample_level_2 = true
  /\ split_box_ids 32 32 true true 1 sample_level_2 = [3; 5; 5; 7; 7]
  /\ map tgt_particle_idx (split_and_sort_lanes 32 32 true true 1 sample_level_2)
     = [0; 1; 2; 3; 4]
  /\ map new_srcntgt_box_id (split_and_sort_lanes 32 32 true true 1 sample_level_2)
     = [0; 3; 4; 6; 6].
Proof. repeat split; vm_compute; reflexivity. Qed.

(** After the pass, the slot that lane [i] targets holds the user id and
    the box id of lane [i]. *)
Lemma split_and_sort_arrays
    (pb bb : positive) (ext adaptive : bool) (dims : nat) (st : level_args)
    (ids_before box_ids_before : list Z) (i : Z) :
  wf_level pb bb ext dims st = true ->
  length ids_before = nsrcntgts st -> length box_ids_before = nsrcntgts st ->
  0 <= i < Z.of_nat (nsrcntgts st) ->
  rd 0 (new_user_srcntgt_ids pb bb ext adaptive dims st ids_before)
       (tgt_particle_idx (split_and_sort pb bb ext adaptive dims st i))
    = rd 0 (user_srcntgt_ids st) i
  /\ rd 0 (new_srcntgt_box_ids pb bb ext adaptive dims st box_ids_before)
          (tgt_particle_idx (split_and_sort pb bb ext adaptive dims st i))
     = new_srcntgt_box_id (split_and_sort pb bb ext adaptive dims st i).
Proof.
  intros Hwf Hl1 Hl2 Hi.
  pose proof (tgt_permutation pb bb ext adaptive dims st Hwf) as Hperm.
  assert (Hnd : NoDup (map tgt_particle_idx (split_and_sort_lanes pb bb ext adaptive dims st))).
  { eapply Permutation_NoDup; [apply Permutation_sym; exact Hperm | apply NoDup_iota]. }
  pose proof (tgt_in_range pb bb ext adaptive dims st Hwf i Hi) as Hr.
  assert (Hlane : In (split_and_sort pb bb ext adaptive dims st i)
                     (split_and_sort_lanes pb bb ext adaptive dims st)).
  { unfold split_and_sort_lanes. apply in_map, in_iota. exact Hi. }
  assert (Hu : new_user_srcntgt_id (split_and_sort pb bb ext adaptive dims st i)
               = rd 0 (user_srcntgt_ids st) i).
  { unfold split_and_sort.
    destruct (do_split_box pb bb ext adaptive dims st (rd 0 (srcntgt_box_ids st) i));
      reflexivity. }
  split.
  - rewrite <- Hu. unfold new_user_srcntgt_ids. apply apply_writes_written.
    + rewrite map_map. cbn [fst]. exact Hnd.
    + apply in_map_iff. exists (split_and_sort pb bb ext adaptive dims st i).
      split; [reflexivity | exact Hlane].
    + unfold len. rewrite Hl1. exact Hr.
  - unfold new_srcntgt_box_ids. apply apply_writes_written.
    + rewrite map_map. cbn [fst]. exact Hnd.
    + apply in_map_iff. exists (split_and_sort pb bb ext adaptive dims st i).
      split; [reflexivity | exact Hlane].
    + unfold len. rewrite Hl2. exact Hr.
Qed.

(** * Further properties of the kernels *)

(** ** The neutral element and the two saturating additions *)

Lemma my_add_sat_0_l (x : Z) : in_range 32 x -> my_add_sat 0 x = x.
Proof.
  intros Hx. unfold my_add_sat. cbn [Z.add].
  assert (H64 : in_range 64 x).
  { unfold in_range, min_int, max_int in *.
    change (2 ^ (32 - 1)) with 2147483648 in Hx.
    change (2 ^ (64 - 1)) with 9223372036854775808. lia. }
  rewrite (wrap_small 64) by exact H64.
  rewrite Z.gtb_ltb. destruct (Z.ltb_spec INT_MAX x) as [Hgt | Hle].
  - unfold in_range, INT_MAX in *. lia.
  - apply wrap_small. exact Hx.
Qed.

Lemma map_mnrs_id (f : nat -> Z) (d : nat) (l : list Z) :
  length l = (2 ^ d)%nat ->
  (forall mnr, In mnr (mnrs d) -> f mnr = fld l mnr) ->
  map f (mnrs d) = l.
Proof.
  intros Hlen Hf. apply nth_ext with (d := f O) (d' := 0).
  - unfold mnrs. rewrite length_map, length_seq. symmetry. exact Hlen.
  - intros n Hn. unfold mnrs in *. rewrite length_map, length_seq in Hn.
    rewrite map_nth, seq_nth by exact Hn. cbn [Nat.add].
    apply Hf. apply in_seq. lia.
Qed.

Lemma fld_in_range (w : positive) (l : list Z) (mnr : nat) :
  Forall (in_range w) l -> in_range w (fld l mnr).
Proof.
  intros H. unfold fld. destruct (Nat.lt_ge_cases mnr (length l)) as [Hlt | Hge].
  - rewrite Forall_forall in H. apply H, nth_In, Hlt.
  - rewrite nth_overflow by exact Hge.
    unfold in_range, min_int, max_int. pose proof (pow2_pos (Z.pos w - 1)). lia.
Qed.

(** [scan_t_neutral] is a neutral element of the merge, on either side,
    for every record of the type. *)
Theorem scan_t_neutral_is_neutral (w : positive) (ext : bool) (d : nat) (b : scan_t) :
  scan_t_ok w ext d b ->
  scan_t_add w ext d (scan_t_neutral d) b false = b
  /\ scan_t_add w ext d b (scan_t_neutral d) false = b.
Proof.
  intros [Hlp [Hlw [Hp [Hw Hn]]]].
  assert (Hleft : scan_t_add w ext d (scan_t_neutral d) b false = b).
  { destruct b as [nc pc pw]. cbn [pcnt pwt nonchild_srcntgts] in *.
    unfold scan_t_add, scan_t_neutral. cbn [negb pcnt pwt nonchild_srcntgts]. f_equal.
    - destruct ext; [| symmetry; exact Hn].
      rewrite Z.add_0_r. apply wrap_small. exact Hn.
    - apply map_mnrs_id; [exact Hlp |]. intros mnr Hmnr.
      rewrite fld_map_mnrs by exact Hmnr. cbn [Z.add].
      apply wrap_small, fld_in_range, Hp.
    - apply map_mnrs_id; [exact Hlw |]. intros mnr Hmnr.
      rewrite fld_map_mnrs by exact Hmnr.
      apply my_add_sat_0_l, fld_in_range, Hw. }
  split; [exact Hleft |].
  rewrite <- Hleft at 2. unfold scan_t_add. cbn [negb]. f_equal.
  - destruct ext; [| reflexivity]. f_equal. lia.
  - apply map_ext. intros mnr. f_equal. lia.
  - apply map_ext. intros mnr. apply my_add_sat_comm.
Qed.

Lemma scan_t_neutral_is_neutral_witness :
  scan_t_add 32 true 1 (scan_t_neutral 1) (mk_counts 1 [2; 2] [-3; 2]) false
    = mk_counts 1 [2; 2] [-3; 2].
Proof.
  apply (scan_t_neutral_is_neutral 32 true 1 (mk_counts 1 [2; 2] [-3; 2])).
  unfold scan_t_ok. cbn [pcnt pwt nonchild_srcntgts length Nat.pow Nat.mul Nat.add].
  repeat split; repeat constructor; vm_compute; congruence.
Defined.

(** The hand-written [my_add_sat] of the Morton scan is OpenCL's [add_sat]
    as long as the sum does not fall below [INT_MIN]; its result never
    exceeds [INT_MAX]. *)
Theorem my_add_sat_is_add_sat (a b : Z) :
  in_range 32 a -> in_range 32 b ->
  in_range 32 (my_add_sat a b)
  /\ (INT_MIN <= a + b -> my_add_sat a b = add_sat a b).
Proof.
  intros Ha Hb.
  assert (Hmax : INT_MAX = 2147483647) by reflexivity.
  assert (Hmin : INT_MIN = -2147483648) by reflexivity.
  assert (Hr : forall z, in_range 32 z <-> -2147483648 <= z <= 2147483647).
  { intros z. unfold in_range, min_int, max_int.
    change (2 ^ (32 - 1)) with 2147483648. lia. }
  pose proof (proj1 (Hr a) Ha) as Ha'. pose proof (proj1 (Hr b) Hb) as Hb'.
  assert (H64 : in_range 64 (a + b)).
  { unfold in_range, min_int, max_int.
    change (2 ^ (64 - 1)) with 9223372036854775808. lia. }
  unfold my_add_sat, add_sat. rewrite (wrap_small 64) by exact H64.
  rewrite Z.gtb_ltb. destruct (Z.ltb_spec INT_MAX (a + b)) as [Hgt | Hle].
  - split; [apply Hr; lia | intros _; lia].
  - split; [apply wrap_range |].
    intros Hlow. rewrite wrap_small by (apply Hr; lia). lia.
Qed.

Lemma my_add_sat_is_add_sat_witness :
  in_range 32 (my_add_sat INT_MAX 5)
  /\ (INT_MIN <= INT_MAX + 5 -> my_add_sat INT_MAX 5 = add_sat INT_MAX 5).
Proof.
  apply (my_add_sat_is_add_sat INT_MAX 5); vm_compute; split; congruence.
Defined.

(** ** The bits of the Morton number and the record of one particle *)

Lemma testbit_axis_term (b : Z) (s n : Z) :
  0 <= s -> 0 <= n ->
  Z.testbit (Z.shiftl (Z.land b 1) s) n = (n =? s) && Z.odd b.
Proof.
  intros Hs Hn. rewrite Z.shiftl_spec by exact Hn.
  replace (Z.land b 1) with (b mod 2 ^ 1) by (symmetry; apply (Z.land_ones b 1); lia).
  destruct (Z.eqb_spec n s) as [-> | Hne].
  - rewrite Z.sub_diag, Z.mod_pow2_bits_low by lia. apply Z.bit0_odd.
  - destruct (Z.lt_ge_cases n s) as [Hlt | Hge].
    + apply Z.testbit_neg_r. lia.
    + apply Z.mod_pow2_bits_high. lia.
Qed.

Lemma existsb_over_map {A B : Type} (f : B -> bool) (g : A -> B) (l : list A) :
  existsb f (map g l) = existsb (fun x => f (g x)) l.
Proof. induction l as [| x l IH]; cbn [map existsb]; [reflexivity | now rewrite IH]. Qed.

Lemma existsb_pointwise {A : Type} (f g : A -> bool) (l : list A) :
  (forall x, f x = g x) -> existsb f l = existsb g l.
Proof.
  intros Hfg. induction l as [| x l IH]; cbn [existsb]; [reflexivity |].
  now rewrite Hfg, IH.
Qed.

Section MortonNumberBits.

Context {coord_t : Type} `{Coord coord_t}.
Variable level : Z.

(** Each axis sets the bit at its place and no other. *)
Lemma morton_bits_testbit (d : nat) (axes : list (axis_t coord_t)) :
  forall (iax : nat) (acc : Z) (n : Z),
    0 <= n ->
    Z.testbit (morton_bits level d iax axes acc) n
      = Z.testbit acc n
        || existsb (fun k => (n =? Z.of_nat (d - 1 - (iax + k)))
                             && Z.odd (axis_bits level (nth k axes (mk_axis (c_of_int 0) (c_of_int 0) (c_of_int 0)))))
                   (seq 0 (length axes)).
Proof.
  induction axes as [| ax rest IH]; intros iax acc n Hn.
  - cbn [morton_bits length seq existsb]. now rewrite orb_false_r.
  - cbn [morton_bits length]. rewrite IH by exact Hn.
    rewrite Z.lor_spec, testbit_axis_term by lia.
    cbn [seq existsb nth]. rewrite Nat.add_0_r, <- orb_assoc. f_equal. f_equal.
    rewrite <- seq_shift, existsb_over_map. apply existsb_pointwise. intros k.
    cbn [nth]. do 3 f_equal. lia.
Qed.

End MortonNumberBits.

(** When the particle descends, bit [d-1-k] of its Morton number is the
    lowest bit of the scaled coordinate of axis [k], and the Morton number
    is an octant index. *)
Theorem morton_number_picks_axis_bits
    {coord_t : Type} `{Coord coord_t}
    (STICK_OUT_FACTOR : coord_t) (ext : bool) (level : Z) (srcntgt_radius : coord_t)
    (axes : list (axis_t coord_t)) (k : nat) :
  ext && stop_srcntgt_descent STICK_OUT_FACTOR level srcntgt_radius axes = false ->
  (k < length axes)%nat ->
  Z.testbit (level_morton_number STICK_OUT_FACTOR ext level srcntgt_radius axes)
            (Z.of_nat (length axes - 1 - k))
    = Z.odd (axis_bits level (nth k axes (mk_axis (c_of_int 0) (c_of_int 0) (c_of_int 0))))
  /\ 0 <= level_morton_number STICK_OUT_FACTOR ext level srcntgt_radius axes
       < 2 ^ Z.of_nat (length axes).
Proof.
  intros Hstop Hk. unfold level_morton_number. rewrite Hstop. split.
  - rewrite morton_bits_testbit by lia. rewrite Z.testbit_0_l. cbn [orb Nat.add].
    set (dflt := mk_axis (c_of_int 0) (c_of_int 0) (c_of_int 0)).
    set (d := length axes) in *.
    assert (Hgen : forall n, (k < n)%nat -> (n <= d)%nat ->
              existsb (fun k0 => (Z.of_nat (d - 1 - k) =? Z.of_nat (d - 1 - k0))
                                 && Z.odd (axis_bits level (nth k0 axes dflt))) (seq 0 n)
              = Z.odd (axis_bits level (nth k axes dflt))).
    { induction n as [| n IHn]; intros Hkn Hnd; [lia |].
      rewrite seq_S, existsb_app. cbn [existsb Nat.add]. rewrite orb_false_r.
      destruct (Nat.eq_dec k n) as [E | Hne].
      - subst n. rewrite Z.eqb_refl. cbn [andb].
        assert (Hnone : existsb (fun k0 => (Z.of_nat (d - 1 - k) =? Z.of_nat (d - 1 - k0))
                                          && Z.odd (axis_bits level (nth k0 axes dflt)))
                          (seq 0 k) = false).
        { apply not_true_is_false. intros Hex. apply existsb_exists in Hex.
          destruct Hex as [k0 [Hin Hk0]]. apply in_seq in Hin.
          apply andb_true_iff in Hk0. destruct Hk0 as [Hk0 _]. apply Z.eqb_eq in Hk0. lia. }
        rewrite Hnone. reflexivity.
      - rewrite IHn by lia.
        replace (Z.of_nat (d - 1 - k) =? Z.of_nat (d - 1 - n)) with false
          by (symmetry; apply Z.eqb_neq; lia).
        cbn [andb]. apply orb_false_r. }
    apply Hgen; [exact Hk | apply Nat.le_refl].
  - apply (morton_bits_bounds level (length axes) axes 0 0); [| simpl; lia].
    pose proof (pow2_pos (Z.of_nat (length axes))). lia.
Qed.

Lemma morton_number_picks_axis_bits_witness :
  Z.testbit (level_morton_number (0 # 1)%Q true 1 (1 # 8)%Q
               [quarter_axis; mk_axis (0 # 1)%Q (1 # 1)%Q (3 # 4)%Q]) 0 = true
  /\ 0 <= level_morton_number (0 # 1)%Q true 1 (1 # 8)%Q
            [quarter_axis; mk_axis (0 # 1)%Q (1 # 1)%Q (3 # 4)%Q] < 4.
Proof.
  destruct (@morton_number_picks_axis_bits Q Coord_Q (0 # 1)%Q true 1 (1 # 8)%Q
              [quarter_axis; mk_axis (0 # 1)%Q (1 # 1)%Q (3 # 4)%Q] 1
              ltac:(vm_compute; reflexivity) ltac:(simpl; lia)) as [Hbit Hrange].
  cbn [length Nat.sub Z.of_nat] in Hbit.
  split; [rewrite Hbit; vm_compute; reflexivity | exact Hrange].
Defined.

Lemma sum_one_field (m v : Z) (M : nat) :
  sum_terms (fun mnr => if m =? Z.of_nat mnr then v else 0) (seq 0 M)
    = if (0 <=? m) && (m <? Z.of_nat M) then v else 0.
Proof.
  induction M as [| M IH].
  - cbn [seq sum_terms fold_right].
    destruct (Z.leb_spec 0 m); [| reflexivity].
    replace (m <? Z.of_nat 0) with false by (symmetry; apply Z.ltb_ge; lia). reflexivity.
  - rewrite seq_S, sum_terms_app, IH. cbn [sum_terms fold_right Nat.add].
    destruct (Z.eqb_spec m (Z.of_nat M)) as [-> | Hne].
    + replace (0 <=? Z.of_nat M) with true by (symmetry; apply Z.leb_le; lia).
      replace (Z.of_nat M <? Z.of_nat M) with false by (symmetry; apply Z.ltb_ge; lia).
      replace (Z.of_nat M <? Z.of_nat (S M)) with true by (symmetry; apply Z.ltb_lt; lia).
      cbn [andb]. lia.
    + destruct (Z.leb_spec 0 m); cbn [andb]; [| lia].
      destruct (Z.ltb_spec m (Z.of_nat M)); destruct (Z.ltb_spec m (Z.of_nat (S M)));
        try lia.
Qed.


(** ** More about one level of the level loop *)

(** A list whose entries, read through a permutation of the indices, are
    those of another list is a permutation of that list. *)
Lemma permutation_by_index (l l' : list Z) (sigma : Z -> Z) :
  length l' = length l ->
  Permutation (map sigma (iota (length l))) (iota (length l)) ->
  (forall i, 0 <= i < len l -> rd 0 l' (sigma i) = rd 0 l i) ->
  Permutation l' l.
Proof.
  intros Hlen Hperm Hrd.
  rewrite <- (map_rd_iota 0 l') at 1. rewrite Hlen.
  apply Permutation_trans with (l' := map (rd 0 l') (map sigma (iota (length l)))).
  - apply Permutation_map, Permutation_sym, Hperm.
  - rewrite map_map. rewrite <- (map_rd_iota 0 l) at 2.
    apply Permutation_refl' . apply map_ext_in. intros i Hi. apply in_iota in Hi.
    apply Hrd. exact Hi.
Qed.

Section LevelExtras.

Variables pb bb : positive.
Variables ext adaptive : bool.
Variable dims : nat.
Variable st : level_args.
Hypothesis Hwf : wf_level pb bb ext dims st = true.

#[local] Abbreviation N := (nsrcntgts st).
#[local] Abbreviation key j := (rd 0 (morton_nrs st) j).
#[local] Abbreviation box j := (rd 0 (srcntgt_box_ids st) j).
#[local] Abbreviation start b := (rd 0 (box_srcntgt_starts st) b).
#[local] Abbreviation count b := (rd 0 (box_srcntgt_counts_cumul st) b).
#[local] Abbreviation lane i := (split_and_sort pb bb ext adaptive dims st i).
#[local] Abbreviation splits b := (do_split_box pb bb ext adaptive dims st b).
#[local] Abbreviation test i := (split_test pb ext adaptive dims st i (box i)).
#[local] Abbreviation inputs := (split_scan_inputs pb bb ext adaptive dims st).
#[local] Abbreviation two_d := (2 ^ Z.of_nat dims).
#[local] Abbreviation split_id i := (rd 0 (split_box_ids pb bb ext adaptive dims st) i).
#[local] Abbreviation total b mnr := (fld (pcnt (box_counts pb ext dims st b)) mnr).

Lemma wf_lengths :
  length (user_srcntgt_ids st) = N /\ length (morton_nrs st) = N
  /\ length (box_start_flags st) = N.
Proof.
  unfold wf_level in Hwf. rewrite !andb_true_iff in Hwf.
  destruct Hwf as [[[[_ H1] H2] H3] _].
  apply Nat.eqb_eq in H1, H2, H3. auto.
Qed.

(** The running total after [k] particles: the old box count and [2^d]
    for every particle that passed the split test. *)
Lemma psum_inputs_counts_tests (k : nat) :
  (k <= N)%nat ->
  psum inputs k
    = (if (0 <? Z.of_nat k) then nboxes st else 0)
      + two_d * count_in (fun i => test i) 0 k.
Proof.
  induction k as [| k IH]; intros Hk.
  - unfold psum. cbn [firstn fold_right count_in Z.of_nat Z.ltb Z.compare]. lia.
  - rewrite psum_snoc by (rewrite (length_inputs pb bb ext adaptive dims st); lia).
    rewrite (nth_inputs pb bb ext adaptive dims st Hwf) by lia.
    rewrite IH by lia. cbn [count_in]. rewrite Z.add_0_l.
    replace (0 <? Z.of_nat (S k)) with true by (symmetry; apply Z.ltb_lt; lia).
    destruct (Z.eqb_spec (Z.of_nat k) 0) as [E | E].
    + replace (0 <? Z.of_nat k) with false by (symmetry; apply Z.ltb_ge; lia).
      destruct (test (Z.of_nat k)); lia.
    + replace (0 <? Z.of_nat k) with true by (symmetry; apply Z.ltb_lt; lia).
      destruct (test (Z.of_nat k)); lia.
Qed.

Lemma nboxes_out_psum : (0 < N)%nat -> nboxes_out pb bb ext adaptive dims st = psum inputs N.
Proof.
  intros HN. unfold nboxes_out. destruct N as [| n] eqn:En; [lia |].
  rewrite (split_box_ids_inclusive pb bb ext adaptive dims st Hwf) by lia.
  reflexivity.
Qed.

End LevelExtras.

(** After the split scan [*nboxes] is the old box count plus [2^d] for
    every particle that passed the split test: boxes come in batches of
    [2^d] siblings. *)
Theorem nboxes_grows_by_batches
    (pb bb : positive) (ext adaptive : bool) (dims : nat) (st : level_args) :
  wf_level pb bb ext dims st = true ->
  (0 < nsrcntgts st)%nat ->
  nboxes_out pb bb ext adaptive dims st
    = nboxes st
      + 2 ^ Z.of_nat dims
        * count_in (fun i => split_test pb ext adaptive dims st i (rd 0 (srcntgt_box_ids st) i))
            0 (nsrcntgts st).
Proof.
  intros Hwf HN. rewrite nboxes_out_psum by assumption.
  rewrite (psum_inputs_counts_tests pb bb ext adaptive dims st Hwf) by lia.
  replace (0 <? Z.of_nat (nsrcntgts st)) with true by (symmetry; apply Z.ltb_lt; lia).
  reflexivity.
Qed.

Lemma nboxes_grows_by_batches_witness :
  nboxes_out 32 32 true true 1 sample_level_2
    = nboxes sample_level_2
      + 2 ^ Z.of_nat 1
        * count_in (fun i => split_test 32 true true 1 sample_level_2 i
                               (rd 0 (srcntgt_box_ids sample_level_2) i))
            0 (nsrcntgts sample_level_2).
Proof.
  apply (nboxes_grows_by_batches 32 32 true true 1 sample_level_2);
    vm_compute; [reflexivity | lia].
Defined.

(** The ids that split-and-sort gives to new child boxes lie between the
    old and the new box count: no record of an existing box is
    overwritten, and none is written beyond the new count. *)
Theorem new_box_ids_are_fresh
    (pb bb : positive) (ext adaptive : bool) (dims : nat) (st : level_args)
    (i : Z) (cb : child_box_t) :
  wf_level pb bb ext dims st = true ->
  0 <= i < Z.of_nat (nsrcntgts st) ->
  child_box (split_and_sort pb bb ext adaptive dims st i) = Some cb ->
  nboxes st <= new_box_id cb < nboxes_out pb bb ext adaptive dims st
  /\ new_srcntgt_box_id (split_and_sort pb bb ext adaptive dims st i) = new_box_id cb.
Proof.
  intros Hwf Hi Hcb.
  destruct (child_box_inv pb bb ext adaptive dims st i cb Hcb) as [Hs [Hk [_ Heq]]].
  pose proof (splits_current pb bb ext adaptive dims st _ Hs) as Hcur.
  pose proof (wf_box pb bb ext dims st Hwf i Hi Hcur) as [_ [_ [_ [Hsi [Hni _]]]]].
  pose proof (new_box_id_value pb bb ext adaptive dims st Hwf i Hi Hs Hk) as Hid.
  pose proof (split_box_id_room pb bb ext adaptive dims st Hwf i Hi Hs) as Hroom.
  pose proof (split_box_id_in_box pb bb ext adaptive dims st Hwf i Hi Hcur) as Hin.
  set (s := rd 0 (box_srcntgt_starts st) (rd 0 (srcntgt_box_ids st) i)) in *.
  pose proof (psum_inputs_counts_tests pb bb ext adaptive dims st Hwf (Z.to_nat s)
                ltac:(lia)) as Hbefore.
  pose proof (psum_mono (split_scan_inputs pb bb ext adaptive dims st)
                (S (Z.to_nat s)) (nsrcntgts st)
                (inputs_nonneg pb bb ext adaptive dims st Hwf) ltac:(lia)
                ltac:(rewrite (length_inputs pb bb ext adaptive dims st); lia)) as Hmono.
  pose proof (count_in_bounds
                (fun i0 => split_test pb ext adaptive dims st i0 (rd 0 (srcntgt_box_ids st) i0))
                0 (Z.to_nat s)) as [Hcb0 _].
  pose proof (pow2_pos (Z.of_nat dims) ltac:(lia)) as Htd.
  assert (Hprod : 0 <= 2 ^ Z.of_nat dims
                       * count_in (fun i0 => split_test pb ext adaptive dims st i0
                                               (rd 0 (srcntgt_box_ids st) i0)) 0 (Z.to_nat s))
    by (apply Z.mul_nonneg_nonneg; lia).
  destruct (wf_sizes pb bb ext dims st Hwf) as [_ [Hnb _]].
  assert (Hstep : rd 0 (split_box_ids pb bb ext adaptive dims st) i
                  = psum (split_scan_inputs pb bb ext adaptive dims st) (Z.to_nat s)
                    + (if s =? 0 then nboxes st else 0) + 2 ^ Z.of_nat dims).
  { rewrite Hin, psum_snoc by (rewrite (length_inputs pb bb ext adaptive dims st); lia).
    rewrite (nth_inputs pb bb ext adaptive dims st Hwf) by lia.
    rewrite Z2Nat.id by lia.
    pose proof (splits_first_passes pb bb ext adaptive dims st Hwf i Hi Hs) as Hfirst.
    change (rd 0 (box_srcntgt_starts st) (rd 0 (srcntgt_box_ids st) i)) with s in Hfirst.
    rewrite Hfirst. lia. }
  rewrite nboxes_out_psum by (try assumption; lia).
  split.
  - rewrite Heq. cbn [new_box_id]. rewrite Hid. split.
    + rewrite Hstep, Hbefore.
      destruct (Z.eqb_spec s 0) as [E | E].
      * replace (0 <? Z.of_nat (Z.to_nat s)) with false by (symmetry; apply Z.ltb_ge; lia).
        lia.
      * replace (0 <? Z.of_nat (Z.to_nat s)) with true by (symmetry; apply Z.ltb_lt; lia).
        lia.
    + rewrite Hin. lia.
  - rewrite Heq. cbn [new_box_id]. unfold split_and_sort. rewrite Hs. reflexivity.
Qed.

Lemma new_box_ids_are_fresh_witness :
  match child_box (split_and_sort 32 32 true true 1 sample_level_2 2) with
  | Some cb =>
      nboxes sample_level_2 <= new_box_id cb < nboxes_out 32 32 true true 1 sample_level_2
  | None => False
  end.
Proof.
  destruct (child_box (split_and_sort 32 32 true true 1 sample_level_2 2)) as [cb |] eqn:Hcb.
  - apply (new_box_ids_are_fresh 32 32 true true 1 sample_level_2 2 cb
             ltac:(vm_compute; reflexivity) ltac:(vm_compute; split; congruence) Hcb).
  - vm_compute in Hcb. discriminate.
Defined.

(** The user ids after the pass are a permutation of the user ids before
    it: split-and-sort keeps the user-id permutation a permutation. *)
Theorem split_and_sort_permutes_user_ids
    (pb bb : positive) (ext adaptive : bool) (dims : nat) (st : level_args)
    (before : list Z) :
  wf_level pb bb ext dims st = true ->
  length before = nsrcntgts st ->
  Permutation (new_user_srcntgt_ids pb bb ext adaptive dims st before) (user_srcntgt_ids st).
Proof.
  intros Hwf Hlen.
  destruct (wf_lengths pb bb ext dims st Hwf) as [Hlu _].
  apply (permutation_by_index _ _
           (fun i => tgt_particle_idx (split_and_sort pb bb ext adaptive dims st i))).
  - unfold new_user_srcntgt_ids. rewrite length_apply_writes. congruence.
  - rewrite Hlu. pose proof (tgt_permutation pb bb ext adaptive dims st Hwf) as Hp.
    unfold split_and_sort_lanes in Hp. rewrite map_map in Hp. exact Hp.
  - intros i Hi. unfold len in Hi. rewrite Hlu in Hi.
    apply (split_and_sort_arrays pb bb ext adaptive dims st before before i); assumption.
Qed.

Lemma split_and_sort_permutes_user_ids_witness :
  Permutation (new_user_srcntgt_ids 32 32 true true 1 sample_level [0; 0; 0; 0; 0])
              (user_srcntgt_ids sample_level).
Proof.
  apply (split_and_sort_permutes_user_ids 32 32 true true 1 sample_level [0; 0; 0; 0; 0]);
    vm_compute; reflexivity.
Defined.

Section ChildRangeFacts.

Variables pb bb : positive.
Variables ext adaptive : bool.
Variable dims : nat.
Variable st : level_args.
Hypothesis Hwf : wf_level pb bb ext dims st = true.

#[local] Abbreviation N := (nsrcntgts st).
#[local] Abbreviation key j := (rd 0 (morton_nrs st) j).
#[local] Abbreviation box j := (rd 0 (srcntgt_box_ids st) j).
#[local] Abbreviation start b := (rd 0 (box_srcntgt_starts st) b).
#[local] Abbreviation count b := (rd 0 (box_srcntgt_counts_cumul st) b).
#[local] Abbreviation lane i := (split_and_sort pb bb ext adaptive dims st i).
#[local] Abbreviation splits b := (do_split_box pb bb ext adaptive dims st b).
#[local] Abbreviation below b m :=
  (count_in (fun j => key j <? m) (start b) (Z.to_nat (count b))).
#[local] Abbreviation equal b m :=
  (count_in (fun j => key j =? m) (start b) (Z.to_nat (count b))).

(** The new index: the start of the box, the particles of smaller Morton
    number, and the place of the particle among those of its own. *)
Lemma tgt_decomposition (j : Z) :
  0 <= j < Z.of_nat N -> splits (box j) = true ->
  exists place,
    tgt_particle_idx (lane j) = start (box j) + below (box j) (key j) + place
    /\ 0 <= place < equal (box j) (key j).
Proof.
  intros Hj Hs.
  pose proof (splits_current pb bb ext adaptive dims st _ Hs) as Hcur.
  pose proof (wf_box pb bb ext dims st Hwf j Hj Hcur) as [_ [_ [_ [Hsj [Hnj _]]]]].
  exists (count_in (fun j' => (key j' =? key j) && (j' <? j + 1))
            (start (box j)) (Z.to_nat (count (box j))) - 1).
  split.
  - rewrite (tgt_split pb bb ext adaptive dims st Hwf j Hj Hs).
    rewrite (rank_decomposition (fun j' => key j') _ _ j) by lia. lia.
  - pose proof (count_in_single (start (box j)) (Z.to_nat (count (box j))) j ltac:(lia))
      as Hone.
    assert (Hlow : count_in (fun j' => j' =? j) (start (box j)) (Z.to_nat (count (box j)))
                   <= count_in (fun j' => (key j' =? key j) && (j' <? j + 1))
                        (start (box j)) (Z.to_nat (count (box j)))).
    { apply count_in_le. intros j' _ Hj'. apply Z.eqb_eq in Hj'. rewrite Hj'.
      rewrite Z.eqb_refl. apply Z.ltb_lt. lia. }
    assert (Hhigh : count_in (fun j' => (key j' =? key j) && (j' <? j + 1))
                      (start (box j)) (Z.to_nat (count (box j)))
                    <= equal (box j) (key j)).
    { apply count_in_le. intros j' _ Hj'. apply andb_true_iff in Hj'. apply Hj'. }
    lia.
Qed.

(** In a range, the particles below [a] and those equal to [a] are below
    any larger [b]. *)
Lemma below_step (s : Z) (n : nat) (a b : Z) :
  a < b ->
  count_in (fun j => key j <? a) s n + count_in (fun j => key j =? a) s n
    <= count_in (fun j => key j <? b) s n.
Proof.
  intros Hab. rewrite <- count_in_or.
  - apply count_in_le. intros j _ Hj. apply Z.ltb_lt.
    apply orb_true_iff in Hj. destruct Hj as [Hj | Hj];
      [apply Z.ltb_lt in Hj | apply Z.eqb_eq in Hj]; lia.
  - intros j _ Hj. apply Z.ltb_lt in Hj. apply Z.eqb_neq. lia.
Qed.

(** The start that the lane stores in a child box record. *)
Lemma new_box_start_value (i : Z) (cb : child_box_t) :
  0 <= i < Z.of_nat N -> child_box (lane i) = Some cb ->
  new_box_start cb = start (box i) + below (box i) (key i)
  /\ new_count cb = equal (box i) (key i).
Proof.
  intros Hi Hcb.
  destruct (child_box_inv pb bb ext adaptive dims st i cb Hcb) as [Hs [Hk [_ Heq]]].
  pose proof (splits_current pb bb ext adaptive dims st _ Hs) as Hcur.
  pose proof (wf_box pb bb ext dims st Hwf i Hi Hcur) as [_ [_ [_ [Hsi [Hni _]]]]].
  destruct (box_counts_totals pb bb ext dims st Hwf i Hi Hcur) as [Htot Hnct].
  assert (Hin : In (Z.to_nat (key i)) (mnrs dims)) by (apply in_mnrs; lia).
  split.
  2:{ rewrite Heq. cbn [new_count]. rewrite (Htot _ Hin), Z2Nat.id by lia. reflexivity. }
  unfold split_and_sort in Hcb. rewrite Hs in Hcb. cbn [child_box] in Hcb.
  unfold child_box_of in Hcb.
  destruct (find _ (mnrs dims)) as [mnr |] eqn:Ef; [| discriminate].
  injection Hcb as <-. cbn [new_box_start].
  apply find_some in Ef. destruct Ef as [Hmnr Hp].
  apply andb_true_iff in Hp. destruct Hp as [Hp _]. apply Z.eqb_eq in Hp.
  apply in_mnrs in Hmnr.
  set (t := fun sub => fld (pcnt (box_counts pb ext dims st (box i))) sub).
  assert (Hsum : sum_terms t (seq 0 mnr)
                 = count_in (fun j => (0 <=? key j) && (key j <? Z.of_nat mnr))
                     (start (box i)) (Z.to_nat (count (box i)))).
  { rewrite <- sum_octant_counts. apply sum_terms_ext. intros sub Hsub.
    apply in_seq in Hsub. unfold t. apply Htot. apply in_mnrs. lia. }
  assert (Hnn : forall sub, In sub (seq 0 mnr) -> 0 <= t sub).
  { intros sub Hsub. apply in_seq in Hsub. unfold t. rewrite Htot by (apply in_mnrs; lia).
    apply count_in_bounds. }
  assert (Hbelow : below (box i) (key i)
                   = (if ext then equal (box i) (-1) else 0)
                     + count_in (fun j => (0 <=? key j) && (key j <? Z.of_nat mnr))
                         (start (box i)) (Z.to_nat (count (box i)))).
  { rewrite (smaller_keys pb bb ext dims st Hwf) by (try lia; clear Hnct; destruct ext; lia).
    replace (key i >=? 0) with true by (symmetry; apply Z.geb_le; lia).
    f_equal. apply count_in_ext. intros j Hj. rewrite Hp.
    pose proof (wf_key pb bb ext dims st Hwf j ltac:(lia)) as Hkj.
    rewrite (pow2_of_nat dims).
    destruct (Z.ltb_spec (key j) (key i)); [| now rewrite !andb_false_r].
    replace (key j <? 2 ^ Z.of_nat dims) with true by (symmetry; apply Z.ltb_lt; lia).
    now rewrite !andb_true_r. }
  pose proof (below_step (start (box i)) (Z.to_nat (count (box i))) (key i) (key i + 1)
                ltac:(lia)) as Hstep.
  pose proof (count_in_bounds (fun j => key j <? key i + 1)
                (start (box i)) (Z.to_nat (count (box i)))) as Hb1.
  pose proof (count_in_bounds (fun j => key j =? key i)
                (start (box i)) (Z.to_nat (count (box i)))) as Hb2.
  pose proof (count_in_bounds (fun j => key j =? -1)
                (start (box i)) (Z.to_nat (count (box i)))) as Hb3.
  pose proof (count_in_bounds (fun j => (0 <=? key j) && (key j <? Z.of_nat mnr))
                (start (box i)) (Z.to_nat (count (box i)))) as Hb4.
  pose proof (small_in_range pb bb ext dims st Hwf) as Hsmall.
  assert (in_range pb 0) as [Hmin _] by (apply Hsmall; lia).
  assert (in_range pb (Z.of_nat N)) as [_ Hmax] by (apply Hsmall; lia).
  rewrite Hnct. rewrite Hbelow in *. clear Hnct Htot Hbelow.
  change (fold_left (fun start0 sub => wrap pb (start0 + t sub)) (seq 0 mnr)
            (if ext
             then wrap pb (start (box i)
                           + (if ext then equal (box i) (-1) else 0))
             else start (box i))
          = start (box i)
            + ((if ext then equal (box i) (-1) else 0)
               + count_in (fun j => (0 <=? key j) && (key j <? Z.of_nat mnr))
                   (start (box i)) (Z.to_nat (count (box i))))).
  destruct ext.
  - rewrite (wrap_small pb (_ + _)) by (apply Hsmall; lia).
    rewrite (fold_wrap_sum pb t); [lia | exact Hnn | lia | lia].
  - rewrite (fold_wrap_sum pb t); [lia | exact Hnn | lia | lia].
Qed.

End ChildRangeFacts.

(** The range that a child box record announces holds exactly the
    particles of the parent with the Morton number of that child, and
    these particles carry the id of the child. *)
Theorem child_box_record_matches_particles
    (pb bb : positive) (ext adaptive : bool) (dims : nat) (st : level_args)
    (i : Z) (cb : child_box_t) :
  wf_level pb bb ext dims st = true ->
  0 <= i < Z.of_nat (nsrcntgts st) ->
  child_box (split_and_sort pb bb ext adaptive dims st i) = Some cb ->
  forall j, 0 <= j < Z.of_nat (nsrcntgts st) ->
    rd 0 (srcntgt_box_ids st) j = rd 0 (srcntgt_box_ids st) i ->
    (rd 0 (morton_nrs st) j = new_box_morton_nr cb
     <-> new_box_start cb <= tgt_particle_idx (split_and_sort pb bb ext adaptive dims st j)
           < new_box_start cb + new_count cb)
    /\ (rd 0 (morton_nrs st) j = new_box_morton_nr cb ->
        new_srcntgt_box_id (split_and_sort pb bb ext adaptive dims st j) = new_box_id cb).
Proof.
  intros Hwf Hi Hcb j Hj Hbox.
  destruct (child_box_inv pb bb ext adaptive dims st i cb Hcb) as [Hs [Hk [_ Heq]]].
  destruct (new_box_start_value pb bb ext adaptive dims st Hwf i cb Hi Hcb) as [Hstart Hcount].
  assert (Hm : new_box_morton_nr cb = rd 0 (morton_nrs st) i)
    by (rewrite Heq; reflexivity).
  assert (Hsj : do_split_box pb bb ext adaptive dims st (rd 0 (srcntgt_box_ids st) j) = true)
    by (rewrite Hbox; exact Hs).
  destruct (tgt_decomposition pb bb ext adaptive dims st Hwf j Hj Hsj) as [place [Htgt Hplace]].
  rewrite Hbox in Htgt, Hplace. rewrite Hm, Hstart, Hcount, Htgt.
  set (s := rd 0 (box_srcntgt_starts st) (rd 0 (srcntgt_box_ids st) i)) in *.
  set (n := Z.to_nat (rd 0 (box_srcntgt_counts_cumul st) (rd 0 (srcntgt_box_ids st) i))) in *.
  split.
  - split.
    + intros E. rewrite E in *. lia.
    + intros Hr.
      destruct (Z.lt_trichotomy (rd 0 (morton_nrs st) j) (rd 0 (morton_nrs st) i))
        as [Hlt | [E | Hgt]]; [exfalso | exact E | exfalso].
      * pose proof (below_step st s n _ _ Hlt). lia.
      * pose proof (below_step st s n _ _ Hgt). lia.
  - intros E.
    unfold split_and_sort. rewrite Hsj. cbn [new_srcntgt_box_id].
    rewrite Heq. cbn [new_box_id].
    pose proof (splits_current pb bb ext adaptive dims st _ Hs) as Hcur.
    pose proof (splits_current pb bb ext adaptive dims st _ Hsj) as Hcurj.
    rewrite (new_box_id_value pb bb ext adaptive dims st Hwf j Hj Hsj) by (rewrite E; exact Hk).
    rewrite (new_box_id_value pb bb ext adaptive dims st Hwf i Hi Hs Hk).
    rewrite (split_box_id_in_box pb bb ext adaptive dims st Hwf j Hj Hcurj).
    rewrite (split_box_id_in_box pb bb ext adaptive dims st Hwf i Hi Hcur).
    rewrite Hbox, E. reflexivity.
Qed.

Lemma child_box_record_matches_particles_witness :
  match child_box (split_and_sort 32 32 true true 1 sample_level 3) with
  | Some cb =>
      rd 0 (morton_nrs sample_level) 0 = new_box_morton_nr cb
      <-> new_box_start cb <= tgt_particle_idx (split_and_sort 32 32 true true 1 sample_level 0)
            < new_box_start cb + new_count cb
  | None => False
  end.
Proof.
  destruct (child_box (split_and_sort 32 32 true true 1 sample_level 3)) as [cb |] eqn:Hcb.
  - apply (child_box_record_matches_particles 32 32 true true 1 sample_level 3 cb
             ltac:(vm_compute; reflexivity) ltac:(vm_compute; split; congruence) Hcb
             0 ltac:(vm_compute; split; congruence) ltac:(vm_compute; reflexivity)).
  - vm_compute in Hcb. discriminate.
Defined.

(** Non-child particles of a splitting box stay in the box: they fill the
    first slots of its range, keep its id and write no child record; the
    particles with an octant come after them. *)
Theorem nonchild_particles_stay_first
    (pb bb : positive) (ext adaptive : bool) (dims : nat) (st : level_args) (i : Z) :
  wf_level pb bb ext dims st = true ->
  0 <= i < Z.of_nat (nsrcntgts st) ->
  do_split_box pb bb ext adaptive dims st (rd 0 (srcntgt_box_ids st) i) = true ->
  let ibox := rd 0 (srcntgt_box_ids st) i in
  let first_child_slot :=
    rd 0 (box_srcntgt_starts st) ibox
    + nonchild_srcntgts_in_box pb ext dims st ibox in
  (rd 0 (morton_nrs st) i = -1 ->
     tgt_particle_idx (split_and_sort pb bb ext adaptive dims st i) < first_child_slot
     /\ new_srcntgt_box_id (split_and_sort pb bb ext adaptive dims st i) = ibox
     /\ child_box (split_and_sort pb bb ext adaptive dims st i) = None)
  /\ (0 <= rd 0 (morton_nrs st) i ->
        first_child_slot <= tgt_particle_idx (split_and_sort pb bb ext adaptive dims st i)).
Proof.
  intros Hwf Hi Hs ibox first_child_slot. subst ibox first_child_slot.
  pose proof (splits_current pb bb ext adaptive dims st _ Hs) as Hcur.
  pose proof (wf_box pb bb ext dims st Hwf i Hi Hcur) as [_ [_ [_ [Hsi [Hni _]]]]].
  pose proof (wf_key pb bb ext dims st Hwf i Hi) as Hkey.
  destruct (box_counts_totals pb bb ext dims st Hwf i Hi Hcur) as [_ Hnct].
  destruct (tgt_decomposition pb bb ext adaptive dims st Hwf i Hi Hs) as [place [Htgt Hplace]].
  unfold nonchild_srcntgts_in_box. rewrite Hnct, Htgt.
  set (s := rd 0 (box_srcntgt_starts st) (rd 0 (srcntgt_box_ids st) i)) in *.
  set (n := Z.to_nat (rd 0 (box_srcntgt_counts_cumul st) (rd 0 (srcntgt_box_ids st) i))) in *.
  assert (Hnone : count_in (fun j => rd 0 (morton_nrs st) j <? -1) s n = 0).
  { apply count_in_none. intros j Hj.
    pose proof (wf_key pb bb ext dims st Hwf j ltac:(lia)) as Hkj.
    apply Z.ltb_ge. clear Hnct Hkey. destruct ext; lia. }
  split.
  - intros E. assert (Hext : ext = true) by (clear Hnct; destruct ext; [reflexivity | lia]).
    rewrite E in *. rewrite Hnone. clear Hnct. subst ext. split; [lia |].
    unfold split_and_sort. rewrite Hs. cbn [new_srcntgt_box_id child_box].
    split.
    + unfold new_box_id_of. rewrite E. reflexivity.
    + destruct (child_box_of pb bb true adaptive dims st i) as [cb |] eqn:Ecb; [| reflexivity].
      exfalso.
      assert (Hcb : child_box (split_and_sort pb bb true adaptive dims st i) = Some cb).
      { unfold split_and_sort. rewrite Hs. exact Ecb. }
      destruct (child_box_inv pb bb true adaptive dims st i cb Hcb) as [_ [Hk _]]. lia.
  - intros Hk.
    pose proof (below_step st s n (-1) (rd 0 (morton_nrs st) i) ltac:(lia)) as Hstep.
    pose proof (count_in_bounds (fun j => rd 0 (morton_nrs st) j =? -1) s n).
    clear Hnct Hkey. destruct ext; lia.
Qed.

Lemma nonchild_particles_stay_first_witness :
  tgt_particle_idx (split_and_sort 32 32 true true 1 sample_level 2)
    < rd 0 (box_srcntgt_starts sample_level) 0
      + nonchild_srcntgts_in_box 32 true 1 sample_level 0
  /\ new_srcntgt_box_id (split_and_sort 32 32 true true 1 sample_level 2) = 0.
Proof.
  destruct (nonchild_particles_stay_first 32 32 true true 1 sample_level 2
              ltac:(vm_compute; reflexivity) ltac:(vm_compute; split; congruence)
              ltac:(vm_compute; reflexivity)) as [Hstay _].
  destruct (Hstay ltac:(vm_compute; reflexivity)) as [Hr [Hid _]].
  split; [exact Hr | exact Hid].
Defined.

(** After the Morton scan the record of a box of the current level holds,
    for each octant, the number of particles of the box with that Morton
    number, and the number of its non-child particles; together they
    account for every particle of the box. *)
Theorem morton_bin_counts_partition_box
    (pb bb : positive) (ext : bool) (dims : nat) (st : level_args) (i0 : Z) :
  wf_level pb bb ext dims st = true ->
  0 <= i0 < Z.of_nat (nsrcntgts st) ->
  box_is_current ext st (rd 0 (srcntgt_box_ids st) i0) = true ->
  let ibox := rd 0 (srcntgt_box_ids st) i0 in
  let s := rd 0 (box_srcntgt_starts st) ibox in
  let n := Z.to_nat (rd 0 (box_srcntgt_counts_cumul st) ibox) in
  let c := box_counts pb ext dims st ibox in
  (forall mnr, In mnr (mnrs dims) ->
     fld (pcnt c) mnr = count_in (fun j => rd 0 (morton_nrs st) j =? Z.of_nat mnr) s n)
  /\ nonchild_srcntgts c
       = (if ext then count_in (fun j => rd 0 (morton_nrs st) j =? -1) s n else 0)
  /\ nonchild_srcntgts c + sum_terms (fld (pcnt c)) (mnrs dims)
       = rd 0 (box_srcntgt_counts_cumul st) ibox.
Proof.
  intros Hwf Hi Hcur ibox s n c. subst ibox s n c.
  destruct (box_counts_totals pb bb ext dims st Hwf i0 Hi Hcur) as [Htot Hnct].
  pose proof (wf_box pb bb ext dims st Hwf i0 Hi Hcur) as [_ [_ [_ [Hs [Hn _]]]]].
  split; [exact Htot |]. split; [exact Hnct |].
  rewrite (sum_terms_ext _ _ _ Htot). unfold mnrs. rewrite sum_octant_counts, Hnct.
  rewrite (all_counted pb bb ext dims st Hwf) by lia. lia.
Qed.

Lemma morton_bin_counts_partition_box_witness :
  nonchild_srcntgts (box_counts 32 true 1 sample_level 0)
  + sum_terms (fld (pcnt (box_counts 32 true 1 sample_level 0))) (mnrs 1)
  = rd 0 (box_srcntgt_counts_cumul sample_level) 0.
Proof.
  apply (morton_bin_counts_partition_box 32 32 true 1 sample_level 0
           ltac:(vm_compute; reflexivity) ltac:(vm_compute; split; congruence)
           ltac:(vm_compute; reflexivity)).
Defined.

Lemma in_box_has_children_writes
    (pb bb : positive) (ext adaptive : bool) (dims : nat) (st : level_args) (b v : Z) :
  In (b, v) (box_has_children_writes pb bb ext adaptive dims st)
  <-> v = 1 /\ exists i, 0 <= i < Z.of_nat (nsrcntgts st)
                         /\ rd 0 (srcntgt_box_ids st) i = b
                         /\ split_test pb ext adaptive dims st i b = true.
Proof.
  unfold box_has_children_writes. rewrite in_flat_map. split.
  - intros [i [Hi Hin]]. apply in_iota in Hi.
    unfold split_scan_input, count_new_boxes_needed in Hin.
    destruct (split_test pb ext adaptive dims st i (rd 0 (srcntgt_box_ids st) i)) eqn:Et;
      cbn [snd] in Hin; [| destruct Hin].
    destruct Hin as [Hin | []]. injection Hin as <- <-.
    split; [reflexivity |]. exists i. auto.
  - intros [-> [i [Hi [Hb Ht]]]]. exists i. split; [apply in_iota; exact Hi |].
    unfold split_scan_input, count_new_boxes_needed. subst b. rewrite Ht.
    cbn [snd]. left. reflexivity.
Qed.

(** The split scan marks a box as having children exactly when one of its
    particles passes the split test; every other entry of
    [box_has_children] keeps its value, so that a mark is never cleared. *)
Theorem box_has_children_marks_split_boxes
    (pb bb : positive) (ext adaptive : bool) (dims : nat) (st : level_args) (b : Z) :
  0 <= b < len (box_has_children st) ->
  rd 0 (box_has_children_out pb bb ext adaptive dims st) b
  = if existsb (fun i => (rd 0 (srcntgt_box_ids st) i =? b)
                         && split_test pb ext adaptive dims st i b)
               (iota (nsrcntgts st))
    then 1
    else rd 0 (box_has_children st) b.
Proof.
  intros Hb. unfold box_has_children_out.
  destruct (existsb _ (iota (nsrcntgts st))) eqn:Ex.
  - apply existsb_exists in Ex. destruct Ex as [i [Hi Hp]].
    apply in_iota in Hi. apply andb_true_iff in Hp. destruct Hp as [Hbox Ht].
    apply Z.eqb_eq in Hbox.
    apply apply_writes_agree; [| | exact Hb].
    + intros v' Hin. apply in_box_has_children_writes in Hin. apply Hin.
    + apply in_box_has_children_writes. split; [reflexivity |]. exists i. auto.
  - apply apply_writes_untouched. intros Hin.
    apply in_map_iff in Hin. destruct Hin as [[b' v] [Hfst Hin]].
    cbn [fst] in Hfst. subst b'.
    apply in_box_has_children_writes in Hin. destruct Hin as [_ [i [Hi [Hbox Ht]]]].
    assert (Hex : existsb (fun i => (rd 0 (srcntgt_box_ids st) i =? b)
                                    && split_test pb ext adaptive dims st i b)
                    (iota (nsrcntgts st)) = true).
    { apply existsb_exists. exists i. split; [apply in_iota; exact Hi |].
      rewrite Ht, andb_true_r. apply Z.eqb_eq. exact Hbox. }
    rewrite Hex in Ex. discriminate.
Qed.

Lemma box_has_children_marks_split_boxes_witness :
  rd 0 (box_has_children_out 32 32 true true 1 sample_level) 0 = 1.
Proof.
  apply (box_has_children_marks_split_boxes 32 32 true true 1 sample_level 0
           ltac:(vm_compute; split; congruence)).
Defined.

(** ** Scans that compact flagged entries *)

Lemma psum_0 (xs : list Z) : psum xs 0 = 0.
Proof. reflexivity. Qed.

Lemma psum_map_iota_count (p : Z -> bool) (n k : nat) :
  (k <= n)%nat ->
  psum (map (fun i => if p i then 1 else 0) (iota n)) k = count_in p 0 k.
Proof.
  induction k as [| k IH]; intros Hk; [reflexivity |].
  rewrite psum_snoc by (rewrite length_map, length_iota; lia).
  rewrite IH by lia. rewrite nth_map_iota by lia. reflexivity.
Qed.

Lemma count_in_in_range (w : positive) (p : Z -> bool) (a : Z) (k : nat) :
  Z.of_nat k <= max_int w -> in_range w (count_in p a k).
Proof.
  intros Hk. pose proof (count_in_bounds p a k).
  unfold in_range, min_int, max_int in *.
  pose proof (pow2_pos (Z.pos w - 1)). lia.
Qed.

Lemma count_in_split (p : Z -> bool) (a : Z) (k1 k2 : nat) :
  count_in p a (k1 + k2) = count_in p a k1 + count_in p (a + Z.of_nat k1) k2.
Proof.
  induction k2 as [| k2 IH].
  - rewrite Nat.add_0_r. cbn [count_in]. lia.
  - rewrite Nat.add_succ_r. cbn [count_in]. rewrite IH.
    replace (a + Z.of_nat (k1 + k2)) with (a + Z.of_nat k1 + Z.of_nat k2) by lia. lia.
Qed.

Lemma count_in_mono (p : Z -> bool) (a : Z) (k k' : nat) :
  (k <= k')%nat -> count_in p a k <= count_in p a k'.
Proof.
  intros Hk. replace k' with (k + (k' - k))%nat by lia. rewrite count_in_split.
  pose proof (count_in_bounds p (a + Z.of_nat k) (k' - k)). lia.
Qed.

(** The kept entries, in order, get the numbers 0, 1, 2, ... *)
Lemma kept_enumerated (p : Z -> bool) (n : nat) :
  map (fun i => count_in p 0 (Z.to_nat i)) (filter p (iota n))
    = iota (Z.to_nat (count_in p 0 n)).
Proof.
  induction n as [| n IH]; [reflexivity |].
  rewrite iota_S, filter_app, map_app, IH. cbn [filter count_in].
  pose proof (count_in_bounds p 0 n) as Hb.
  rewrite Z.add_0_l. destruct (p (Z.of_nat n)).
  - replace (Z.to_nat (count_in p 0 n + 1)) with (S (Z.to_nat (count_in p 0 n))) by lia.
    rewrite iota_S. cbn [map]. rewrite Nat2Z.id, Z2Nat.id by lia. reflexivity.
  - rewrite Z.add_0_r, app_nil_r. reflexivity.
Qed.

(** The scan of an indicator over the lanes [0, n). *)
Lemma indicator_scan_items (w : positive) (p : Z -> bool) (n i : nat) :
  Z.of_nat n <= max_int w -> (i < n)%nat ->
  rd 0 (scan_items (add_expr w)
          (unsegmented (map (fun i => if p i then 1 else 0) (iota n)))) (Z.of_nat i)
    = count_in p 0 (S i)
  /\ rd 0 (prev_items 0 (scan_items (add_expr w)
             (unsegmented (map (fun i => if p i then 1 else 0) (iota n))))) (Z.of_nat i)
    = count_in p 0 i.
Proof.
  intros Hn Hi.
  set (xs := map (fun i => if p i then 1 else 0) (iota n)).
  assert (Hlen : length xs = n) by (unfold xs; rewrite length_map, length_iota; reflexivity).
  assert (Hr : forall k, (k <= length xs)%nat -> in_range w (psum xs k)).
  { intros k Hk. rewrite Hlen in Hk. unfold xs.
    rewrite psum_map_iota_count by exact Hk. apply count_in_in_range. lia. }
  rewrite prev_items_add, scan_items_add by exact Hr.
  rewrite Hlen, !rd_map_seq by exact Hi.
  unfold xs. rewrite !psum_map_iota_count by lia. split; reflexivity.
Qed.

Section TargetFilterFacts.

Variables sb pb : positive.
Variable flags : list Z.
Hypothesis Hsb : len flags <= max_int sb.
Hypothesis Hpb : len flags <= max_int pb.

Lemma target_filter_inputs :
  map (target_filter_input flags) (iota (target_filter_N flags))
    = map (fun i => if flagged flags i then 1 else 0) (iota (length flags)).
Proof.
  apply map_ext. intros i. unfold target_filter_input, flagged.
  destruct (rd 0 flags i =? 0); reflexivity.
Qed.

Lemma target_filter_item_eq (i : nat) :
  (i < length flags)%nat ->
  target_filter_item sb flags (Z.of_nat i) = count_in (flagged flags) 0 (S i).
Proof.
  intros Hi. unfold target_filter_item, target_filter_items.
  rewrite target_filter_inputs. apply indicator_scan_items; [exact Hsb | exact Hi].
Qed.

Lemma target_filter_prev_item_eq (i : nat) :
  (i < length flags)%nat ->
  target_filter_prev_item sb flags (Z.of_nat i) = count_in (flagged flags) 0 i.
Proof.
  intros Hi. unfold target_filter_prev_item, target_filter_items.
  rewrite target_filter_inputs. apply indicator_scan_items; [exact Hsb | exact Hi].
Qed.

Lemma filtered_from_unfiltered_after (ffu0 : list Z) (i : nat) :
  (length flags <= length ffu0)%nat -> (i < length flags)%nat ->
  rd 0 (apply_writes ffu0 (filtered_from_unfiltered_writes sb pb flags)) (Z.of_nat i)
    = count_in (flagged flags) 0 i.
Proof.
  intros Hlen Hi. unfold filtered_from_unfiltered_writes.
  erewrite apply_writes_written.
  - reflexivity.
  - rewrite map_fst_keyed. apply NoDup_iota.
  - apply in_map_iff. exists (Z.of_nat i). split.
    + rewrite target_filter_prev_item_eq by exact Hi.
      rewrite wrap_small; [reflexivity |].
      apply count_in_in_range. unfold len in Hpb. lia.
    + apply in_iota. unfold target_filter_N. lia.
  - unfold len. lia.
Qed.

Lemma unfiltered_from_filtered_writes_eq :
  unfiltered_from_filtered_writes sb pb flags
    = map (fun i => (count_in (flagged flags) 0 (Z.to_nat i), i))
          (filter (flagged flags) (iota (length flags))).
Proof.
  unfold unfiltered_from_filtered_writes, target_filter_N.
  rewrite (filter_ext_in _ (flagged flags)).
  - apply map_ext_in. intros i Hin. apply filter_In in Hin. destruct Hin as [Hin _].
    apply in_iota in Hin. f_equal.
    + replace i with (Z.of_nat (Z.to_nat i)) at 1 by lia.
      apply target_filter_prev_item_eq. lia.
    + apply wrap_small. unfold len, in_range, min_int, max_int in *.
      pose proof (pow2_pos (Z.pos pb - 1)). lia.
  - intros i Hin. apply in_iota in Hin.
    replace i with (Z.of_nat (Z.to_nat i)) at 1 2 by lia.
    rewrite target_filter_item_eq, target_filter_prev_item_eq by lia.
    cbn [count_in]. rewrite Z.add_0_l, Z2Nat.id by lia.
    destruct (flagged flags i).
    + apply negb_true_iff, Z.eqb_neq. lia.
    + apply negb_false_iff, Z.eqb_eq. lia.
Qed.

Lemma unfiltered_from_filtered_after (uff0 : list Z) (i : nat) :
  (length flags <= length uff0)%nat -> (i < length flags)%nat ->
  flagged flags (Z.of_nat i) = true ->
  rd 0 (apply_writes uff0 (unfiltered_from_filtered_writes sb pb flags))
     (count_in (flagged flags) 0 i) = Z.of_nat i.
Proof.
  intros Hlen Hi Hf. rewrite unfiltered_from_filtered_writes_eq.
  apply apply_writes_written.
  - rewrite map_map. cbn [fst]. rewrite kept_enumerated. apply NoDup_iota.
  - apply in_map_iff. exists (Z.of_nat i). split.
    + rewrite Nat2Z.id. reflexivity.
    + apply filter_In. split; [apply in_iota; lia | exact Hf].
  - pose proof (count_in_bounds (flagged flags) 0 i). unfold len. lia.
Qed.

Lemma nfiltered_targets_after (nf0 : list Z) :
  (0 < length flags)%nat -> (0 < length nf0)%nat ->
  rd 0 (apply_writes nf0 (nfiltered_targets_writes sb pb flags)) 0
    = count_in (flagged flags) 0 (length flags).
Proof.
  intros Hpos Hnf. unfold nfiltered_targets_writes, target_filter_N.
  destruct (length flags) as [| n] eqn:En; [lia |].
  rewrite last_lane_only. cbn [map apply_writes fold_left fst snd].
  rewrite rd_wr_same by (unfold len; lia).
  rewrite target_filter_item_eq by lia.
  apply wrap_small, count_in_in_range. unfold len in Hpb. lia.
Qed.

(** The flagged target with a given filtered index. *)
Lemma flagged_with_index (j : Z) :
  0 <= j < count_in (flagged flags) 0 (length flags) ->
  exists i : nat, (i < length flags)%nat /\ flagged flags (Z.of_nat i) = true
                  /\ count_in (flagged flags) 0 i = j.
Proof.
  intros Hj. pose proof (kept_enumerated (flagged flags) (length flags)) as Henum.
  set (L := filter (flagged flags) (iota (length flags))) in *.
  assert (HlenL : length L = Z.to_nat (count_in (flagged flags) 0 (length flags))).
  { rewrite <- (length_iota (Z.to_nat _)), <- Henum, length_map. reflexivity. }
  assert (Hin : In (nth (Z.to_nat j) L 0) L) by (apply nth_In; lia).
  apply filter_In in Hin. destruct Hin as [Hrange Hf]. apply in_iota in Hrange.
  exists (Z.to_nat (nth (Z.to_nat j) L 0)). split; [lia |].
  split; [rewrite Z2Nat.id by lia; exact Hf |].
  pose proof (f_equal (fun l => nth (Z.to_nat j) l 0) Henum) as Hnth. cbn beta in Hnth.
  rewrite (nth_indep _ 0 (count_in (flagged flags) 0 (Z.to_nat 0))) in Hnth
    by (rewrite length_map; lia).
  rewrite (map_nth (fun i => count_in (flagged flags) 0 (Z.to_nat i))) in Hnth.
  rewrite Hnth. unfold iota.
  rewrite (nth_indep _ 0 (Z.of_nat 0)) by (rewrite length_map, length_seq; lia).
  rewrite map_nth, seq_nth by lia. lia.
Qed.

End TargetFilterFacts.

(** The target filter scan numbers the flagged targets in tree order:
    [filtered_from_unfiltered_target_index[i]] counts the flagged targets
    before [i], [nfiltered_targets] counts all of them, and
    [unfiltered_from_filtered_target_index] lists the flagged targets
    only and is the inverse map on them. *)
Theorem target_filter_scan_inverse_maps
    (sb pb : positive) (tree_order_flags ffu0 uff0 nf0 : list Z)
    (filtered_from_unfiltered unfiltered_from_filtered nfiltered_targets : list Z) :
  tree_order_target_filter_scan sb pb tree_order_flags ffu0 uff0 nf0
    = (filtered_from_unfiltered, unfiltered_from_filtered, nfiltered_targets) ->
  (0 < length tree_order_flags)%nat ->
  len tree_order_flags <= max_int sb ->
  len tree_order_flags <= max_int pb ->
  (length tree_order_flags <= length ffu0)%nat ->
  (length tree_order_flags <= length uff0)%nat ->
  (0 < length nf0)%nat ->
  (forall i, 0 <= i < len tree_order_flags ->
     rd 0 filtered_from_unfiltered i
       = count_in (flagged tree_order_flags) 0 (Z.to_nat i))
  /\ rd 0 nfiltered_targets 0
       = count_in (flagged tree_order_flags) 0 (length tree_order_flags)
  /\ (forall i, 0 <= i < len tree_order_flags ->
        rd 0 tree_order_flags i <> 0 ->
        rd 0 unfiltered_from_filtered (rd 0 filtered_from_unfiltered i) = i)
  /\ (forall j, 0 <= j < rd 0 nfiltered_targets 0 ->
        0 <= rd 0 unfiltered_from_filtered j < len tree_order_flags
        /\ rd 0 tree_order_flags (rd 0 unfiltered_from_filtered j) <> 0
        /\ rd 0 filtered_from_unfiltered (rd 0 unfiltered_from_filtered j) = j).
Proof.
  intros Hrun Hpos Hsb Hpb Hffu Huff Hnf.
  unfold tree_order_target_filter_scan in Hrun. injection Hrun as <- <- <-.
  split; [| split; [| split]].
  - intros i Hi. replace i with (Z.of_nat (Z.to_nat i)) at 1 by lia.
    apply filtered_from_unfiltered_after; try assumption. unfold len in Hi. lia.
  - apply nfiltered_targets_after; assumption.
  - intros i Hi Hne. unfold len in Hi.
    replace i with (Z.of_nat (Z.to_nat i)) by lia.
    rewrite filtered_from_unfiltered_after by (try assumption; lia).
    apply unfiltered_from_filtered_after; try assumption; [lia |].
    unfold flagged. apply negb_true_iff, Z.eqb_neq.
    rewrite Z2Nat.id by lia. exact Hne.
  - intros j Hj. rewrite nfiltered_targets_after in Hj by assumption.
    destruct (flagged_with_index tree_order_flags j Hj) as [i [Hi [Hf Hc]]].
    rewrite <- Hc.
    rewrite (unfiltered_from_filtered_after sb pb tree_order_flags Hsb Hpb uff0 i Huff Hi Hf).
    split; [unfold len; lia |]. split.
    + unfold flagged in Hf. apply negb_true_iff, Z.eqb_neq in Hf. exact Hf.
    + apply filtered_from_unfiltered_after; assumption.
Qed.

Lemma target_filter_scan_inverse_maps_witness :
  let '(ffu, uff, nf) :=
    tree_order_target_filter_scan 32 32 filter_sample
      [9; 9; 9; 9; 9; 9] [9; 9; 9; 9; 9; 9] [9] in
  rd 0 nf 0 = count_in (flagged filter_sample) 0 6
  /\ rd 0 uff (rd 0 ffu 3) = 3.
Proof.
  destruct (tree_order_target_filter_scan 32 32 filter_sample
              [9; 9; 9; 9; 9; 9] [9; 9; 9; 9; 9; 9] [9]) as [[ffu uff] nf] eqn:Hrun.
  destruct (target_filter_scan_inverse_maps 32 32 filter_sample
              [9; 9; 9; 9; 9; 9] [9; 9; 9; 9; 9; 9] [9] ffu uff nf Hrun
              ltac:(cbn; lia) ltac:(vm_compute; congruence) ltac:(vm_compute; congruence)
              ltac:(cbn; lia) ltac:(cbn; lia) ltac:(cbn; lia))
    as [_ [Hn [Hinv _]]].
  split; [exact Hn |].
  apply Hinv; [vm_compute; split; congruence | vm_compute; congruence].
Defined.

(** Composed with the scan, the index finder gives each box the filtered
    range of its own targets: the filtered count is the number of flagged
    targets in the range of the box, and the filtered start is the number
    of flagged targets before it. A box whose range ends with the last
    target takes its end from [nfiltered_targets]. *)
Theorem target_filter_index_counts_flagged
    (sb pb : positive) (tree_order_flags ffu0 uff0 nf0 : list Z)
    (filtered_from_unfiltered unfiltered_from_filtered nfiltered_targets : list Z)
    (box_target_starts box_target_counts_nonchild sf0 cf0 : list Z)
    (box_target_starts_filtered box_target_counts_nonchild_filtered : list Z)
    (b : Z) :
  tree_order_target_filter_scan sb pb tree_order_flags ffu0 uff0 nf0
    = (filtered_from_unfiltered, unfiltered_from_filtered, nfiltered_targets) ->
  tree_order_target_filter_index pb box_target_starts box_target_counts_nonchild
    filtered_from_unfiltered (len tree_order_flags) (rd 0 nfiltered_targets 0) sf0 cf0
    = (box_target_starts_filtered, box_target_counts_nonchild_filtered) ->
  (0 < length tree_order_flags)%nat ->
  len tree_order_flags <= max_int sb ->
  len tree_order_flags <= max_int pb ->
  (length tree_order_flags <= length ffu0)%nat ->
  (0 < length nf0)%nat ->
  (length box_target_starts <= length sf0)%nat ->
  (length box_target_starts <= length cf0)%nat ->
  0 <= b < len box_target_starts ->
  0 <= rd 0 box_target_starts b ->
  0 <= rd 0 box_target_counts_nonchild b ->
  rd 0 box_target_starts b + rd 0 box_target_counts_nonchild b <= len tree_order_flags ->
  rd 0 box_target_counts_nonchild_filtered b
    = count_in (flagged tree_order_flags) (rd 0 box_target_starts b)
        (Z.to_nat (rd 0 box_target_counts_nonchild b))
  /\ (rd 0 box_target_starts b < len tree_order_flags ->
      rd 0 box_target_starts_filtered b
        = count_in (flagged tree_order_flags) 0 (Z.to_nat (rd 0 box_target_starts b))).
Proof.
  intros Hscan Hindex Hpos Hsb Hpb Hffu Hnf Hsf Hcf Hb Hs Hc Hend.
  unfold tree_order_target_filter_scan in Hscan. injection Hscan as <- _ <-.
  unfold tree_order_target_filter_index in Hindex. injection Hindex as <- <-.
  rewrite nfiltered_targets_after by assumption.
  assert (Hread : forall i, 0 <= i < len tree_order_flags ->
            rd 0 (apply_writes ffu0 (filtered_from_unfiltered_writes sb pb tree_order_flags)) i
              = count_in (flagged tree_order_flags) 0 (Z.to_nat i)).
  { intros i Hi. replace i with (Z.of_nat (Z.to_nat i)) at 1 by lia.
    apply filtered_from_unfiltered_after; try assumption. unfold len in Hi. lia. }
  set (ffu := apply_writes ffu0 (filtered_from_unfiltered_writes sb pb tree_order_flags)) in *.
  set (s := rd 0 box_target_starts b) in *.
  set (c := rd 0 box_target_counts_nonchild b) in *.
  split.
  - erewrite apply_writes_written;
      [ | rewrite map_fst_keyed; apply NoDup_iota
        | apply in_map_iff; exists b; split; [reflexivity | apply in_iota; unfold len in Hb; lia]
        | unfold len in *; lia ].
    unfold filtered_count_of. fold s c. fold ffu.
    destruct (Z.gtb_spec c 0) as [Hgt | Hle].
    + assert (Hmax : in_range pb (s + c)).
      { unfold in_range, min_int, max_int in *. pose proof (pow2_pos (Z.pos pb - 1)). lia. }
      rewrite (wrap_small pb (s + c)) by exact Hmax.
      rewrite (Hread s) by lia.
      assert (Hpost : (if s + c <? len tree_order_flags
                       then rd 0 ffu (s + c)
                       else count_in (flagged tree_order_flags) 0 (length tree_order_flags))
                      = count_in (flagged tree_order_flags) 0 (Z.to_nat (s + c))).
      { destruct (Z.ltb_spec (s + c) (len tree_order_flags)) as [Hlt | Hge].
        - apply Hread. lia.
        - f_equal. unfold len in *. lia. }
      rewrite Hpost.
      replace (Z.to_nat (s + c)) with (Z.to_nat s + Z.to_nat c)%nat by lia.
      rewrite count_in_split, Z2Nat.id by lia.
      replace (count_in (flagged tree_order_flags) 0 (Z.to_nat s)
               + count_in (flagged tree_order_flags) (0 + s) (Z.to_nat c)
               - count_in (flagged tree_order_flags) 0 (Z.to_nat s))
        with (count_in (flagged tree_order_flags) (0 + s) (Z.to_nat c)) by lia.
      rewrite Z.add_0_l. apply wrap_small, count_in_in_range. unfold len in *. lia.
    + replace (Z.to_nat c) with 0%nat by lia. reflexivity.
  - intros Hlt.
    erewrite apply_writes_written;
      [ | rewrite map_fst_keyed; apply NoDup_iota
        | apply in_map_iff; exists b; split; [reflexivity | apply in_iota; unfold len in Hb; lia]
        | unfold len in *; lia ].
    unfold filtered_start_of. fold s. apply Hread. lia.
Qed.

Lemma target_filter_index_counts_flagged_witness :
  let '(ffu, uff, nf) :=
    tree_order_target_filter_scan 32 32 filter_sample
      [9; 9; 9; 9; 9; 9] [9; 9; 9; 9; 9; 9] [9] in
  let '(sf, cf) :=
    tree_order_target_filter_index 32 [0; 2] [2; 4] ffu (len filter_sample) (rd 0 nf 0)
      [9; 9] [9; 9] in
  rd 0 cf 1 = count_in (flagged filter_sample) 2 4.
Proof.
  destruct (tree_order_target_filter_scan 32 32 filter_sample
              [9; 9; 9; 9; 9; 9] [9; 9; 9; 9; 9; 9] [9]) as [[ffu uff] nf] eqn:Hscan.
  destruct (tree_order_target_filter_index 32 [0; 2] [2; 4] ffu (len filter_sample)
              (rd 0 nf 0) [9; 9] [9; 9]) as [sf cf] eqn:Hindex.
  apply (target_filter_index_counts_flagged 32 32 filter_sample
           [9; 9; 9; 9; 9; 9] [9; 9; 9; 9; 9; 9] [9] ffu uff nf
           [0; 2] [2; 4] [9; 9] [9; 9] sf cf 1 Hscan Hindex
           ltac:(cbn; lia) ltac:(vm_compute; congruence) ltac:(vm_compute; congruence)
           ltac:(cbn; lia) ltac:(cbn; lia) ltac:(cbn; lia) ltac:(cbn; lia)
           ltac:(vm_compute; split; congruence) ltac:(vm_compute; congruence)
           ltac:(vm_compute; congruence) ltac:(vm_compute; congruence)).
Defined.

(** ** Point source linking *)

Lemma wrap_wrap (w : positive) (z : Z) : wrap w (wrap w z) = wrap w z.
Proof. apply wrap_small, wrap_range. Qed.

Lemma in_range_between (w : positive) (z : Z) : 0 <= z <= max_int w -> in_range w z.
Proof.
  intros H. unfold in_range, min_int, max_int in *.
  pose proof (pow2_pos (Z.pos w - 1)). lia.
Qed.

Lemma sum_terms_seq_S (t : nat -> Z) (k : nat) :
  sum_terms t (seq 0 (S k)) = sum_terms t (seq 0 k) + t k.
Proof.
  rewrite seq_S, sum_terms_app. unfold sum_terms at 2. cbn [fold_right Nat.add]. lia.
Qed.

Lemma range_sum_S (a : list Z) (s : Z) (c : nat) :
  range_sum a s (S c) = range_sum a s c + rd 0 a (s + Z.of_nat c).
Proof. unfold range_sum. apply sum_terms_seq_S. Qed.

Lemma range_sum_split (a : list Z) (s : Z) (c1 c2 : nat) :
  range_sum a s (c1 + c2) = range_sum a s c1 + range_sum a (s + Z.of_nat c1) c2.
Proof.
  induction c2 as [| c2 IH].
  - rewrite Nat.add_0_r. unfold range_sum at 3. cbn [seq sum_terms fold_right]. lia.
  - rewrite Nat.add_succ_r, !range_sum_S, IH.
    replace (s + Z.of_nat (c1 + c2)) with (s + Z.of_nat c1 + Z.of_nat c2) by lia. lia.
Qed.

Lemma range_sum_nonneg (a : list Z) (s : Z) (c : nat) :
  (forall j, s <= j < s + Z.of_nat c -> 0 <= rd 0 a j) -> 0 <= range_sum a s c.
Proof.
  intros H. unfold range_sum. apply sum_terms_nonneg.
  intros k Hk. apply in_seq in Hk. apply H. lia.
Qed.

Lemma range_sum_ext (a a' : list Z) (s : Z) (c : nat) :
  (forall j, s <= j < s + Z.of_nat c -> rd 0 a j = rd 0 a' j) ->
  range_sum a s c = range_sum a' s c.
Proof.
  intros H. unfold range_sum. apply sum_terms_ext.
  intros k Hk. apply in_seq in Hk. apply H. lia.
Qed.

Lemma psum_range_sum (xs : list Z) (k : nat) :
  (k <= length xs)%nat -> psum xs k = range_sum xs 0 k.
Proof.
  induction k as [| k IH]; intros Hk; [reflexivity |].
  rewrite psum_snoc, range_sum_S, IH by lia.
  rewrite Z.add_0_l, rd_nat. reflexivity.
Qed.

Lemma fold_add_acc (l : list Z) (a : Z) :
  fold_right Z.add a l = fold_right Z.add 0 l + a.
Proof. induction l as [| x l IH]; cbn [fold_right]; [lia | rewrite IH; lia]. Qed.

Lemma fold_add_perm (l l' : list Z) :
  Permutation l l' -> fold_right Z.add 0 l = fold_right Z.add 0 l'.
Proof.
  induction 1 as [| x l l' _ IH | x y l | l l' l'' _ IH1 _ IH2]; cbn [fold_right];
    [reflexivity | rewrite IH; reflexivity | lia | congruence].
Qed.

(** Only the last lane of a scan sees [i+1 == N]. *)
Lemma last_lane_of (n : nat) :
  (0 < n)%nat -> filter (fun i => i + 1 =? Z.of_nat n) (iota n) = [Z.of_nat (n - 1)].
Proof.
  intros Hn. destruct n as [| m]; [lia |].
  rewrite last_lane_only. replace (S m - 1)%nat with m by lia. reflexivity.
Qed.

Section PointSourceScanFacts.

Variables sb pb : positive.
Variables pss uids : list Z.
Variable n : nat.
Hypothesis Hlen : length uids = n.
Hypothesis Hperm : Permutation uids (iota n).
Hypothesis Hmono : forall k, 0 <= k < Z.of_nat n -> rd 0 pss k <= rd 0 pss (k + 1).
Hypothesis H0 : 0 <= rd 0 pss 0.
Hypothesis Hsb : rd 0 pss (Z.of_nat n) <= max_int sb.
Hypothesis Hpb : rd 0 pss (Z.of_nat n) <= max_int pb.
Hypothesis Hn : Z.of_nat n <= max_int pb.

(** Point sources of the user source [u]. *)
#[local] Abbreviation per_source u := (rd 0 pss (u + 1) - rd 0 pss u).
#[local] Abbreviation xs := (map (point_source_scan_input sb pb pss uids) (iota n)).

Lemma pss_mono (a : Z) (k : nat) :
  0 <= a -> a + Z.of_nat k <= Z.of_nat n -> rd 0 pss a <= rd 0 pss (a + Z.of_nat k).
Proof.
  intros Ha. induction k as [| k IH]; intros Hk.
  - rewrite Z.add_0_r. lia.
  - pose proof (Hmono (a + Z.of_nat k) ltac:(lia)).
    replace (a + Z.of_nat (S k)) with (a + Z.of_nat k + 1) by lia. lia.
Qed.

Lemma pss_bounds (a : Z) :
  0 <= a <= Z.of_nat n -> rd 0 pss 0 <= rd 0 pss a <= rd 0 pss (Z.of_nat n).
Proof.
  intros Ha. split.
  - pose proof (pss_mono 0 (Z.to_nat a) ltac:(lia) ltac:(lia)) as H.
    rewrite Z.add_0_l, Z2Nat.id in H by lia. exact H.
  - pose proof (pss_mono a (Z.to_nat (Z.of_nat n - a)) ltac:(lia) ltac:(lia)) as H.
    replace (a + Z.of_nat (Z.to_nat (Z.of_nat n - a))) with (Z.of_nat n) in H by lia.
    exact H.
Qed.

Lemma uid_in_range (i : Z) :
  0 <= i < Z.of_nat n -> 0 <= rd 0 uids i < Z.of_nat n.
Proof.
  intros Hi. apply in_iota. apply (Permutation_in _ Hperm).
  replace i with (Z.of_nat (Z.to_nat i)) by lia. rewrite rd_nat.
  apply nth_In. lia.
Qed.

Lemma point_source_scan_input_eq (i : Z) :
  0 <= i < Z.of_nat n ->
  point_source_scan_input sb pb pss uids i = per_source (rd 0 uids i)
  /\ 0 <= per_source (rd 0 uids i).
Proof.
  intros Hi. pose proof (uid_in_range i Hi) as Hu.
  pose proof (Hmono _ Hu) as Hstep.
  pose proof (pss_bounds (rd 0 uids i) ltac:(lia)).
  pose proof (pss_bounds (rd 0 uids i + 1) ltac:(lia)).
  split; [| lia]. unfold point_source_scan_input.
  rewrite (wrap_small pb (rd 0 uids i + 1)) by (apply in_range_between; lia).
  rewrite (wrap_small pb) by (apply in_range_between; lia).
  apply wrap_small, in_range_between. lia.
Qed.

Lemma length_xs : length xs = n.
Proof. rewrite length_map, length_iota. reflexivity. Qed.

Lemma nth_xs (i : nat) :
  (i < n)%nat -> nth i xs 0 = per_source (rd 0 uids (Z.of_nat i)) /\ 0 <= nth i xs 0.
Proof.
  intros Hi. rewrite nth_map_iota by exact Hi.
  destruct (point_source_scan_input_eq (Z.of_nat i) ltac:(lia)) as [E Hnn].
  rewrite E. split; [reflexivity | exact Hnn].
Qed.

Lemma telescope (m : nat) :
  (m <= n)%nat ->
  fold_right Z.add 0 (map (fun u => per_source u) (iota m))
    = rd 0 pss (Z.of_nat m) - rd 0 pss 0.
Proof.
  induction m as [| m IH]; intros Hm.
  - cbn [iota seq map fold_right]. change (Z.of_nat 0) with 0. lia.
  - rewrite iota_S, map_app, fold_right_app. cbn [map fold_right].
    rewrite fold_add_acc, IH by lia.
    replace (Z.of_nat (S m)) with (Z.of_nat m + 1) by lia. lia.
Qed.

Lemma psum_xs_total : psum xs n = rd 0 pss (Z.of_nat n) - rd 0 pss 0.
Proof.
  unfold psum. rewrite firstn_all2 by (rewrite length_xs; lia).
  rewrite <- (telescope n) by lia.
  rewrite <- (fold_add_perm _ _ (Permutation_map (fun u => per_source u) Hperm)).
  f_equal. rewrite <- (map_rd_iota 0 uids) at 2. rewrite Hlen, map_map.
  apply map_ext_in. intros i Hi. apply in_iota in Hi.
  apply point_source_scan_input_eq. exact Hi.
Qed.

Lemma psum_xs_bounds (k : nat) :
  (k <= n)%nat -> 0 <= psum xs k <= rd 0 pss (Z.of_nat n) - rd 0 pss 0.
Proof.
  intros Hk.
  assert (Hnn : forall j, (j < length xs)%nat -> 0 <= nth j xs 0).
  { intros j Hj. rewrite length_xs in Hj. apply nth_xs. exact Hj. }
  pose proof (psum_mono xs 0 k Hnn ltac:(lia) ltac:(rewrite length_xs; lia)) as Hlow.
  pose proof (psum_mono xs k n Hnn Hk ltac:(rewrite length_xs; lia)) as Hhigh.
  rewrite psum_xs_total in Hhigh. change (psum xs 0) with 0 in Hlow. lia.
Qed.

Lemma psum_xs_in_range (k : nat) : (k <= length xs)%nat -> in_range sb (psum xs k).
Proof.
  intros Hk. rewrite length_xs in Hk. pose proof (psum_xs_bounds k Hk).
  apply in_range_between. lia.
Qed.

Lemma point_source_items_eq (i : nat) :
  (i < n)%nat ->
  point_source_item sb pb pss uids n (Z.of_nat i) = psum xs (S i)
  /\ point_source_prev_item sb pb pss uids n (Z.of_nat i) = psum xs i.
Proof.
  intros Hi. unfold point_source_item, point_source_prev_item, point_source_scan_items.
  rewrite prev_items_add, scan_items_add by exact psum_xs_in_range.
  rewrite length_xs, !rd_map_seq by exact Hi. split; reflexivity.
Qed.

Lemma tree_order_point_source_starts_after (tops0 : list Z) (i : nat) :
  (n <= length tops0)%nat -> (i < n)%nat ->
  rd 0 (apply_writes tops0 (tree_order_point_source_starts_writes sb pb pss uids n))
     (Z.of_nat i) = psum xs i.
Proof.
  intros Hl Hi. unfold tree_order_point_source_starts_writes.
  erewrite apply_writes_written.
  - reflexivity.
  - rewrite map_fst_keyed. apply NoDup_iota.
  - apply in_map_iff. exists (Z.of_nat i). split; [| apply in_iota; lia].
    destruct (point_source_items_eq i Hi) as [_ ->].
    pose proof (psum_xs_bounds i ltac:(lia)).
    rewrite wrap_small by (apply in_range_between; lia). reflexivity.
  - unfold len. lia.
Qed.

Lemma tree_order_point_source_counts_after (topc0 : list Z) (i : nat) :
  (n <= length topc0)%nat -> (i < n)%nat ->
  rd 0 (apply_writes topc0 (tree_order_point_source_counts_writes sb pb pss uids n))
     (Z.of_nat i) = per_source (rd 0 uids (Z.of_nat i)).
Proof.
  intros Hl Hi. unfold tree_order_point_source_counts_writes.
  erewrite apply_writes_written.
  - reflexivity.
  - rewrite map_fst_keyed. apply NoDup_iota.
  - apply in_map_iff. exists (Z.of_nat i). split; [| apply in_iota; lia].
    destruct (point_source_items_eq i Hi) as [-> ->].
    rewrite psum_snoc by (rewrite length_xs; exact Hi).
    destruct (nth_xs i Hi) as [E Hnn]. rewrite E in *.
    pose proof (psum_xs_bounds i ltac:(lia)).
    pose proof (psum_xs_bounds (S i) ltac:(lia)) as Hnext.
    rewrite psum_snoc, E in Hnext by (rewrite length_xs; exact Hi).
    replace (psum xs i + per_source (rd 0 uids (Z.of_nat i)) - psum xs i)
      with (per_source (rd 0 uids (Z.of_nat i))) by lia.
    rewrite (wrap_small sb) by (apply in_range_between; lia).
    rewrite wrap_small by (apply in_range_between; lia). reflexivity.
  - unfold len. lia.
Qed.

Lemma npoint_sources_after (np0 : list Z) :
  (0 < n)%nat -> (0 < length np0)%nat ->
  rd 0 (apply_writes np0 (npoint_sources_writes sb pb pss uids n)) 0
    = rd 0 pss (Z.of_nat n) - rd 0 pss 0.
Proof.
  intros Hpos Hnp. unfold npoint_sources_writes.
  rewrite last_lane_of by exact Hpos. cbn [map apply_writes fold_left fst snd].
  rewrite rd_wr_same by (unfold len; lia).
  destruct (point_source_items_eq (n - 1) ltac:(lia)) as [-> _].
  replace (S (n - 1)) with n by lia.
  rewrite psum_xs_total. pose proof (psum_xs_bounds n ltac:(lia)) as Hb.
  rewrite psum_xs_total in Hb.
  apply wrap_small, in_range_between. lia.
Qed.

End PointSourceScanFacts.

(** The point source scan lays the point sources of the sources out in
    tree order without gaps: each source gets the point source count that
    [point_source_starts] gives its user id, its start is the sum of the
    counts before it, and [npoint_sources] is the total, which is the
    extent of [point_source_starts] when [user_source_ids] is a
    permutation. *)
Theorem point_source_scan_is_contiguous
    (sb pb : positive) (point_source_starts user_source_ids : list Z) (nsources : nat)
    (tops0 topc0 np0 : list Z)
    (tree_order_point_source_starts tree_order_point_source_counts npoint_sources : list Z) :
  point_source_linking_source_scan sb pb point_source_starts user_source_ids nsources
    tops0 topc0 np0
    = (tree_order_point_source_starts, tree_order_point_source_counts, npoint_sources) ->
  (0 < nsources)%nat ->
  length user_source_ids = nsources ->
  Permutation user_source_ids (iota nsources) ->
  (forall k, 0 <= k < Z.of_nat nsources ->
     rd 0 point_source_starts k <= rd 0 point_source_starts (k + 1)) ->
  0 <= rd 0 point_source_starts 0 ->
  rd 0 point_source_starts (Z.of_nat nsources) <= max_int sb ->
  rd 0 point_source_starts (Z.of_nat nsources) <= max_int pb ->
  Z.of_nat nsources <= max_int pb ->
  (nsources <= length tops0)%nat ->
  (nsources <= length topc0)%nat ->
  (0 < length np0)%nat ->
  (forall i, 0 <= i < Z.of_nat nsources ->
     rd 0 tree_order_point_source_counts i
       = rd 0 point_source_starts (rd 0 user_source_ids i + 1)
         - rd 0 point_source_starts (rd 0 user_source_ids i)
     /\ rd 0 tree_order_point_source_starts i
          = range_sum tree_order_point_source_counts 0 (Z.to_nat i))
  /\ rd 0 npoint_sources 0 = range_sum tree_order_point_source_counts 0 nsources
  /\ rd 0 npoint_sources 0
       = rd 0 point_source_starts (Z.of_nat nsources) - rd 0 point_source_starts 0.
Proof.
  intros Hrun Hpos Hlen Hperm Hmono H0 Hsb Hpb Hn Htops Htopc Hnp.
  unfold point_source_linking_source_scan in Hrun. injection Hrun as <- <- <-.
  set (xs := map (point_source_scan_input sb pb point_source_starts user_source_ids)
               (iota nsources)).
  assert (Hcounts : forall i : nat, (i < nsources)%nat ->
            rd 0 (apply_writes topc0
                    (tree_order_point_source_counts_writes sb pb point_source_starts
                       user_source_ids nsources)) (Z.of_nat i)
            = nth i xs 0).
  { intros i Hi. rewrite tree_order_point_source_counts_after by assumption.
    symmetry. apply (nth_xs sb pb); assumption. }
  assert (Hsum : forall k : nat, (k <= nsources)%nat ->
            range_sum (apply_writes topc0
                         (tree_order_point_source_counts_writes sb pb point_source_starts
                            user_source_ids nsources)) 0 k
            = psum xs k).
  { intros k Hk. rewrite psum_range_sum by (unfold xs; rewrite length_map, length_iota; lia).
    apply range_sum_ext. intros j Hj.
    replace j with (Z.of_nat (Z.to_nat j)) by lia.
    rewrite Hcounts by lia. rewrite rd_nat. reflexivity. }
  split; [| split].
  - intros i Hi. replace i with (Z.of_nat (Z.to_nat i)) at 1 2 3 4 by lia. split.
    + apply tree_order_point_source_counts_after; try assumption. lia.
    + rewrite Hsum by lia.
      apply tree_order_point_source_starts_after; try assumption. lia.
  - rewrite Hsum by lia. rewrite npoint_sources_after by assumption.
    symmetry. apply psum_xs_total; assumption.
  - apply npoint_sources_after; assumption.
Qed.

Lemma point_source_scan_is_contiguous_witness :
  let '(tops, topc, np) :=
    point_source_linking_source_scan 32 32 [0; 2; 3; 6] [2; 0; 1] 3
      [9; 9; 9] [9; 9; 9] [9] in
  rd 0 tops 2 = range_sum topc 0 2 /\ rd 0 np 0 = rd 0 [0; 2; 3; 6] 3 - rd 0 [0; 2; 3; 6] 0.
Proof.
  destruct (point_source_linking_source_scan 32 32 [0; 2; 3; 6] [2; 0; 1] 3
              [9; 9; 9] [9; 9; 9] [9]) as [[tops topc] np] eqn:Hrun.
  assert (Hmono : forall k, 0 <= k < Z.of_nat 3 ->
            rd 0 [0; 2; 3; 6] k <= rd 0 [0; 2; 3; 6] (k + 1)).
  { intros k Hk. assert (Hc : k = 0 \/ k = 1 \/ k = 2) by lia.
    destruct Hc as [-> | [-> | ->]]; vm_compute; congruence. }
  destruct (point_source_scan_is_contiguous 32 32 [0; 2; 3; 6] [2; 0; 1] 3
              [9; 9; 9] [9; 9; 9] [9] tops topc np Hrun
              ltac:(lia) ltac:(reflexivity) (Permutation_cons_append [0; 1] 2) Hmono
              ltac:(vm_compute; congruence) ltac:(vm_compute; congruence)
              ltac:(vm_compute; congruence) ltac:(vm_compute; congruence)
              ltac:(cbn; lia) ltac:(cbn; lia) ltac:(cbn; lia))
    as [Heach [_ Htotal]].
  split; [apply (Heach 2); lia | exact Htotal].
Defined.

Section BoxPointSourcesFacts.

Variable pb : positive.
Variables bss tops topc : list Z.
Variable n : nat.
Hypothesis Hstarts : forall i, 0 <= i < Z.of_nat n ->
  rd 0 tops i = range_sum topc 0 (Z.to_nat i).
Hypothesis Hnn : forall i, 0 <= i < Z.of_nat n -> 0 <= rd 0 topc i.
Hypothesis Htotal : range_sum topc 0 n <= max_int pb.
Hypothesis Hn : Z.of_nat n <= max_int pb.

Lemma range_sum_prefix_bounds (k : nat) :
  (k <= n)%nat -> 0 <= range_sum topc 0 k <= range_sum topc 0 n.
Proof.
  intros Hk. split.
  - apply range_sum_nonneg. intros j Hj. apply Hnn. lia.
  - pose proof (range_sum_split topc 0 k (n - k)) as Hsplit.
    replace (k + (n - k))%nat with n in Hsplit by lia.
    pose proof (range_sum_nonneg topc (0 + Z.of_nat k) (n - k)
                  ltac:(intros j Hj; apply Hnn; lia)). lia.
Qed.

Lemma box_point_source_count_value (counts : list Z) (b : Z) :
  0 <= rd 0 bss b -> 0 <= rd 0 counts b ->
  rd 0 bss b + rd 0 counts b <= Z.of_nat n ->
  box_point_source_count_of pb bss tops topc counts b
    = range_sum topc (rd 0 bss b) (Z.to_nat (rd 0 counts b)).
Proof.
  intros Hs Hc Hend. unfold box_point_source_count_of.
  set (s := rd 0 bss b) in *. set (c := rd 0 counts b) in *.
  destruct (Z.eqb_spec c 0) as [E | E].
  - rewrite E. reflexivity.
  - rewrite (wrap_small pb (s + c - 1)) by (apply in_range_between; lia).
    rewrite !Hstarts by lia.
    assert (Hlast : range_sum topc 0 (Z.to_nat (s + c - 1)) + rd 0 topc (s + c - 1)
                    = range_sum topc 0 (Z.to_nat s + Z.to_nat c)).
    { replace (Z.to_nat s + Z.to_nat c)%nat with (S (Z.to_nat (s + c - 1))) by lia.
      rewrite range_sum_S, Z.add_0_l, Z2Nat.id by lia. reflexivity. }
    rewrite Hlast.
    pose proof (range_sum_prefix_bounds (Z.to_nat s + Z.to_nat c) ltac:(lia)) as Hb1.
    pose proof (range_sum_prefix_bounds (Z.to_nat s) ltac:(lia)) as Hb2.
    rewrite (wrap_small pb (range_sum topc 0 (Z.to_nat s + Z.to_nat c)))
      by (apply in_range_between; lia).
    rewrite range_sum_split in *. rewrite Z.add_0_l, Z2Nat.id in * by lia.
    pose proof (range_sum_nonneg topc s (Z.to_nat c) ltac:(intros j Hj; apply Hnn; lia)).
    replace (range_sum topc 0 (Z.to_nat s) + range_sum topc s (Z.to_nat c)
             - range_sum topc 0 (Z.to_nat s))
      with (range_sum topc s (Z.to_nat c)) by lia.
    apply wrap_small, in_range_between. lia.
Qed.

End BoxPointSourcesFacts.

(** When the point source starts in tree order are the running sums of
    the point source counts, as the source scan leaves them, each box
    gets as its point source counts the sums of the counts of its own
    sources, and as its start the sum of the counts of the sources before
    it. A box without sources gets the count 0. *)
Theorem box_point_sources_sum_over_sources
    (pb : positive) (nboxes nsources : nat)
    (box_source_starts box_source_counts_nonchild box_source_counts_cumul : list Z)
    (tree_order_point_source_starts tree_order_point_source_counts : list Z)
    (bps0 bpcn0 bpcc0 : list Z)
    (box_point_source_starts box_point_source_counts_nonchild
       box_point_source_counts_cumul : list Z) (b : Z) :
  box_point_sources pb box_source_starts tree_order_point_source_starts
    tree_order_point_source_counts nboxes box_source_counts_nonchild
    box_source_counts_cumul bps0 bpcn0 bpcc0
    = (box_point_source_starts, box_point_source_counts_nonchild,
       box_point_source_counts_cumul) ->
  (forall i, 0 <= i < Z.of_nat nsources ->
     rd 0 tree_order_point_source_starts i
       = range_sum tree_order_point_source_counts 0 (Z.to_nat i)) ->
  (forall i, 0 <= i < Z.of_nat nsources -> 0 <= rd 0 tree_order_point_source_counts i) ->
  range_sum tree_order_point_source_counts 0 nsources <= max_int pb ->
  Z.of_nat nsources <= max_int pb ->
  0 <= b < Z.of_nat nboxes ->
  (nboxes <= length bps0)%nat ->
  (nboxes <= length bpcn0)%nat ->
  (nboxes <= length bpcc0)%nat ->
  0 <= rd 0 box_source_starts b ->
  0 <= rd 0 box_source_counts_nonchild b <= rd 0 box_source_counts_cumul b ->
  rd 0 box_source_starts b + rd 0 box_source_counts_cumul b <= Z.of_nat nsources ->
  rd 0 box_point_source_counts_cumul b
    = range_sum tree_order_point_source_counts (rd 0 box_source_starts b)
        (Z.to_nat (rd 0 box_source_counts_cumul b))
  /\ rd 0 box_point_source_counts_nonchild b
       = range_sum tree_order_point_source_counts (rd 0 box_source_starts b)
           (Z.to_nat (rd 0 box_source_counts_nonchild b))
  /\ (rd 0 box_source_starts b < Z.of_nat nsources ->
      rd 0 box_point_source_starts b
        = range_sum tree_order_point_source_counts 0
            (Z.to_nat (rd 0 box_source_starts b))).
Proof.
  intros Hrun Hstarts Hnn Htotal Hn Hb Hl1 Hl2 Hl3 Hs Hc Hend.
  unfold box_point_sources in Hrun. injection Hrun as <- <- <-.
  assert (Hlane : forall (arr0 : list Z) (f : Z -> Z), (nboxes <= length arr0)%nat ->
            rd 0 (apply_writes arr0 (map (fun i => (i, f i)) (iota nboxes))) b = f b).
  { intros arr0 f Hl. apply apply_writes_written.
    - rewrite map_fst_keyed. apply NoDup_iota.
    - apply in_map_iff. exists b. split; [reflexivity | apply in_iota; exact Hb].
    - unfold len. lia. }
  rewrite !Hlane by assumption.
  split; [| split].
  - apply (box_point_source_count_value pb _ _ _ nsources); try assumption; lia.
  - apply (box_point_source_count_value pb _ _ _ nsources); try assumption; lia.
  - intros Hlt. unfold box_point_source_start_of. apply Hstarts. lia.
Qed.

Lemma box_point_sources_sum_over_sources_witness :
  let '(bps, bpcn, bpcc) :=
    box_point_sources 32 [0; 1] [0; 3; 4] [3; 1; 2] 2 [0; 1] [3; 2] [9; 9] [9; 9] [9; 9] in
  rd 0 bpcc 1 = range_sum [3; 1; 2] 1 2.
Proof.
  destruct (box_point_sources 32 [0; 1] [0; 3; 4] [3; 1; 2] 2 [0; 1] [3; 2]
              [9; 9] [9; 9] [9; 9]) as [[bps bpcn] bpcc] eqn:Hrun.
  assert (Hstarts : forall i, 0 <= i < Z.of_nat 3 ->
            rd 0 [0; 3; 4] i = range_sum [3; 1; 2] 0 (Z.to_nat i)).
  { intros i Hi. assert (Hc : i = 0 \/ i = 1 \/ i = 2) by lia.
    destruct Hc as [-> | [-> | ->]]; vm_compute; reflexivity. }
  assert (Hnn : forall i, 0 <= i < Z.of_nat 3 -> 0 <= rd 0 [3; 1; 2] i).
  { intros i Hi. assert (Hc : i = 0 \/ i = 1 \/ i = 2) by lia.
    destruct Hc as [-> | [-> | ->]]; vm_compute; congruence. }
  apply (box_point_sources_sum_over_sources 32 2 3 [0; 1] [0; 1] [3; 2] [0; 3; 4] [3; 1; 2]
           [9; 9] [9; 9] [9; 9] bps bpcn bpcc 1 Hrun Hstarts Hnn
           ltac:(vm_compute; congruence) ltac:(vm_compute; congruence)
           ltac:(lia) ltac:(cbn; lia) ltac:(cbn; lia) ltac:(cbn; lia)
           ltac:(vm_compute; congruence) ltac:(vm_compute; split; congruence)
           ltac:(vm_compute; congruence)).
Defined.

Lemma user_point_source_id_item (sb : positive) (boundaries ids : list Z) (s k : nat) :
  (s + k < length boundaries)%nat ->
  (s = 0%nat \/ rd 0 boundaries (Z.of_nat s) <> 0) ->
  (forall j, (s < j <= s + k)%nat -> rd 0 boundaries (Z.of_nat j) = 0) ->
  nth (s + k) (user_point_source_id_items sb boundaries ids) 0
    = wrap sb (range_sum ids (Z.of_nat s) (S k)).
Proof.
  intros Hlen Hstart Hinner. unfold user_point_source_id_items, user_point_source_id_inputs.
  induction k as [| k IH].
  - rewrite Nat.add_0_r in *. unfold range_sum. cbn [seq sum_terms fold_right].
    rewrite !Z.add_0_r. destruct s as [| s'].
    + rewrite (scan_items_0 _ 0 (false, 0)) by (rewrite length_map, length_iota; lia).
      rewrite nth_map_iota by lia. reflexivity.
    + destruct Hstart as [Hs | Hs]; [discriminate |].
      rewrite (scan_items_S _ 0 (false, 0)) by (rewrite length_map, length_iota; lia).
      rewrite nth_map_iota by lia. cbn [fst snd].
      apply Z.eqb_neq in Hs. rewrite Hs. reflexivity.
  - rewrite Nat.add_succ_r.
    rewrite (scan_items_S _ 0 (false, 0)) by (rewrite length_map, length_iota; lia).
    rewrite IH by (try lia; intros j Hj; apply Hinner; lia).
    rewrite nth_map_iota by lia. cbn [fst snd].
    rewrite (Hinner (S (s + k))) by lia. cbn [Z.eqb negb]. unfold restart_add_expr.
    rewrite wrap_add_l, wrap_add_r. rewrite (range_sum_S ids _ (S k)).
    f_equal. f_equal. f_equal. lia.
Qed.

(** The user point source id scan restarts at every source boundary:
    an entry after the scan is the sum of the entries from the start of
    its segment up to itself, so that a segment which holds its first
    id followed by ones is filled with consecutive ids. *)
Theorem user_point_source_id_scan_restarts
    (sb pb : positive) (source_boundaries user_point_source_ids : list Z) (s k : nat) :
  (length source_boundaries <= length user_point_source_ids)%nat ->
  (s + k < length source_boundaries)%nat ->
  (s = 0%nat \/ rd 0 source_boundaries (Z.of_nat s) <> 0) ->
  (forall j, (s < j <= s + k)%nat -> rd 0 source_boundaries (Z.of_nat j) = 0) ->
  rd 0 (user_point_source_id_scan sb pb source_boundaries user_point_source_ids)
     (Z.of_nat (s + k))
    = wrap pb (wrap sb (range_sum user_point_source_ids (Z.of_nat s) (S k)))
  /\ ((forall j, (s < j <= s + k)%nat -> rd 0 user_point_source_ids (Z.of_nat j) = 1) ->
      0 <= rd 0 user_point_source_ids (Z.of_nat s) ->
      rd 0 user_point_source_ids (Z.of_nat s) + Z.of_nat k <= max_int sb ->
      rd 0 user_point_source_ids (Z.of_nat s) + Z.of_nat k <= max_int pb ->
      rd 0 (user_point_source_id_scan sb pb source_boundaries user_point_source_ids)
         (Z.of_nat (s + k))
        = rd 0 user_point_source_ids (Z.of_nat s) + Z.of_nat k).
Proof.
  intros Hlen Hk Hstart Hinner.
  assert (Hout : rd 0 (user_point_source_id_scan sb pb source_boundaries
                         user_point_source_ids) (Z.of_nat (s + k))
                 = wrap pb (wrap sb (range_sum user_point_source_ids (Z.of_nat s) (S k)))).
  { unfold user_point_source_id_scan. erewrite apply_writes_written.
    - reflexivity.
    - rewrite map_fst_keyed. apply NoDup_iota.
    - apply in_map_iff. exists (Z.of_nat (s + k)). split; [| apply in_iota; lia].
      rewrite rd_nat, user_point_source_id_item by assumption. reflexivity.
    - unfold len. lia. }
  split; [exact Hout |].
  intros Hones Hfirst Hsb Hpb. rewrite Hout.
  assert (Hsum : forall m, (m <= k)%nat ->
            range_sum user_point_source_ids (Z.of_nat s) (S m)
            = rd 0 user_point_source_ids (Z.of_nat s) + Z.of_nat m).
  { induction m as [| m IH]; intros Hm.
    - unfold range_sum. cbn [seq sum_terms fold_right]. rewrite !Z.add_0_r. reflexivity.
    - rewrite range_sum_S, IH by lia.
      replace (Z.of_nat s + Z.of_nat (S m)) with (Z.of_nat (S (s + m))) by lia.
      rewrite (Hones (S (s + m))) by lia. lia. }
  rewrite Hsum by lia.
  rewrite (wrap_small sb) by (apply in_range_between; lia).
  apply wrap_small, in_range_between. lia.
Qed.

Lemma user_point_source_id_scan_restarts_witness :
  rd 0 (user_point_source_id_scan 32 32 [1; 0; 0; 1; 0] [10; 1; 1; 20; 1]) (Z.of_nat (3 + 1))
    = wrap 32 (wrap 32 (range_sum [10; 1; 1; 20; 1] (Z.of_nat 3) 2)).
Proof.
  assert (Hinner : forall j, (3 < j <= 3 + 1)%nat -> rd 0 [1; 0; 0; 1; 0] (Z.of_nat j) = 0).
  { intros j Hj. assert (j = 4%nat) as -> by lia. reflexivity. }
  destruct (user_point_source_id_scan_restarts 32 32 [1; 0; 0; 1; 0] [10; 1; 1; 20; 1] 3 1
              ltac:(cbn; lia) ltac:(cbn; lia) ltac:(right; vm_compute; congruence) Hinner)
    as [Hsum _].
  exact Hsum.
Defined.

(** ** Source and target index finding *)

Lemma filter_map_comm {A B : Type} (p : B -> bool) (f : A -> B) (l : list A) :
  filter p (map f l) = map f (filter (fun x => p (f x)) l).
Proof.
  induction l as [| x l IH]; [reflexivity |].
  cbn [map filter]. destruct (p (f x)); cbn [map]; rewrite IH; reflexivity.
Qed.

Lemma filter_by_index (p : Z -> bool) (l : list Z) :
  map (rd 0 l) (filter (fun i => p (rd 0 l i)) (iota (length l))) = filter p l.
Proof. rewrite <- filter_map_comm, map_rd_iota. reflexivity. Qed.

Lemma filter_firstn_count (p : Z -> bool) (l : list Z) (k : nat) :
  (k <= length l)%nat ->
  len (filter p (firstn k l)) = count_in (fun j => p (rd 0 l j)) 0 k.
Proof.
  intros Hk. rewrite <- psum_indicator.
  rewrite <- (map_rd_iota 0 l) at 1. rewrite map_map.
  apply (psum_map_iota_count (fun j => p (rd 0 l j))). exact Hk.
Qed.

Lemma count_in_negb (p : Z -> bool) (a : Z) (k : nat) :
  count_in p a k + count_in (fun j => negb (p j)) a k = Z.of_nat k.
Proof.
  induction k as [| k IH]; [reflexivity |].
  cbn [count_in]. destruct (p (a + Z.of_nat k)); cbn [negb]; lia.
Qed.

Lemma length_kept (p : Z -> bool) (n : nat) :
  length (filter p (iota n)) = Z.to_nat (count_in p 0 n).
Proof.
  rewrite <- (length_map (fun i => count_in p 0 (Z.to_nat i))), kept_enumerated.
  apply length_iota.
Qed.

(** The lane with a given number among the kept ones. *)
Lemma nth_kept (p : Z -> bool) (n t : nat) :
  (t < length (filter p (iota n)))%nat ->
  0 <= nth t (filter p (iota n)) 0 < Z.of_nat n
  /\ p (nth t (filter p (iota n)) 0) = true
  /\ count_in p 0 (Z.to_nat (nth t (filter p (iota n)) 0)) = Z.of_nat t.
Proof.
  intros Ht.
  assert (Hin : In (nth t (filter p (iota n)) 0) (filter p (iota n))) by (apply nth_In; exact Ht).
  apply filter_In in Hin. destruct Hin as [Hrange Hp]. apply in_iota in Hrange.
  split; [exact Hrange |]. split; [exact Hp |].
  pose proof (f_equal (fun l => nth t l 0) (kept_enumerated p n)) as Hnth. cbn beta in Hnth.
  rewrite (nth_indep _ 0 (count_in p 0 (Z.to_nat 0))) in Hnth by (rewrite length_map; exact Ht).
  rewrite (map_nth (fun i => count_in p 0 (Z.to_nat i))) in Hnth.
  rewrite Hnth. apply nth_iota. rewrite <- length_kept. exact Ht.
Qed.

(** Writes that fill the slots 0, 1, 2, ... in order leave their values
    at the front of the array. *)
Lemma apply_writes_enumerated (ws : list (Z * Z)) (arr : list Z) :
  map fst ws = iota (length ws) -> (length ws <= length arr)%nat ->
  firstn (length ws) (apply_writes arr ws) = map snd ws.
Proof.
  intros Hfst Hlen. apply (nth_ext _ _ 0 0).
  - rewrite length_firstn, length_apply_writes, length_map. lia.
  - intros k Hk. rewrite length_firstn, length_apply_writes in Hk.
    assert (Hk' : (k < length ws)%nat) by lia.
    rewrite nth_firstn. replace (k <? length ws)%nat with true by (symmetry; apply Nat.ltb_lt; lia).
    rewrite <- rd_nat.
    rewrite (nth_indep _ 0 (snd (0, 0))) by (rewrite length_map; exact Hk').
    rewrite map_nth.
    apply apply_writes_written.
    + rewrite Hfst. apply NoDup_iota.
    + assert (Hk_fst : fst (nth k ws (0, 0)) = Z.of_nat k).
      { rewrite <- (map_nth fst), Hfst. apply nth_iota. exact Hk'. }
      rewrite <- Hk_fst, <- surjective_pairing. apply nth_In. exact Hk'.
    + unfold len. lia.
Qed.

Lemma enumerated_by_length (l : list Z) (m : nat) : l = iota m -> l = iota (length l).
Proof. intros ->. rewrite length_iota. reflexivity. Qed.

Section IndexFinderFacts.

Variables bb pb : positive.
Variables ids sn0 : list Z.
Variable ns : Z.
Hypothesis Hsn : length sn0 = length ids.
Hypothesis Hbb : len ids <= max_int bb.
Hypothesis Hpb : len ids <= max_int pb.

#[local] Abbreviation sn := (source_counter bb pb ids ns sn0).
#[local] Abbreviation srcp := (lane_is_source ids ns).
#[local] Abbreviation tgtp := (fun i => negb (lane_is_source ids ns i)).

Lemma source_number_value (i : Z) :
  0 <= i < len ids -> rd 0 sn i = count_in srcp 0 (Z.to_nat i).
Proof.
  intros Hi. unfold len in Hi. unfold source_counter.
  erewrite apply_writes_written.
  - reflexivity.
  - rewrite map_fst_keyed. apply NoDup_iota.
  - apply in_map_iff. exists i. split; [| apply in_iota; lia].
    replace i with (Z.of_nat (Z.to_nat i)) at 2 by lia.
    rewrite source_counter_prev_items by (try assumption; lia).
    unfold sources_among_first. rewrite filter_firstn_count by lia.
    rewrite wrap_small; [reflexivity |].
    apply count_in_in_range. unfold len in Hpb. lia.
  - unfold len. lia.
Qed.

Lemma target_nr_value (i : Z) :
  0 <= i < len ids -> target_nr_of pb sn i = count_in tgtp 0 (Z.to_nat i).
Proof.
  intros Hi. unfold target_nr_of. rewrite source_number_value by exact Hi.
  pose proof (count_in_negb srcp 0 (Z.to_nat i)) as Hsplit. cbn beta in Hsplit.
  replace (i - count_in srcp 0 (Z.to_nat i)) with (count_in tgtp 0 (Z.to_nat i))
    by (unfold len in Hi; lia).
  apply wrap_small, count_in_in_range. unfold len in *. lia.
Qed.

Lemma user_source_ids_writes_enumerated :
  map fst (user_source_ids_writes ids sn ns)
    = iota (length (user_source_ids_writes ids sn ns)).
Proof.
  rewrite <- (length_map fst).
  apply (enumerated_by_length _ (Z.to_nat (count_in srcp 0 (length ids)))).
  unfold user_source_ids_writes. rewrite map_map. cbn [fst].
  rewrite <- kept_enumerated. apply map_ext_in. intros i Hin.
  apply filter_In in Hin. destruct Hin as [Hin _]. apply in_iota in Hin.
  apply source_number_value. unfold len. exact Hin.
Qed.

Lemma srcntgt_target_ids_writes_enumerated :
  map fst (srcntgt_target_ids_writes pb ids sn ns)
    = iota (length (srcntgt_target_ids_writes pb ids sn ns)).
Proof.
  rewrite <- (length_map fst).
  apply (enumerated_by_length _ (Z.to_nat (count_in tgtp 0 (length ids)))).
  unfold srcntgt_target_ids_writes. rewrite map_map. cbn [fst].
  rewrite <- (kept_enumerated tgtp). apply map_ext_in. intros i Hin.
  apply filter_In in Hin. destruct Hin as [Hin _]. apply in_iota in Hin.
  apply target_nr_value. unfold len. exact Hin.
Qed.

Lemma source_lanes : map (rd 0 ids) (filter srcp (iota (length ids))) = filter (is_source ns) ids.
Proof. apply (filter_by_index (is_source ns)). Qed.

Lemma target_lanes :
  map (rd 0 ids) (filter tgtp (iota (length ids)))
    = filter (fun u => negb (is_source ns u)) ids.
Proof. apply (filter_by_index (fun u => negb (is_source ns u))). Qed.

Lemma user_source_ids_after (usi0 : list Z) :
  (length (filter (is_source ns) ids) <= length usi0)%nat ->
  firstn (length (filter (is_source ns) ids))
         (apply_writes usi0 (user_source_ids_writes ids sn ns))
    = filter (is_source ns) ids.
Proof.
  intros Hl.
  assert (Hws : map snd (user_source_ids_writes ids sn ns) = filter (is_source ns) ids).
  { unfold user_source_ids_writes. rewrite map_map. cbn [snd]. apply source_lanes. }
  assert (Hn : length (user_source_ids_writes ids sn ns)
               = length (filter (is_source ns) ids)).
  { rewrite <- Hws, length_map. reflexivity. }
  rewrite <- Hn, <- Hws. apply apply_writes_enumerated.
  - apply user_source_ids_writes_enumerated.
  - lia.
Qed.

Lemma srcntgt_target_ids_after (sti0 : list Z) :
  (length (filter (fun u => negb (is_source ns u)) ids) <= length sti0)%nat ->
  firstn (length (filter (fun u => negb (is_source ns u)) ids))
         (apply_writes sti0 (srcntgt_target_ids_writes pb ids sn ns))
    = filter (fun u => negb (is_source ns u)) ids.
Proof.
  intros Hl.
  assert (Hws : map snd (srcntgt_target_ids_writes pb ids sn ns)
                = filter (fun u => negb (is_source ns u)) ids).
  { unfold srcntgt_target_ids_writes. rewrite map_map. cbn [snd]. apply target_lanes. }
  assert (Hn : length (srcntgt_target_ids_writes pb ids sn ns)
               = length (filter (fun u => negb (is_source ns u)) ids)).
  { rewrite <- Hws, length_map. reflexivity. }
  rewrite <- Hn, <- Hws. apply apply_writes_enumerated.
  - apply srcntgt_target_ids_writes_enumerated.
  - lia.
Qed.

Lemma sorted_target_ids_after (sorted0 : list Z) (t : nat) :
  NoDup ids ->
  len sorted0 <= max_int pb ->
  (forall u, In u ids -> is_source ns u = false -> 0 <= u - ns < len sorted0) ->
  (t < length (filter (fun u => negb (is_source ns u)) ids))%nat ->
  rd 0 (apply_writes sorted0 (sorted_target_ids_writes pb ids sn ns))
     (nth t (filter (fun u => negb (is_source ns u)) ids) 0 - ns)
    = Z.of_nat t.
Proof.
  intros Hnd Hmax Hrange Ht.
  assert (Hlanes : length (filter tgtp (iota (length ids)))
                   = length (filter (fun u => negb (is_source ns u)) ids)).
  { rewrite <- target_lanes, length_map. reflexivity. }
  destruct (nth_kept tgtp (length ids) t ltac:(lia)) as [Hi [Hp Hc]].
  set (i := nth t (filter tgtp (iota (length ids))) 0) in *.
  assert (Hu : nth t (filter (fun u => negb (is_source ns u)) ids) 0 = rd 0 ids i).
  { rewrite <- target_lanes.
    rewrite (nth_indep _ 0 (rd 0 ids 0)) by (rewrite length_map; lia).
    rewrite map_nth. reflexivity. }
  assert (Hsmall : forall j, In j (filter tgtp (iota (length ids))) ->
            wrap pb (rd 0 ids j - ns) = rd 0 ids j - ns
            /\ 0 <= rd 0 ids j - ns < len sorted0).
  { intros j Hj. apply filter_In in Hj. destruct Hj as [Hj Hpj]. apply in_iota in Hj.
    assert (Hb : 0 <= rd 0 ids j - ns < len sorted0).
    { apply Hrange.
      - replace j with (Z.of_nat (Z.to_nat j)) by lia. rewrite rd_nat. apply nth_In. lia.
      - apply negb_true_iff in Hpj. exact Hpj. }
    split; [| exact Hb]. apply wrap_small, in_range_between. lia. }
  assert (Hin : In i (filter tgtp (iota (length ids)))).
  { apply filter_In. split; [apply in_iota; exact Hi | exact Hp]. }
  rewrite Hu. apply apply_writes_written.
  - unfold sorted_target_ids_writes. rewrite map_map. cbn [fst].
    rewrite (map_ext_in _ (fun j => rd 0 ids j - ns)) by (intros j Hj; apply Hsmall; exact Hj).
    rewrite <- (map_map (rd 0 ids) (fun u => u - ns)), target_lanes.
    apply Finite.Injective_map_NoDup.
    + intros x y Hxy. lia.
    + apply NoDup_filter. exact Hnd.
  - unfold sorted_target_ids_writes. apply in_map_iff. exists i. split; [| exact Hin].
    f_equal.
    + apply Hsmall. exact Hin.
    + rewrite target_nr_value by (unfold len; exact Hi). exact Hc.
  - apply Hsmall. exact Hin.
Qed.

End IndexFinderFacts.

(** Fed with the output of the source counter, the index finder splits
    the particle ids stably: [user_source_ids] starts with the sources in
    tree order, [srcntgt_target_ids] with the targets in tree order, and
    for distinct ids [sorted_target_ids] sends the user number of every
    target to its position among the targets. *)
Theorem index_finder_splits_ids_in_tree_order
    (bb pb : positive) (user_srcntgt_ids : list Z) (nsources : Z)
    (sn0 usi0 sti0 sorted0 : list Z)
    (user_source_ids srcntgt_target_ids sorted_target_ids : list Z) :
  find_source_and_target_ids pb user_srcntgt_ids
    (source_counter bb pb user_srcntgt_ids nsources sn0) nsources usi0 sti0 sorted0
    = (user_source_ids, srcntgt_target_ids, sorted_target_ids) ->
  length sn0 = length user_srcntgt_ids ->
  len user_srcntgt_ids <= max_int bb ->
  len user_srcntgt_ids <= max_int pb ->
  (length (filter (is_source nsources) user_srcntgt_ids) <= length usi0)%nat ->
  (length (filter (fun u => negb (is_source nsources u)) user_srcntgt_ids)
     <= length sti0)%nat ->
  firstn (length (filter (is_source nsources) user_srcntgt_ids)) user_source_ids
    = filter (is_source nsources) user_srcntgt_ids
  /\ firstn (length (filter (fun u => negb (is_source nsources u)) user_srcntgt_ids))
            srcntgt_target_ids
       = filter (fun u => negb (is_source nsources u)) user_srcntgt_ids
  /\ (NoDup user_srcntgt_ids ->
      len sorted0 <= max_int pb ->
      (forall u, In u user_srcntgt_ids -> is_source nsources u = false ->
         0 <= u - nsources < len sorted0) ->
      forall t : nat,
        (t < length (filter (fun u => negb (is_source nsources u)) user_srcntgt_ids))%nat ->
        rd 0 sorted_target_ids (rd 0 srcntgt_target_ids (Z.of_nat t) - nsources)
          = Z.of_nat t).
Proof.
  intros Hrun Hsn Hbb Hpb Husi Hsti.
  unfold find_source_and_target_ids in Hrun. injection Hrun as <- <- <-.
  pose proof (srcntgt_target_ids_after bb pb user_srcntgt_ids sn0 nsources Hsn Hbb Hpb
                sti0 Hsti) as Htargets.
  split; [| split].
  - apply user_source_ids_after; assumption.
  - exact Htargets.
  - intros Hnd Hmax Hrange t Ht.
    assert (Hread : rd 0 (apply_writes sti0
                            (srcntgt_target_ids_writes pb user_srcntgt_ids
                               (source_counter bb pb user_srcntgt_ids nsources sn0) nsources))
                       (Z.of_nat t)
                    = nth t (filter (fun u => negb (is_source nsources u)) user_srcntgt_ids) 0).
    { rewrite rd_nat, <- Htargets, nth_firstn.
      replace (t <? _)%nat with true by (symmetry; apply Nat.ltb_lt; exact Ht).
      reflexivity. }
    rewrite Hread. apply sorted_target_ids_after; assumption.
Qed.

Lemma index_finder_splits_ids_in_tree_order_witness :
  let '(usi, sti, sorted) :=
    find_source_and_target_ids 32 [3; 0; 4; 1; 2]
      (source_counter 32 32 [3; 0; 4; 1; 2] 2 [9; 9; 9; 9; 9]) 2 [9; 9] [9; 9; 9] [9; 9; 9] in
  firstn 2 usi = [0; 1] /\ firstn 3 sti = [3; 4; 2].
Proof.
  destruct (find_source_and_target_ids 32 [3; 0; 4; 1; 2]
              (source_counter 32 32 [3; 0; 4; 1; 2] 2 [9; 9; 9; 9; 9]) 2
              [9; 9] [9; 9; 9] [9; 9; 9]) as [[usi sti] sorted] eqn:Hrun.
  destruct (index_finder_splits_ids_in_tree_order 32 32 [3; 0; 4; 1; 2] 2
              [9; 9; 9; 9; 9] [9; 9] [9; 9; 9] [9; 9; 9] usi sti sorted Hrun
              ltac:(reflexivity) ltac:(vm_compute; congruence) ltac:(vm_compute; congruence)
              ltac:(cbn; lia) ltac:(cbn; lia)) as [Hs [Ht _]].
  split; [exact Hs | exact Ht].
Defined.

(** The permuter loses no particle: when [from_ids] is a permutation of
    the indices, each sorted coordinate array is a permutation of the
    unsorted one, and entry [i] is the coordinate of particle
    [from_ids[i]]. *)
Theorem permute_srcntgt_is_permutation
    {A : Type} (d : A) (from_ids : list Z) (ax sorted0 : list A) :
  length sorted0 = length from_ids ->
  Permutation from_ids (iota (length ax)) ->
  Permutation (permute_srcntgt d from_ids ax sorted0) ax
  /\ forall i, 0 <= i < len from_ids ->
       rd d (permute_srcntgt d from_ids ax sorted0) i = rd d ax (rd 0 from_ids i).
Proof.
  intros Hlen Hperm.
  assert (Hread : forall i, 0 <= i < len from_ids ->
            rd d (permute_srcntgt d from_ids ax sorted0) i = rd d ax (rd 0 from_ids i)).
  { intros i Hi. unfold permute_srcntgt. apply apply_writes_written.
    - rewrite map_map. cbn [fst]. rewrite map_id. apply NoDup_iota.
    - apply in_map_iff. exists i. split; [reflexivity | apply in_iota; exact Hi].
    - unfold len in *. lia. }
  split; [| exact Hread].
  assert (Hout : permute_srcntgt d from_ids ax sorted0 = map (rd d ax) from_ids).
  { apply (nth_ext _ _ d d).
    - unfold permute_srcntgt. rewrite length_apply_writes, length_map. exact Hlen.
    - intros k Hk. unfold permute_srcntgt in Hk. rewrite length_apply_writes, Hlen in Hk.
      rewrite <- rd_nat, Hread by (unfold len; lia).
      rewrite (nth_indep _ d (rd d ax 0)) by (rewrite length_map; exact Hk).
      rewrite map_nth, rd_nat. reflexivity. }
  rewrite Hout. rewrite <- (map_rd_iota d ax) at 2.
  apply Permutation_map. exact Hperm.
Qed.

Lemma permute_srcntgt_is_permutation_witness :
  Permutation (permute_srcntgt 0 [2; 0; 1] [10; 20; 30] [0; 0; 0]) [10; 20; 30].
Proof.
  apply (permute_srcntgt_is_permutation 0 [2; 0; 1] [10; 20; 30] [0; 0; 0]
           ltac:(reflexivity) (Permutation_cons_append [0; 1] 2)).
Defined.

(** ** Refine weights of a box *)

Lemma weight_in_nonneg (w : Z -> Z) (p : Z -> bool) (a : Z) (k : nat) :
  (forall j, a <= j < a + Z.of_nat k -> 0 <= w j) -> 0 <= weight_in w p a k.
Proof.
  induction k as [| k IH]; intros H; cbn [weight_in]; [lia |].
  assert (0 <= weight_in w p a k) by (apply IH; intros j Hj; apply H; lia).
  assert (0 <= w (a + Z.of_nat k)) by (apply H; lia).
  destruct (p (a + Z.of_nat k)); lia.
Qed.

Lemma weight_in_ext (w : Z -> Z) (p q : Z -> bool) (a : Z) (k : nat) :
  (forall j, a <= j < a + Z.of_nat k -> p j = q j) ->
  weight_in w p a k = weight_in w q a k.
Proof.
  induction k as [| k IH]; intros H; cbn [weight_in]; [reflexivity |].
  rewrite IH by (intros j Hj; apply H; lia). rewrite (H (a + Z.of_nat k)) by lia.
  reflexivity.
Qed.

Lemma sum_terms_plus (t1 t2 : nat -> Z) (l : list nat) :
  sum_terms (fun mnr => t1 mnr + t2 mnr) l = sum_terms t1 l + sum_terms t2 l.
Proof.
  unfold sum_terms. induction l as [| x l IH]; cbn [fold_right]; [reflexivity |].
  rewrite IH. lia.
Qed.

Lemma sum_terms_zero (l : list nat) : sum_terms (fun _ => 0) l = 0.
Proof.
  unfold sum_terms. induction l as [| x l IH]; cbn [fold_right]; [reflexivity |].
  rewrite IH. reflexivity.
Qed.

(** The weights of the octants add up to the weight of the particles
    that have an octant. *)
Lemma weight_in_octants (w key : Z -> Z) (s : Z) (n M : nat) :
  sum_terms (fun mnr => weight_in w (fun j => key j =? Z.of_nat mnr) s n) (seq 0 M)
    = weight_in w (fun j => (0 <=? key j) && (key j <? Z.of_nat M)) s n.
Proof.
  induction n as [| n IH]; cbn [weight_in].
  - apply sum_terms_zero.
  - rewrite sum_terms_plus, IH. f_equal. apply sum_one_field.
Qed.

(** Saturating each term first does not change the saturated sum. *)
Lemma saturated_sum (t : nat -> Z) (l : list nat) :
  (forall mnr, In mnr l -> 0 <= t mnr) ->
  0 <= sum_terms (fun mnr => Z.min INT_MAX (t mnr)) l
  /\ 0 <= sum_terms t l
  /\ Z.min INT_MAX (sum_terms (fun mnr => Z.min INT_MAX (t mnr)) l)
       = Z.min INT_MAX (sum_terms t l).
Proof.
  assert (HM : INT_MAX = 2147483647) by reflexivity.
  unfold sum_terms. induction l as [| x l IH]; intros H; cbn [fold_right]; [lia |].
  destruct IH as [IH1 [IH2 IH3]]; [intros m Hm; apply H; right; exact Hm |].
  assert (0 <= t x) by (apply H; left; reflexivity).
  lia.
Qed.

Section SegmentWeights.

Variables pb bb : positive.
Variable ext : bool.
Variable dims : nat.
Variable st : level_args.
Hypothesis Hwf : wf_level pb bb ext dims st = true.
Hypothesis Hwt : forall j, 0 <= j < Z.of_nat (nsrcntgts st) ->
  0 <= refine_weight_of st j <= INT_MAX.

#[local] Abbreviation N := (nsrcntgts st).
#[local] Abbreviation key j := (rd 0 (morton_nrs st) j).
#[local] Abbreviation box j := (rd 0 (srcntgt_box_ids st) j).
#[local] Abbreviation start b := (rd 0 (box_srcntgt_starts st) b).
#[local] Abbreviation count b := (rd 0 (box_srcntgt_counts_cumul st) b).
#[local] Abbreviation item j := (morton_item pb ext dims st j).

Lemma segment_weights (i0 : Z) :
  0 <= i0 < Z.of_nat N -> box_is_current ext st (box i0) = true ->
  forall k : nat,
  Z.of_nat k < count (box i0) ->
  forall mnr, In mnr (mnrs dims) ->
    fld (pwt (item (start (box i0) + Z.of_nat k))) mnr
      = Z.min INT_MAX
          (weight_in (refine_weight_of st) (fun j => key j =? Z.of_nat mnr)
             (start (box i0)) (S k)).
Proof.
  intros Hi0 Hcur.
  pose proof (wf_box pb bb ext dims st Hwf i0 Hi0 Hcur) as [_ [_ [_ [Hs [Hn Hrange]]]]].
  intros k. induction k as [| k IH]; intros Hk mnr Hmnr.
  - rewrite Z.add_0_r, (morton_item_start pb bb ext dims st Hwf i0) by assumption.
    unfold morton_scan_input, scan_t_of_morton_nr. cbn [snd pwt weight_in].
    rewrite fld_map_mnrs by exact Hmnr. rewrite Z.add_0_r, Z.add_0_l.
    fold (refine_weight_of st (start (box i0))).
    pose proof (Hwt (start (box i0)) ltac:(lia)).
    assert (HM : INT_MAX = 2147483647) by reflexivity.
    destruct (key (start (box i0)) =? Z.of_nat mnr); lia.
  - rewrite (morton_item_next pb bb ext dims st Hwf i0) by (try assumption; lia).
    replace (start (box i0) + Z.of_nat (S k) - 1) with (start (box i0) + Z.of_nat k) by lia.
    unfold scan_t_add. cbn [negb pwt].
    rewrite fld_map_mnrs by exact Hmnr. rewrite IH by (try assumption; lia).
    unfold morton_scan_input, scan_t_of_morton_nr. cbn [snd pwt].
    rewrite fld_map_mnrs by exact Hmnr.
    fold (refine_weight_of st (start (box i0) + Z.of_nat (S k))).
    cbn [weight_in].
    set (W := weight_in (refine_weight_of st) (fun j => key j =? Z.of_nat mnr)
                (start (box i0)) k
              + (if key (start (box i0) + Z.of_nat k) =? Z.of_nat mnr
                 then refine_weight_of st (start (box i0) + Z.of_nat k) else 0)).
    assert (HW : 0 <= W).
    { apply (weight_in_nonneg (refine_weight_of st) (fun j => key j =? Z.of_nat mnr)
               (start (box i0)) (S k)).
      intros j Hj. apply Hwt. lia. }
    pose proof (Hwt (start (box i0) + Z.of_nat (S k)) ltac:(lia)) as Hx.
    assert (HM : INT_MAX = 2147483647) by reflexivity.
    rewrite my_add_sat_nonneg
      by (try (destruct (key (start (box i0) + Z.of_nat (S k)) =? Z.of_nat mnr)); lia).
    destruct (key (start (box i0) + Z.of_nat (S k)) =? Z.of_nat mnr); lia.
Qed.

Lemma box_weights (i0 : Z) (mnr : nat) :
  0 <= i0 < Z.of_nat N -> box_is_current ext st (box i0) = true ->
  In mnr (mnrs dims) ->
  fld (pwt (box_counts pb ext dims st (box i0))) mnr
    = Z.min INT_MAX
        (weight_in (refine_weight_of st) (fun j => key j =? Z.of_nat mnr)
           (start (box i0)) (Z.to_nat (count (box i0)))).
Proof.
  intros Hi0 Hcur Hmnr.
  pose proof (wf_box pb bb ext dims st Hwf i0 Hi0 Hcur) as [_ [_ [_ [Hs [Hn _]]]]].
  rewrite (box_counts_last pb bb ext dims st Hwf i0) by assumption.
  replace (start (box i0) + count (box i0) - 1)
    with (start (box i0) + Z.of_nat (Z.to_nat (count (box i0) - 1))) by lia.
  replace (Z.to_nat (count (box i0))) with (S (Z.to_nat (count (box i0) - 1))) by lia.
  apply segment_weights; try assumption. lia.
Qed.

End SegmentWeights.

(** For refine weights between 0 and INT_MAX, the weight that the split
    test of an adaptive build compares with [max_leaf_refine_weight] is
    the total refine weight of the particles of the box that can descend
    (Morton number not -1), clipped at INT_MAX; a limit below INT_MAX is
    therefore exceeded exactly when the true total exceeds it. *)
Theorem box_refine_weight_is_clipped_total
    (pb bb : positive) (ext : bool) (dims : nat) (st : level_args) (i0 : Z) :
  wf_level pb bb ext dims st = true ->
  (forall j, 0 <= j < Z.of_nat (nsrcntgts st) -> 0 <= refine_weight_of st j <= INT_MAX) ->
  0 <= i0 < Z.of_nat (nsrcntgts st) ->
  box_is_current ext st (rd 0 (srcntgt_box_ids st) i0) = true ->
  let ibox := rd 0 (srcntgt_box_ids st) i0 in
  let total :=
    weight_in (refine_weight_of st) (fun j => 0 <=? rd 0 (morton_nrs st) j)
      (rd 0 (box_srcntgt_starts st) ibox)
      (Z.to_nat (rd 0 (box_srcntgt_counts_cumul st) ibox)) in
  box_refine_weight pb ext dims st ibox = Z.min INT_MAX total
  /\ (max_leaf_refine_weight st < INT_MAX ->
      (box_refine_weight pb ext dims st ibox >? max_leaf_refine_weight st)
        = (total >? max_leaf_refine_weight st)).
Proof.
  intros Hwf Hwt Hi0 Hcur ibox total.
  pose proof (wf_box pb bb ext dims st Hwf i0 Hi0 Hcur) as [_ [_ [_ [Hs [Hn _]]]]].
  fold ibox in Hs, Hn.
  set (s := rd 0 (box_srcntgt_starts st) ibox) in *.
  set (n := Z.to_nat (rd 0 (box_srcntgt_counts_cumul st) ibox)) in *.
  set (t := fun mnr => weight_in (refine_weight_of st)
                         (fun j => rd 0 (morton_nrs st) j =? Z.of_nat mnr) s n).
  assert (Hnn : forall mnr, In mnr (mnrs dims) -> 0 <= t mnr).
  { intros mnr _. apply weight_in_nonneg. intros j Hj. apply Hwt. lia. }
  assert (HM : INT_MAX = 2147483647) by reflexivity.
  assert (Hsame : forall mnr, In mnr (mnrs dims) ->
            fld (pwt (box_counts pb ext dims st ibox)) mnr = Z.min INT_MAX (t mnr)).
  { intros mnr Hmnr. apply (box_weights pb bb ext dims st Hwf Hwt i0 mnr Hi0 Hcur Hmnr). }
  assert (Hvalue : box_refine_weight pb ext dims st ibox = Z.min INT_MAX total).
  { unfold box_refine_weight.
    set (u := fun mnr => fld (pwt (box_counts pb ext dims st ibox)) mnr).
    change (fold_left (fun acc mnr => add_sat acc (u mnr)) (mnrs dims) 0
            = Z.min INT_MAX total).
    rewrite (fold_add_sat_sum u).
    - rewrite Z.add_0_l,
        (sum_terms_ext u (fun mnr => Z.min INT_MAX (t mnr)) (mnrs dims) Hsame).
      destruct (saturated_sum t (mnrs dims) Hnn) as [_ [_ ->]].
      f_equal. unfold t, mnrs. rewrite weight_in_octants.
      unfold total. apply weight_in_ext. intros j Hj.
      pose proof (wf_key pb bb ext dims st Hwf j ltac:(lia)) as Hk.
      rewrite (pow2_of_nat dims).
      replace (rd 0 (morton_nrs st) j <? 2 ^ Z.of_nat dims) with true
        by (symmetry; apply Z.ltb_lt; lia).
      rewrite andb_true_r. reflexivity.
    - intros mnr Hmnr. unfold u. rewrite (Hsame mnr Hmnr). specialize (Hnn mnr Hmnr). lia.
    - lia. }
  split; [exact Hvalue |].
  intros Hmax. rewrite Hvalue, !Z.gtb_ltb.
  destruct (Z.ltb_spec (max_leaf_refine_weight st) total);
    [apply Z.ltb_lt | apply Z.ltb_ge]; lia.
Qed.

Lemma box_refine_weight_is_clipped_total_witness :
  box_refine_weight 32 true 1 sample_level 0
    = Z.min INT_MAX
        (weight_in (refine_weight_of sample_level)
           (fun j => 0 <=? rd 0 (morton_nrs sample_level) j) 0 5).
Proof.
  assert (Hwt : forall j, 0 <= j < Z.of_nat (nsrcntgts sample_level) ->
            0 <= refine_weight_of sample_level j <= INT_MAX).
  { intros j Hj. change (Z.of_nat (nsrcntgts sample_level)) with 5 in Hj.
    assert (Hc : j = 0 \/ j = 1 \/ j = 2 \/ j = 3 \/ j = 4) by lia.
    destruct Hc as [-> | [-> | [-> | [-> | ->]]]]; vm_compute; split; congruence. }
  destruct (box_refine_weight_is_clipped_total 32 32 true 1 sample_level 0
              ltac:(vm_compute; reflexivity) Hwt ltac:(vm_compute; split; congruence)
              ltac:(vm_compute; reflexivity)) as [Hvalue _].
  exact Hvalue.
Defined.

(** ** Non-child particle counts of the boxes *)

Lemma rd_default {A : Type} (d d' : A) (l : list A) (i : Z) :
  0 <= i < len l -> rd d l i = rd d' l i.
Proof.
  intros Hi. unfold rd, len in *.
  replace (i <? 0) with false by (symmetry; apply Z.ltb_ge; lia).
  apply nth_indep. lia.
Qed.

(** Run on the records that the Morton scan of a well-formed level with
    extents leaves, the extraction gives a box of that level below
    [highest_possibly_split_box_nr] the number of its non-child particles,
    which is at most its particle count; boxes from
    [highest_possibly_split_box_nr] on and empty boxes get 0 without
    their bin counts being looked at. *)
Theorem extract_nonchild_counts_within_box
    (pb bb : positive) (dims : nat) (st : level_args)
    (highest_possibly_split_box_nr : Z) (out0 : list Z) (i0 : Z) :
  wf_level pb bb true dims st = true ->
  0 <= i0 < Z.of_nat (nsrcntgts st) ->
  box_is_current true st (rd 0 (srcntgt_box_ids st) i0) = true ->
  (length (box_morton_bin_counts st) <= length out0)%nat ->
  let ibox := rd 0 (srcntgt_box_ids st) i0 in
  let out :=
    extract_nonchild_srcntgt_count (box_morton_bin_counts_out pb true dims st)
      (box_srcntgt_counts_cumul st) highest_possibly_split_box_nr out0 in
  (ibox < highest_possibly_split_box_nr ->
     rd 0 out ibox
       = count_in (fun j => rd 0 (morton_nrs st) j =? -1)
           (rd 0 (box_srcntgt_starts st) ibox)
           (Z.to_nat (rd 0 (box_srcntgt_counts_cumul st) ibox))
     /\ 0 <= rd 0 out ibox <= rd 0 (box_srcntgt_counts_cumul st) ibox)
  /\ (forall b, 0 <= b < len (box_morton_bin_counts st) ->
        highest_possibly_split_box_nr <= b \/ rd 0 (box_srcntgt_counts_cumul st) b = 0 ->
        rd 0 out b = 0).
Proof.
  intros Hwf Hi0 Hcur Hlen ibox out.
  pose proof (wf_box pb bb true dims st Hwf i0 Hi0 Hcur) as [Hb [_ [_ [Hs [Hn _]]]]].
  destruct (box_counts_totals pb bb true dims st Hwf i0 Hi0 Hcur) as [_ Hnct].
  fold ibox in Hb, Hs, Hn, Hnct.
  assert (Hlane : forall b, 0 <= b < len (box_morton_bin_counts st) ->
            rd 0 out b
            = if b >=? highest_possibly_split_box_nr then 0
              else if rd 0 (box_srcntgt_counts_cumul st) b =? 0 then 0
              else nonchild_srcntgts
                     (rd (scan_t_neutral 0) (box_morton_bin_counts_out pb true dims st) b)).
  { intros b Hbr. unfold out, extract_nonchild_srcntgt_count.
    erewrite apply_writes_written.
    - reflexivity.
    - rewrite map_fst_keyed. apply NoDup_iota.
    - apply in_map_iff. exists b. split; [reflexivity |].
      apply in_iota. unfold box_morton_bin_counts_out. rewrite length_apply_writes.
      unfold len in Hbr. exact Hbr.
    - unfold len in *. lia. }
  split.
  - intros Hlow. rewrite (Hlane ibox Hb).
    replace (ibox >=? highest_possibly_split_box_nr) with false
      by (symmetry; rewrite Z.geb_leb; apply Z.leb_gt; lia).
    replace (rd 0 (box_srcntgt_counts_cumul st) ibox =? 0) with false
      by (symmetry; apply Z.eqb_neq; lia).
    rewrite (rd_default (scan_t_neutral 0) (scan_t_neutral dims))
      by (unfold len, box_morton_bin_counts_out; rewrite length_apply_writes; exact Hb).
    fold (box_counts pb true dims st ibox). rewrite Hnct.
    split; [reflexivity |].
    pose proof (count_in_bounds (fun j => rd 0 (morton_nrs st) j =? -1)
                  (rd 0 (box_srcntgt_starts st) ibox)
                  (Z.to_nat (rd 0 (box_srcntgt_counts_cumul st) ibox))). lia.
  - intros b Hbr Hcase. rewrite (Hlane b Hbr).
    destruct (Z.geb_spec b highest_possibly_split_box_nr) as [Hge | Hlt]; [reflexivity |].
    destruct Hcase as [Hhigh | Hempty]; [lia |].
    rewrite Hempty. reflexivity.
Qed.

Lemma extract_nonchild_counts_within_box_witness :
  rd 0 (extract_nonchild_srcntgt_count (box_morton_bin_counts_out 32 true 1 sample_level)
          (box_srcntgt_counts_cumul sample_level) 1 [9; 9; 9]) 0
    = count_in (fun j => rd 0 (morton_nrs sample_level) j =? -1) 0 5.
Proof.
  destruct (extract_nonchild_counts_within_box 32 32 1 sample_level 1 [9; 9; 9] 0
              ltac:(vm_compute; reflexivity) ltac:(vm_compute; split; congruence)
              ltac:(vm_compute; reflexivity) ltac:(cbn; lia)) as [Hbox _].
  destruct (Hbox ltac:(vm_compute; reflexivity)) as [Hvalue _].
  exact Hvalue.
Defined.

(** ** Split-and-sort: the box arrays *)

Lemma apply_writes_keyed {A B : Type} (d : A) (f : B -> Z) (g : B -> A)
    (l : list B) (arr : list A) (k : Z) (b : B) :
  In b l -> f b = k -> (forall b', In b' l -> f b' = k -> g b' = g b) ->
  0 <= k < len arr ->
  rd d (apply_writes arr (map (fun b => (f b, g b)) l)) k = g b.
Proof.
  intros Hin Hk Hsame Hr. apply apply_writes_agree; [| | exact Hr].
  - intros v' Hv. apply in_map_iff in Hv. destruct Hv as [b' [Heq Hb']].
    injection Heq as Hf <-. apply Hsame; assumption.
  - apply in_map_iff. exists b. split; [rewrite Hk; reflexivity | exact Hin].
Qed.

Lemma apply_writes_keyed_untouched {A B : Type} (d : A) (f : B -> Z) (g : B -> A)
    (l : list B) (arr : list A) (k : Z) :
  (forall b, In b l -> f b <> k) ->
  rd d (apply_writes arr (map (fun b => (f b, g b)) l)) k = rd d arr k.
Proof.
  intros Hne. apply apply_writes_untouched. rewrite map_map. cbn [fst].
  intros Hin. apply in_map_iff in Hin. destruct Hin as [b [Hf Hb]].
  apply (Hne b Hb Hf).
Qed.

Section ChildArrayFacts.

Variables pb bb : positive.
Variables ext adaptive : bool.
Variable dims : nat.
Variable st : level_args.
Hypothesis Hwf : wf_level pb bb ext dims st = true.

#[local] Abbreviation N := (nsrcntgts st).
#[local] Abbreviation key j := (rd 0 (morton_nrs st) j).
#[local] Abbreviation box j := (rd 0 (srcntgt_box_ids st) j).
#[local] Abbreviation start b := (rd 0 (box_srcntgt_starts st) b).
#[local] Abbreviation count b := (rd 0 (box_srcntgt_counts_cumul st) b).
#[local] Abbreviation lane i := (split_and_sort pb bb ext adaptive dims st i).
#[local] Abbreviation splits b := (do_split_box pb bb ext adaptive dims st b).
#[local] Abbreviation two_d := (2 ^ Z.of_nat dims).
#[local] Abbreviation boxes := (child_boxes pb bb ext adaptive dims st).
#[local] Abbreviation new_id i := (new_box_id_of pb bb ext adaptive dims st i).

Lemma in_child_boxes (cb : child_box_t) :
  In cb boxes <-> exists j, 0 <= j < Z.of_nat N /\ child_box (lane j) = Some cb.
Proof.
  unfold child_boxes, split_and_sort_lanes. rewrite in_flat_map. split.
  - intros [l [Hl Hcb]]. apply in_map_iff in Hl. destruct Hl as [j [<- Hj]].
    apply in_iota in Hj. exists j. split; [exact Hj |].
    destruct (child_box (lane j)) as [cb' |]; [| destruct Hcb].
    destruct Hcb as [-> | []]. reflexivity.
  - intros [j [Hj Hcb]]. exists (lane j). split.
    + apply in_map, in_iota. exact Hj.
    + rewrite Hcb. left. reflexivity.
Qed.

(** The id of the child box of a particle depends on its box and its
    Morton number only. *)
Lemma new_id_of_box_and_key (i j : Z) :
  0 <= i < Z.of_nat N -> 0 <= j < Z.of_nat N ->
  splits (box i) = true -> 0 <= key i < two_d ->
  box j = box i -> key j = key i -> new_id j = new_id i.
Proof.
  intros Hi Hj Hs Hk Hbox Hkey.
  assert (Hsj : splits (box j) = true) by (rewrite Hbox; exact Hs).
  pose proof (splits_current pb bb ext adaptive dims st _ Hs) as Hcur.
  pose proof (splits_current pb bb ext adaptive dims st _ Hsj) as Hcurj.
  rewrite (new_box_id_value pb bb ext adaptive dims st Hwf j Hj Hsj) by (rewrite Hkey; exact Hk).
  rewrite (new_box_id_value pb bb ext adaptive dims st Hwf i Hi Hs Hk).
  rewrite (split_box_id_in_box pb bb ext adaptive dims st Hwf j Hj Hcurj).
  rewrite (split_box_id_in_box pb bb ext adaptive dims st Hwf i Hi Hcur).
  rewrite Hbox, Hkey. reflexivity.
Qed.

(** The id of a child box is new and below the box count after the scan. *)
Lemma new_id_bounds (i : Z) :
  0 <= i < Z.of_nat N -> splits (box i) = true -> 0 <= key i < two_d ->
  nboxes st <= new_id i < nboxes_out pb bb ext adaptive dims st.
Proof.
  intros Hi Hs Hk.
  pose proof (splits_current pb bb ext adaptive dims st _ Hs) as Hcur.
  pose proof (wf_box pb bb ext dims st Hwf i Hi Hcur) as [_ [_ [_ [Hsi [Hni _]]]]].
  pose proof (new_box_id_value pb bb ext adaptive dims st Hwf i Hi Hs Hk) as Hid.
  pose proof (split_box_id_room pb bb ext adaptive dims st Hwf i Hi Hs) as Hroom.
  pose proof (split_box_id_in_box pb bb ext adaptive dims st Hwf i Hi Hcur) as Hin.
  set (s := rd 0 (box_srcntgt_starts st) (rd 0 (srcntgt_box_ids st) i)) in *.
  pose proof (psum_inputs_counts_tests pb bb ext adaptive dims st Hwf (Z.to_nat s)
                ltac:(lia)) as Hbefore.
  pose proof (psum_mono (split_scan_inputs pb bb ext adaptive dims st)
                (S (Z.to_nat s)) (nsrcntgts st)
                (inputs_nonneg pb bb ext adaptive dims st Hwf) ltac:(lia)
                ltac:(rewrite (length_inputs pb bb ext adaptive dims st); lia)) as Hmono.
  pose proof (count_in_bounds
                (fun i0 => split_test pb ext adaptive dims st i0 (rd 0 (srcntgt_box_ids st) i0))
                0 (Z.to_nat s)) as [Hcb0 _].
  pose proof (pow2_pos (Z.of_nat dims) ltac:(lia)) as Htd.
  assert (Hprod : 0 <= 2 ^ Z.of_nat dims
                       * count_in (fun i0 => split_test pb ext adaptive dims st i0
                                               (rd 0 (srcntgt_box_ids st) i0)) 0 (Z.to_nat s))
    by (apply Z.mul_nonneg_nonneg; lia).
  destruct (wf_sizes pb bb ext dims st Hwf) as [_ [Hnb _]].
  assert (Hstep : rd 0 (split_box_ids pb bb ext adaptive dims st) i
                  = psum (split_scan_inputs pb bb ext adaptive dims st) (Z.to_nat s)
                    + (if s =? 0 then nboxes st else 0) + 2 ^ Z.of_nat dims).
  { rewrite Hin, psum_snoc by (rewrite (length_inputs pb bb ext adaptive dims st); lia).
    rewrite (nth_inputs pb bb ext adaptive dims st Hwf) by lia.
    rewrite Z2Nat.id by lia.
    pose proof (splits_first_passes pb bb ext adaptive dims st Hwf i Hi Hs) as Hfirst.
    change (rd 0 (box_srcntgt_starts st) (rd 0 (srcntgt_box_ids st) i)) with s in Hfirst.
    rewrite Hfirst. lia. }
  rewrite nboxes_out_psum by (try assumption; lia).
  rewrite Hid. split.
  - rewrite Hstep, Hbefore.
    destruct (Z.eqb_spec s 0) as [E | E].
    + replace (0 <? Z.of_nat (Z.to_nat s)) with false by (symmetry; apply Z.ltb_ge; lia).
      lia.
    + replace (0 <? Z.of_nat (Z.to_nat s)) with true by (symmetry; apply Z.ltb_lt; lia).
      lia.
  - rewrite Hin. lia.
Qed.

(** The record of the child box that a particle moves to, and that no
    other record carries the same id. *)
Lemma child_writer (i : Z) :
  0 <= i < Z.of_nat N -> splits (box i) = true -> 0 <= key i < two_d ->
  exists cb,
    In cb boxes
    /\ new_box_id cb = new_id i
    /\ new_box_parent_id cb = box i
    /\ new_box_morton_nr cb = key i
    /\ new_box_level cb = level st
    /\ new_box_start cb
         = start (box i)
           + count_in (fun j => key j <? key i) (start (box i)) (Z.to_nat (count (box i)))
    /\ new_count cb
         = count_in (fun j => key j =? key i) (start (box i)) (Z.to_nat (count (box i)))
    /\ (forall cb', In cb' boxes -> new_box_id cb' = new_box_id cb -> cb' = cb).
Proof.
  intros Hi Hs Hk.
  pose proof (splits_current pb bb ext adaptive dims st _ Hs) as Hcur.
  pose proof (wf_box pb bb ext dims st Hwf i Hi Hcur) as [_ [_ [_ [Hs0 [Hn0 Hrange]]]]].
  destruct (box_counts_totals pb bb ext dims st Hwf i Hi Hcur) as [Htotals _].
  assert (Hmnr : In (Z.to_nat (key i)) (mnrs dims)) by (apply in_mnrs; lia).
  assert (Hpos : 0 < count_in (fun j => key j =? key i) (start (box i))
                       (Z.to_nat (count (box i)))).
  { pose proof (count_in_single (start (box i)) (Z.to_nat (count (box i))) i ltac:(lia))
      as Hone.
    assert (count_in (fun j => j =? i) (start (box i)) (Z.to_nat (count (box i)))
            <= count_in (fun j => key j =? key i) (start (box i))
                 (Z.to_nat (count (box i)))).
    { apply count_in_le. intros j _ Hj. apply Z.eqb_eq in Hj. rewrite Hj. apply Z.eqb_refl. }
    lia. }
  destruct (last_occurrence (fun j => key j =? key i) (start (box i))
              (Z.to_nat (count (box i))) Hpos) as [w [Hw [Hkey Hlast]]].
  cbn beta in Hkey, Hlast. apply Z.eqb_eq in Hkey.
  destruct (Hrange w ltac:(lia)) as [Hbox _].
  assert (HwN : 0 <= w < Z.of_nat N) by lia.
  assert (Hsw : splits (box w) = true) by (rewrite Hbox; exact Hs).
  assert (Hcurw : box_is_current ext st (box w) = true) by (rewrite Hbox; exact Hcur).
  assert (Hkw : 0 <= key w < two_d) by (rewrite Hkey; exact Hk).
  assert (Hmc : get_count ext dims (morton_item pb ext dims st w) (key w)
                = fld (pcnt (box_counts pb ext dims st (box w))) (Z.to_nat (key w))).
  { rewrite (my_count_in_box pb bb ext dims st Hwf w HwN Hcurw), Hbox, Hkey, Hlast.
    rewrite (Htotals _ Hmnr), Z2Nat.id by lia. reflexivity. }
  destruct (child_box (lane w)) as [cb |] eqn:Ecb.
  2:{ exfalso. apply (proj2 (child_box_iff pb bb ext adaptive dims st w Hsw Hkw));
        [exact Hmc | exact Ecb]. }
  destruct (child_box_inv pb bb ext adaptive dims st w cb Ecb) as [_ [_ [_ Hcb]]].
  destruct (new_box_start_value pb bb ext adaptive dims st Hwf w cb HwN Ecb) as [Hst Hct].
  assert (Hidw : new_box_id cb = new_id w) by (rewrite Hcb; reflexivity).
  exists cb.
  split; [apply in_child_boxes; exists w; split; [exact HwN | exact Ecb] |].
  split; [rewrite Hidw; apply new_id_of_box_and_key; assumption |].
  split; [rewrite Hcb; cbn [new_box_parent_id]; exact Hbox |].
  split; [rewrite Hcb; cbn [new_box_morton_nr]; exact Hkey |].
  split; [rewrite Hcb; reflexivity |].
  split; [rewrite Hst, Hbox, Hkey; reflexivity |].
  split; [rewrite Hct, Hbox, Hkey; reflexivity |].
  intros cb' Hin Hid. apply in_child_boxes in Hin. destruct Hin as [j [Hj Ecb']].
  destruct (child_box_inv pb bb ext adaptive dims st j cb' Ecb') as [Hsj [Hkj [Htj Hcb']]].
  assert (Hidj : new_box_id cb' = new_id j) by (rewrite Hcb'; reflexivity).
  rewrite Hidj, Hidw in Hid.
  pose proof (splits_current pb bb ext adaptive dims st _ Hsj) as Hcurj.
  assert (Hsame : box j = box w).
  { apply (child_ids_of_same_box pb bb ext adaptive dims st Hwf j w); try assumption.
    rewrite <- (new_box_id_value pb bb ext adaptive dims st Hwf j Hj Hsj Hkj).
    rewrite <- (new_box_id_value pb bb ext adaptive dims st Hwf w HwN Hsw Hkw).
    exact Hid. }
  assert (Hkeys : key j = key w).
  { rewrite (new_box_id_value pb bb ext adaptive dims st Hwf j Hj Hsj Hkj) in Hid.
    rewrite (new_box_id_value pb bb ext adaptive dims st Hwf w HwN Hsw Hkw) in Hid.
    rewrite (split_box_id_in_box pb bb ext adaptive dims st Hwf j Hj Hcurj) in Hid.
    rewrite (split_box_id_in_box pb bb ext adaptive dims st Hwf w HwN Hcurw) in Hid.
    rewrite Hsame in Hid. lia. }
  assert (Hjw : j = w).
  { apply (last_in_octant_unique pb bb ext dims st Hwf j w Hj HwN Hcurj Hsame Hkeys).
    rewrite <- Htj, Hmc, Hsame, Hkeys. reflexivity. }
  subst j. congruence.
Qed.

(** Box records that existed before the level are not written. *)
Lemma old_boxes_untouched (g : child_box_t -> Z) (arr : list Z) (b : Z) :
  b < nboxes st ->
  rd 0 (apply_writes arr (map (fun cb => (new_box_id cb, g cb)) boxes)) b = rd 0 arr b.
Proof.
  intros Hb. apply apply_writes_keyed_untouched. intros cb Hin.
  apply in_child_boxes in Hin. destruct Hin as [j [Hj Ecb]].
  destruct (child_box_inv pb bb ext adaptive dims st j cb Ecb) as [Hsj [Hkj [_ Hcb]]].
  assert (Hid : new_box_id cb = new_id j) by (rewrite Hcb; reflexivity).
  pose proof (new_id_bounds j Hj Hsj Hkj). lia.
Qed.

End ChildArrayFacts.

(** After split-and-sort every particle of a box of the current level
    lies in the range that the box arrays give for the box it is now
    filed under. The records of the boxes that existed before are kept; a
    particle that moved to a child box finds there the start flag set at
    the start of its box, its old box as parent, its Morton number and the
    level being built. *)
Theorem split_and_sort_keeps_particles_in_their_boxes
    (pb bb : positive) (ext adaptive : bool) (dims : nat) (st : level_args)
    (box_parent_ids box_morton_nrs : list Z) (i : Z) :
  wf_level pb bb ext dims st = true ->
  (forall j, 0 <= j < Z.of_nat (nsrcntgts st) -> rd 0 (srcntgt_box_ids st) j < nboxes st) ->
  nboxes_out pb bb ext adaptive dims st <= len (box_srcntgt_starts st) ->
  nboxes_out pb bb ext adaptive dims st <= len (box_srcntgt_counts_cumul st) ->
  nboxes_out pb bb ext adaptive dims st <= len (box_levels st) ->
  nboxes_out pb bb ext adaptive dims st <= len box_parent_ids ->
  nboxes_out pb bb ext adaptive dims st <= len box_morton_nrs ->
  0 <= i < Z.of_nat (nsrcntgts st) ->
  box_is_current ext st (rd 0 (srcntgt_box_ids st) i) = true ->
  let l := split_and_sort pb bb ext adaptive dims st i in
  let c := new_srcntgt_box_id l in
  let starts := box_srcntgt_starts_out pb bb ext adaptive dims st in
  let counts := box_srcntgt_counts_cumul_out pb bb ext adaptive dims st in
  rd 0 starts c <= tgt_particle_idx l < rd 0 starts c + rd 0 counts c
  /\ (do_split_box pb bb ext adaptive dims st (rd 0 (srcntgt_box_ids st) i) = true ->
      0 <= rd 0 (morton_nrs st) i ->
      nboxes st <= c
      /\ rd 0 (box_start_flags_out pb bb ext adaptive dims st) (rd 0 starts c) = 1
      /\ rd 0 (box_parent_ids_out pb bb ext adaptive dims st box_parent_ids) c
           = rd 0 (srcntgt_box_ids st) i
      /\ rd 0 (box_morton_nrs_out pb bb ext adaptive dims st box_morton_nrs) c
           = rd 0 (morton_nrs st) i
      /\ rd 0 (box_levels_out pb bb ext adaptive dims st) c = level st)
  /\ (do_split_box pb bb ext adaptive dims st (rd 0 (srcntgt_box_ids st) i) = false
      \/ rd 0 (morton_nrs st) i = -1 ->
      c = rd 0 (srcntgt_box_ids st) i
      /\ rd 0 starts c = rd 0 (box_srcntgt_starts st) c
      /\ rd 0 counts c = rd 0 (box_srcntgt_counts_cumul st) c).
Proof.
  intros Hwf Hold Hl1 Hl2 Hl3 Hl4 Hl5 Hi Hcur l c starts counts.
  pose proof (wf_box pb bb ext dims st Hwf i Hi Hcur) as [_ [_ [_ [Hs0 [Hn0 _]]]]].
  pose proof (wf_key pb bb ext dims st Hwf i Hi) as Hkey.
  destruct (wf_sizes pb bb ext dims st Hwf) as [_ [Hnb _]].
  assert (Hkept : do_split_box pb bb ext adaptive dims st (rd 0 (srcntgt_box_ids st) i) = false
                  \/ rd 0 (morton_nrs st) i = -1 ->
                  c = rd 0 (srcntgt_box_ids st) i
                  /\ rd 0 starts c = rd 0 (box_srcntgt_starts st) c
                  /\ rd 0 counts c = rd 0 (box_srcntgt_counts_cumul st) c).
  { intros Hcase.
    assert (Hc : c = rd 0 (srcntgt_box_ids st) i).
    { unfold c, l, split_and_sort.
      destruct (do_split_box pb bb ext adaptive dims st (rd 0 (srcntgt_box_ids st) i)) eqn:Es;
        [| reflexivity].
      destruct Hcase as [Hf | Hm]; [discriminate |].
      cbn [new_srcntgt_box_id]. unfold new_box_id_of. rewrite Hm.
      assert (Hext : ext = true) by (clear - Hkey Hm; destruct ext; [reflexivity | lia]).
      rewrite Hext. reflexivity. }
    split; [exact Hc |]. rewrite Hc.
    split; apply (old_boxes_untouched pb bb ext adaptive dims st Hwf); apply Hold; exact Hi. }
  assert (Hchild : do_split_box pb bb ext adaptive dims st (rd 0 (srcntgt_box_ids st) i) = true ->
                   0 <= rd 0 (morton_nrs st) i ->
                   exists cb,
                     In cb (child_boxes pb bb ext adaptive dims st)
                     /\ new_box_id cb = c
                     /\ nboxes st <= c < nboxes_out pb bb ext adaptive dims st
                     /\ rd 0 starts c = new_box_start cb
                     /\ rd 0 counts c = new_count cb
                     /\ 0 <= new_box_start cb <= tgt_particle_idx l
                     /\ tgt_particle_idx l < new_box_start cb + new_count cb
                     /\ new_box_parent_id cb = rd 0 (srcntgt_box_ids st) i
                     /\ new_box_morton_nr cb = rd 0 (morton_nrs st) i
                     /\ new_box_level cb = level st
                     /\ (forall cb', In cb' (child_boxes pb bb ext adaptive dims st) ->
                           new_box_id cb' = c -> cb' = cb)).
  { intros Hs Hk0.
    assert (Hk : 0 <= rd 0 (morton_nrs st) i < 2 ^ Z.of_nat dims) by lia.
    destruct (child_writer pb bb ext adaptive dims st Hwf i Hi Hs Hk)
      as [cb [Hin [Hid [Hpar [Hmn [Hlev [Hst [Hct Huniq]]]]]]]].
    pose proof (new_id_bounds pb bb ext adaptive dims st Hwf i Hi Hs Hk) as Hb.
    assert (Hc : c = new_box_id_of pb bb ext adaptive dims st i).
    { unfold c, l, split_and_sort. rewrite Hs. reflexivity. }
    destruct (tgt_decomposition pb bb ext adaptive dims st Hwf i Hi Hs) as [place [Htgt Hpl]].
    exists cb. rewrite Hc.
    split; [exact Hin |]. split; [exact Hid |]. split; [exact Hb |].
    assert (Hsame : forall cb', In cb' (child_boxes pb bb ext adaptive dims st) ->
              new_box_id cb' = new_box_id_of pb bb ext adaptive dims st i -> cb' = cb).
    { intros cb' Hin' Hid'. apply Huniq; [exact Hin' | congruence]. }
    split.
    { unfold starts, box_srcntgt_starts_out.
      apply (apply_writes_keyed 0 new_box_id new_box_start); try assumption.
      - intros cb' Hin' Hid'. rewrite (Hsame cb' Hin' Hid'). reflexivity.
      - lia. }
    split.
    { unfold counts, box_srcntgt_counts_cumul_out.
      apply (apply_writes_keyed 0 new_box_id new_count); try assumption.
      - intros cb' Hin' Hid'. rewrite (Hsame cb' Hin' Hid'). reflexivity.
      - lia. }
    pose proof (count_in_bounds (fun j => rd 0 (morton_nrs st) j <? rd 0 (morton_nrs st) i)
                  (rd 0 (box_srcntgt_starts st) (rd 0 (srcntgt_box_ids st) i))
                  (Z.to_nat (rd 0 (box_srcntgt_counts_cumul st)
                                (rd 0 (srcntgt_box_ids st) i)))) as Hbelow.
    split; [fold l in Htgt; rewrite Hst, Htgt; lia |].
    split; [fold l in Htgt; rewrite Hst, Hct, Htgt; lia |].
    split; [exact Hpar |]. split; [exact Hmn |]. split; [exact Hlev | exact Hsame]. }
  split; [| split; [| exact Hkept]].
  - destruct (do_split_box pb bb ext adaptive dims st (rd 0 (srcntgt_box_ids st) i)) eqn:Es.
    + destruct (Z.eq_dec (rd 0 (morton_nrs st) i) (-1)) as [Hm | Hm].
      * destruct (Hkept (or_intror Hm)) as [Hc [-> ->]]. rewrite Hc.
        apply (tgt_split_range pb bb ext adaptive dims st Hwf i Hi Es).
      * assert (Hk0 : 0 <= rd 0 (morton_nrs st) i) by (clear - Hkey Hm; destruct ext; lia).
        destruct (Hchild eq_refl Hk0) as [cb [_ [_ [_ [-> [-> [Hr1 [Hr2 _]]]]]]]]. lia.
    + destruct (Hkept (or_introl eq_refl)) as [Hc [-> ->]]. rewrite Hc.
      unfold l. rewrite (lane_nosplit pb bb ext adaptive dims st i Es).
      cbn [tgt_particle_idx]. lia.
  - intros Hs Hk0.
    destruct (Hchild Hs Hk0)
      as [cb [Hin [Hid [Hb [Hst [Hct [Hr1 [Hr2 [Hpar [Hmn [Hlev Hsame]]]]]]]]]]].
    split; [lia |].
    destruct (wf_lengths pb bb ext dims st Hwf) as [_ [_ Hlf]].
    pose proof (tgt_in_range pb bb ext adaptive dims st Hwf i Hi) as Htr. fold l in Htr.
    split.
    { rewrite Hst. unfold box_start_flags_out.
      apply (apply_writes_keyed 0 new_box_start (fun _ => 1) _ _ _ cb Hin eq_refl).
      - intros; reflexivity.
      - unfold len. rewrite Hlf. lia. }
    split.
    { rewrite <- Hpar. unfold box_parent_ids_out.
      apply (apply_writes_keyed 0 new_box_id new_box_parent_id); try assumption.
      - intros cb' Hin' Hid'. rewrite (Hsame cb' Hin' Hid'). reflexivity.
      - lia. }
    split.
    { rewrite <- Hmn. unfold box_morton_nrs_out.
      apply (apply_writes_keyed 0 new_box_id new_box_morton_nr); try assumption.
      - intros cb' Hin' Hid'. rewrite (Hsame cb' Hin' Hid'). reflexivity.
      - lia. }
    rewrite <- Hlev. unfold box_levels_out.
    apply (apply_writes_keyed 0 new_box_id new_box_level); try assumption.
    + intros cb' Hin' Hid'. rewrite (Hsame cb' Hin' Hid'). reflexivity.
    + lia.
Qed.

Lemma split_and_sort_keeps_particles_in_their_boxes_witness :
  let l := split_and_sort 32 32 true true 1 sample_level 0 in
  let c := new_srcntgt_box_id l in
  rd 0 (box_srcntgt_starts_out 32 32 true true 1 sample_level) c <= tgt_particle_idx l
  /\ tgt_particle_idx l
       < rd 0 (box_srcntgt_starts_out 32 32 true true 1 sample_level) c
         + rd 0 (box_srcntgt_counts_cumul_out 32 32 true true 1 sample_level) c.
Proof.
  assert (Hold : forall j, 0 <= j < Z.of_nat (nsrcntgts sample_level) ->
            rd 0 (srcntgt_box_ids sample_level) j < nboxes sample_level).
  { intros j Hj. change (Z.of_nat (nsrcntgts sample_level)) with 5 in Hj.
    assert (Hc : j = 0 \/ j = 1 \/ j = 2 \/ j = 3 \/ j = 4) by lia.
    destruct Hc as [-> | [-> | [-> | [-> | ->]]]]; vm_compute; reflexivity. }
  destruct (split_and_sort_keeps_particles_in_their_boxes 32 32 true true 1 sample_level
              [0; 0; 0] [0; 0; 0] 0
              ltac:(vm_compute; reflexivity) Hold
              ltac:(vm_compute; congruence) ltac:(vm_compute; congruence)
              ltac:(vm_compute; congruence) ltac:(vm_compute; congruence)
              ltac:(vm_compute; congruence) ltac:(vm_compute; split; congruence)
              ltac:(vm_compute; reflexivity)) as [Hrange _].
  exact Hrange.
Defined.

Lemma existsb_pointwise_in {A : Type} (f g : A -> bool) (l : list A) :
  (forall x, In x l -> f x = g x) -> existsb f l = existsb g l.
Proof.
  induction l as [| x l IH]; intros Hfg; cbn [existsb]; [reflexivity |].
  rewrite (Hfg x) by (left; reflexivity).
  rewrite IH by (intros y Hy; apply Hfg; right; exact Hy). reflexivity.
Qed.

(** [*have_oversize_split_box], which makes the driver build another
    level, is set exactly when one of the child boxes written on this
    level is heavier than [max_leaf_refine_weight]: for refine weights
    between 0 and INT_MAX and a limit below INT_MAX the comparison of the
    clipped weight decides as the true total weight of the particles of
    that child would. Otherwise the flag keeps its value. *)
Theorem have_oversize_split_box_flags_heavy_children
    (pb bb : positive) (ext adaptive : bool) (dims : nat) (st : level_args)
    (have_oversize_split_box : list Z) :
  wf_level pb bb ext dims st = true ->
  (forall j, 0 <= j < Z.of_nat (nsrcntgts st) -> 0 <= refine_weight_of st j <= INT_MAX) ->
  max_leaf_refine_weight st < INT_MAX ->
  (0 < length have_oversize_split_box)%nat ->
  rd 0 (have_oversize_split_box_out pb bb ext adaptive dims st have_oversize_split_box) 0
  = if existsb
         (fun cb =>
            weight_in (refine_weight_of st)
              (fun j => rd 0 (morton_nrs st) j =? new_box_morton_nr cb)
              (rd 0 (box_srcntgt_starts st) (new_box_parent_id cb))
              (Z.to_nat (rd 0 (box_srcntgt_counts_cumul st) (new_box_parent_id cb)))
            >? max_leaf_refine_weight st)
         (child_boxes pb bb ext adaptive dims st)
    then 1
    else rd 0 have_oversize_split_box 0.
Proof.
  intros Hwf Hwt Hmax Hlen.
  assert (HM : INT_MAX = 2147483647) by reflexivity.
  rewrite <- (existsb_pointwise_in oversize).
  - unfold have_oversize_split_box_out.
    destruct (existsb oversize (child_boxes pb bb ext adaptive dims st)) eqn:Ex.
    + apply existsb_exists in Ex. destruct Ex as [cb [Hin Hov]].
      apply (apply_writes_keyed 0 (fun _ => 0) (fun _ => 1) _ _ 0 cb).
      * apply filter_In. split; assumption.
      * reflexivity.
      * intros; reflexivity.
      * unfold len. lia.
    + replace (filter oversize (child_boxes pb bb ext adaptive dims st)) with (@nil child_box_t).
      * reflexivity.
      * symmetry. apply filter_none. intros cb Hin.
        destruct (oversize cb) eqn:Hov; [| reflexivity].
        assert (existsb oversize (child_boxes pb bb ext adaptive dims st) = true)
          by (apply existsb_exists; exists cb; split; assumption).
        congruence.
  - intros cb Hin. apply in_child_boxes in Hin. destruct Hin as [j [Hj Ecb]].
    destruct (child_box_inv pb bb ext adaptive dims st j cb Ecb) as [Hs [Hk [_ Hcb]]].
    pose proof (splits_current pb bb ext adaptive dims st _ Hs) as Hcur.
    pose proof (wf_box pb bb ext dims st Hwf j Hj Hcur) as [_ [_ [_ [Hs0 [Hn0 _]]]]].
    assert (Hmnr : In (Z.to_nat (rd 0 (morton_nrs st) j)) (mnrs dims)) by (apply in_mnrs; lia).
    pose proof (box_weights pb bb ext dims st Hwf Hwt j _ Hj Hcur Hmnr) as Hw.
    rewrite Z2Nat.id in Hw by lia.
    rewrite Hcb. cbn [oversize new_box_morton_nr new_box_parent_id]. rewrite Hw.
    pose proof (weight_in_nonneg (refine_weight_of st)
                  (fun j0 => rd 0 (morton_nrs st) j0 =? rd 0 (morton_nrs st) j)
                  (rd 0 (box_srcntgt_starts st) (rd 0 (srcntgt_box_ids st) j))
                  (Z.to_nat (rd 0 (box_srcntgt_counts_cumul st) (rd 0 (srcntgt_box_ids st) j)))
                  ltac:(intros j0 Hj0; apply Hwt; lia)) as Hnn.
    rewrite !Z.gtb_ltb.
    destruct (Z.ltb_spec (max_leaf_refine_weight st)
                (weight_in (refine_weight_of st)
                   (fun j0 => rd 0 (morton_nrs st) j0 =? rd 0 (morton_nrs st) j)
                   (rd 0 (box_srcntgt_starts st) (rd 0 (srcntgt_box_ids st) j))
                   (Z.to_nat (rd 0 (box_srcntgt_counts_cumul st)
                                 (rd 0 (srcntgt_box_ids st) j)))));
      [apply Z.ltb_lt | apply Z.ltb_ge]; lia.
Qed.

Lemma have_oversize_split_box_flags_heavy_children_witness :
  rd 0 (have_oversize_split_box_out 32 32 true true 1 sample_level [0]) 0 = 1.
Proof.
  assert (Hwt : forall j, 0 <= j < Z.of_nat (nsrcntgts sample_level) ->
            0 <= refine_weight_of sample_level j <= INT_MAX).
  { intros j Hj. change (Z.of_nat (nsrcntgts sample_level)) with 5 in Hj.
    assert (Hc : j = 0 \/ j = 1 \/ j = 2 \/ j = 3 \/ j = 4) by lia.
    destruct Hc as [-> | [-> | [-> | [-> | ->]]]]; vm_compute; split; congruence. }
  rewrite (have_oversize_split_box_flags_heavy_children 32 32 true true 1 sample_level [0]
             ltac:(vm_compute; reflexivity) Hwt ltac:(vm_compute; reflexivity)
             ltac:(cbn; lia)).
  vm_compute. reflexivity.
Defined.
